(** * TinyG / Grbl [gcode.c]: the RS274/NGC line interpreter

    A shallow embedding of [gcode.c] and the properties of
    [gc_execute_line] that its specification states.  The first part
    holds the definitions: the embedding of the source, a model of
    [strtod], and the vocabulary of the properties.  The second part
    holds the proofs.

    Conventions of the embedding.
    - The global [struct ParserState gc] is passed explicitly: every
      function that reads or writes it takes a [ParserState] and, where
      it writes, returns the new one.
    - Calls into the collaborators (motion control, spindle control,
      settings) are recorded, in order, as a list of [event]s.
    - The C type [double] is idealised: a value is a real number, an
      infinity or NaN ([double] below).  Arithmetic is exact (no rounding,
      no overflow) and there is one zero, which divides like [+0]; the two
      divisors of the program that can be zero, [fabs(y)] and [hypot(x,y)],
      are [+0] in IEEE arithmetic as well.  The code rounds: where a
      property of the arcs rests on a comparison of computed values (the
      test of the radius, the sign of the angular travel, two angles that
      coincide), it is stated on the values the code computes, or with a
      margin that keeps the comparison away from the rounding, and not on
      what exact arithmetic alone decides.
    - [strtod] belongs to the C library, not to this file: the interpreter
      is defined over an arbitrary [strtod], and [strtod_c] is a model of
      the decimal forms the library function accepts. *)

From Stdlib Require Import Reals Lra Lia ZArith Bool List String Ascii.
Import ListNotations.

Local Open Scope string_scope.
Local Open Scope list_scope.

(* ================================================================== *)
(** ** The idealised [double] and the part of [math.h] used            *)
(* ================================================================== *)

Inductive double : Type :=
| Fin (r : R)
| PInf
| NInf
| NaN.

Declare Scope double_scope.
Delimit Scope double_scope with D.
Bind Scope double_scope with double.

Definition dneg (a : double) : double :=
  match a with
  | Fin x => Fin (- x)
  | PInf => NInf
  | NInf => PInf
  | NaN => NaN
  end.

Definition dadd (a b : double) : double :=
  match a, b with
  | NaN, _ | _, NaN => NaN
  | Fin x, Fin y => Fin (x + y)
  | PInf, NInf | NInf, PInf => NaN
  | PInf, _ | _, PInf => PInf
  | NInf, _ | _, NInf => NInf
  end.

Definition dsub (a b : double) : double := dadd a (dneg b).

(** The infinity with the sign of the real [x]; NaN for [x = 0]. *)
Definition inf_signed (x : R) (pos neg : double) : double :=
  if Rlt_dec 0 x then pos else if Rlt_dec x 0 then neg else NaN.

Definition dmul (a b : double) : double :=
  match a, b with
  | NaN, _ | _, NaN => NaN
  | Fin x, Fin y => Fin (x * y)
  | Fin x, PInf | PInf, Fin x => inf_signed x PInf NInf
  | Fin x, NInf | NInf, Fin x => inf_signed x NInf PInf
  | PInf, PInf | NInf, NInf => PInf
  | PInf, NInf | NInf, PInf => NInf
  end.

Definition ddiv (a b : double) : double :=
  match a, b with
  | NaN, _ | _, NaN => NaN
  | Fin x, Fin y =>
      if Req_dec_T y 0 then inf_signed x PInf NInf else Fin (x / y)
  | Fin _, (PInf | NInf) => Fin 0
  | PInf, Fin y => if Rlt_dec y 0 then NInf else PInf
  | NInf, Fin y => if Rlt_dec y 0 then PInf else NInf
  | (PInf | NInf), (PInf | NInf) => NaN
  end.

(** [a < b] of C: false as soon as an operand is NaN. *)
Definition dlt (a b : double) : bool :=
  match a, b with
  | NaN, _ | _, NaN => false
  | Fin x, Fin y => if Rlt_dec x y then true else false
  | NInf, (Fin _ | PInf) => true
  | Fin _, PInf => true
  | _, _ => false
  end.

Definition dgt (a b : double) : bool := dlt b a.

Notation "a + b" := (dadd a b) : double_scope.
Notation "a - b" := (dsub a b) : double_scope.
Notation "a * b" := (dmul a b) : double_scope.
Notation "a / b" := (ddiv a b) : double_scope.
Notation "- a" := (dneg a) : double_scope.
Notation "a <? b" := (dlt a b) : double_scope.
Notation "a >? b" := (dgt a b) : double_scope.

(** An integer constant of the program, converted to [double]. *)
Definition dint (z : Z) : double := Fin (IZR z).

Definition M_PI : double := Fin PI.

(** Rounding of a real towards zero. *)
Definition Rtrunc (x : R) : Z :=
  if Rle_dec 0 x then Zfloor x else Zceil x.

Module Libm.

Definition isnan (a : double) : bool :=
  match a with NaN => true | _ => false end.

Definition fabs (a : double) : double :=
  match a with
  | Fin x => Fin (Rabs x)
  | PInf | NInf => PInf
  | NaN => NaN
  end.

Definition sqrt (a : double) : double :=
  match a with
  | Fin x => if Rlt_dec x 0 then NaN else Fin (R_sqrt.sqrt x)
  | PInf => PInf
  | NInf | NaN => NaN
  end.

(** C99 F.9.4.3: [hypot(+-inf, y)] is [+inf] even when [y] is NaN. *)
Definition hypot (a b : double) : double :=
  match a, b with
  | (PInf | NInf), _ | _, (PInf | NInf) => PInf
  | NaN, _ | _, NaN => NaN
  | Fin x, Fin y => Fin (R_sqrt.sqrt (x * x + y * y))
  end.

Definition atan (a : double) : double :=
  match a with
  | Fin x => Fin (Ratan.atan x)
  | PInf => Fin (PI / 2)
  | NInf => Fin (- (PI / 2))
  | NaN => NaN
  end.

Definition trunc (a : double) : double :=
  match a with
  | Fin x => Fin (IZR (Rtrunc x))
  | _ => a
  end.

End Libm.

(** Conversion of a [double] to an integer type, as in [int_value =
    trunc(value)] and [gc.spindle_speed = value]: the fractional part is
    discarded.  C leaves the conversion undefined when the value is not
    finite or does not fit the integer type; the embedding keeps the
    integer unbounded and gives [0] for a value that is not finite. *)
Definition double_to_int (a : double) : Z :=
  match a with
  | Fin x => Rtrunc x
  | _ => 0%Z
  end.

(* ================================================================== *)
(** ** Zero-terminated text lines                                      *)
(* ================================================================== *)

Definition NUL : ascii := Ascii.zero.

(** [textline[i]]: the terminating zero is read at and after the end. *)
Definition char_at (textline : string) (i : nat) : ascii :=
  match String.get i textline with
  | Some c => c
  | None => NUL
  end.

(** [textline + i], the text a [char *] at offset [i] points to. *)
Fixpoint text_from (textline : string) (i : nat) : string :=
  match i, textline with
  | O, _ => textline
  | S i', String _ rest => text_from rest i'
  | S _, EmptyString => EmptyString
  end.

Definition is_char (c d : ascii) : bool := Ascii.eqb c d.

(** [(c < 'A') || (c > 'Z')], whatever the signedness of [char]. *)
Definition not_upper (c : ascii) : bool :=
  let n := nat_of_ascii c in
  (n <? 65)%nat || (90 <? n)%nat.

(* ================================================================== *)
(** ** Constants of the headers that [gcode.c] includes                *)
(* ================================================================== *)

(** Modelled from the spec: the status codes of [gcode.h], which is not
    part of the sources at hand.  The spec names [Ok] and four error
    kinds; the code tests [if (gc.status_code)], so [GCSTATUS_OK] is the
    code zero and the others are not. *)
Inductive status_code_t : Type :=
| GCSTATUS_OK
| GCSTATUS_BAD_NUMBER_FORMAT
| GCSTATUS_EXPECTED_COMMAND_LETTER
| GCSTATUS_UNSUPPORTED_STATEMENT
| GCSTATUS_FLOATING_POINT_ERROR.

Definition nonzero (s : status_code_t) : bool :=
  match s with GCSTATUS_OK => false | _ => true end.

(** Modelled from the spec: the axis indices [X_AXIS], [Y_AXIS], [Z_AXIS]
    of [nuts_bolts.h] (0, 1 and 2: [target[letter - 'X']] and
    [offset[letter - 'I']] index the same vectors). *)
Inductive axis : Type := X_AXIS | Y_AXIS | Z_AXIS.

(** Modelled from the spec: [INCHES_PER_MM] of the missing headers, the
    "fixed inches-to-millimeters factor", 25.4. *)
Definition INCHES_PER_MM : double := Fin (254 / 10).

(** [double v[3]]. *)
Record vector : Type := mkvec { v0 : double; v1 : double; v2 : double }.

Definition vget (v : vector) (a : axis) : double :=
  match a with X_AXIS => v0 v | Y_AXIS => v1 v | Z_AXIS => v2 v end.

Definition vset (v : vector) (a : axis) (x : double) : vector :=
  match a with
  | X_AXIS => mkvec x (v1 v) (v2 v)
  | Y_AXIS => mkvec (v0 v) x (v2 v)
  | Z_AXIS => mkvec (v0 v) (v1 v) x
  end.

(** Modelled from the spec: the macro [clear_vector] of [nuts_bolts.h]:
    "all three components set to zero". *)
Definition clear_vector : vector := mkvec (Fin 0) (Fin 0) (Fin 0).

Inductive next_action_t : Type :=
| NEXT_ACTION_DEFAULT
| NEXT_ACTION_DWELL
| NEXT_ACTION_GO_HOME.

Inductive motion_mode_t : Type :=
| MOTION_MODE_RAPID_LINEAR
| MOTION_MODE_LINEAR
| MOTION_MODE_CW_ARC
| MOTION_MODE_CCW_ARC
| MOTION_MODE_CANCEL.

Inductive program_flow_t : Type :=
| PROGRAM_FLOW_RUNNING
| PROGRAM_FLOW_PAUSED
| PROGRAM_FLOW_COMPLETED.

(* ================================================================== *)
(** ** [struct ParserState]                                            *)
(* ================================================================== *)

Record ParserState : Type := mkParserState {
  status_code : status_code_t;
  motion_mode : motion_mode_t;
  inverse_feed_rate_mode : bool;
  inches_mode : bool;
  absolute_mode : bool;
  program_flow : program_flow_t;
  spindle_direction : Z;
  feed_rate : double;
  seek_rate : double;
  position : vector;
  tool : Z;
  spindle_speed : Z;
  plane_axis_0 : axis;
  plane_axis_1 : axis;
  plane_axis_2 : axis
}.

Definition set_status_code (s : status_code_t) (gc : ParserState) :=
  mkParserState s (motion_mode gc) (inverse_feed_rate_mode gc)
    (inches_mode gc) (absolute_mode gc) (program_flow gc)
    (spindle_direction gc) (feed_rate gc) (seek_rate gc) (position gc)
    (tool gc) (spindle_speed gc)
    (plane_axis_0 gc) (plane_axis_1 gc) (plane_axis_2 gc).

Definition set_motion_mode (m : motion_mode_t) (gc : ParserState) :=
  mkParserState (status_code gc) m (inverse_feed_rate_mode gc)
    (inches_mode gc) (absolute_mode gc) (program_flow gc)
    (spindle_direction gc) (feed_rate gc) (seek_rate gc) (position gc)
    (tool gc) (spindle_speed gc)
    (plane_axis_0 gc) (plane_axis_1 gc) (plane_axis_2 gc).

Definition set_inverse_feed_rate_mode (b : bool) (gc : ParserState) :=
  mkParserState (status_code gc) (motion_mode gc) b
    (inches_mode gc) (absolute_mode gc) (program_flow gc)
    (spindle_direction gc) (feed_rate gc) (seek_rate gc) (position gc)
    (tool gc) (spindle_speed gc)
    (plane_axis_0 gc) (plane_axis_1 gc) (plane_axis_2 gc).

Definition set_inches_mode (b : bool) (gc : ParserState) :=
  mkParserState (status_code gc) (motion_mode gc) (inverse_feed_rate_mode gc)
    b (absolute_mode gc) (program_flow gc)
    (spindle_direction gc) (feed_rate gc) (seek_rate gc) (position gc)
    (tool gc) (spindle_speed gc)
    (plane_axis_0 gc) (plane_axis_1 gc) (plane_axis_2 gc).

Definition set_absolute_mode (b : bool) (gc : ParserState) :=
  mkParserState (status_code gc) (motion_mode gc) (inverse_feed_rate_mode gc)
    (inches_mode gc) b (program_flow gc)
    (spindle_direction gc) (feed_rate gc) (seek_rate gc) (position gc)
    (tool gc) (spindle_speed gc)
    (plane_axis_0 gc) (plane_axis_1 gc) (plane_axis_2 gc).

Definition set_program_flow (f : program_flow_t) (gc : ParserState) :=
  mkParserState (status_code gc) (motion_mode gc) (inverse_feed_rate_mode gc)
    (inches_mode gc) (absolute_mode gc) f
    (spindle_direction gc) (feed_rate gc) (seek_rate gc) (position gc)
    (tool gc) (spindle_speed gc)
    (plane_axis_0 gc) (plane_axis_1 gc) (plane_axis_2 gc).

Definition set_spindle_direction (d : Z) (gc : ParserState) :=
  mkParserState (status_code gc) (motion_mode gc) (inverse_feed_rate_mode gc)
    (inches_mode gc) (absolute_mode gc) (program_flow gc)
    d (feed_rate gc) (seek_rate gc) (position gc)
    (tool gc) (spindle_speed gc)
    (plane_axis_0 gc) (plane_axis_1 gc) (plane_axis_2 gc).

Definition set_feed_rate (f : double) (gc : ParserState) :=
  mkParserState (status_code gc) (motion_mode gc) (inverse_feed_rate_mode gc)
    (inches_mode gc) (absolute_mode gc) (program_flow gc)
    (spindle_direction gc) f (seek_rate gc) (position gc)
    (tool gc) (spindle_speed gc)
    (plane_axis_0 gc) (plane_axis_1 gc) (plane_axis_2 gc).

Definition set_position (p : vector) (gc : ParserState) :=
  mkParserState (status_code gc) (motion_mode gc) (inverse_feed_rate_mode gc)
    (inches_mode gc) (absolute_mode gc) (program_flow gc)
    (spindle_direction gc) (feed_rate gc) (seek_rate gc) p
    (tool gc) (spindle_speed gc)
    (plane_axis_0 gc) (plane_axis_1 gc) (plane_axis_2 gc).

Definition set_tool (t : Z) (gc : ParserState) :=
  mkParserState (status_code gc) (motion_mode gc) (inverse_feed_rate_mode gc)
    (inches_mode gc) (absolute_mode gc) (program_flow gc)
    (spindle_direction gc) (feed_rate gc) (seek_rate gc) (position gc)
    t (spindle_speed gc)
    (plane_axis_0 gc) (plane_axis_1 gc) (plane_axis_2 gc).

Definition set_spindle_speed (s : Z) (gc : ParserState) :=
  mkParserState (status_code gc) (motion_mode gc) (inverse_feed_rate_mode gc)
    (inches_mode gc) (absolute_mode gc) (program_flow gc)
    (spindle_direction gc) (feed_rate gc) (seek_rate gc) (position gc)
    (tool gc) s
    (plane_axis_0 gc) (plane_axis_1 gc) (plane_axis_2 gc).

(** [#define FAIL(status) gc.status_code = status;] *)
Definition FAIL (status : status_code_t) (gc : ParserState) : ParserState :=
  set_status_code status gc.

(** [select_plane(axis_0, axis_1, axis_2)] *)
Definition select_plane (axis_0 axis_1 axis_2 : axis) (gc : ParserState) :=
  mkParserState (status_code gc) (motion_mode gc) (inverse_feed_rate_mode gc)
    (inches_mode gc) (absolute_mode gc) (program_flow gc)
    (spindle_direction gc) (feed_rate gc) (seek_rate gc) (position gc)
    (tool gc) (spindle_speed gc) axis_0 axis_1 axis_2.

(** [gc_init()]: [memset(&gc, 0, sizeof(gc))], the two rates from the
    settings, the XY plane and absolute mode. *)
Definition gc_init (default_feed_rate default_seek_rate : double) : ParserState :=
  let gc :=
    mkParserState GCSTATUS_OK MOTION_MODE_RAPID_LINEAR false false false
      PROGRAM_FLOW_RUNNING 0%Z
      (default_feed_rate / dint 60)%D (default_seek_rate / dint 60)%D
      clear_vector 0%Z 0%Z X_AXIS X_AXIS X_AXIS in
  set_absolute_mode true (select_plane X_AXIS Y_AXIS Z_AXIS gc).

(** [to_millimeters(value)] *)
Definition to_millimeters (gc : ParserState) (value : double) : double :=
  if inches_mode gc then (value * INCHES_PER_MM)%D else value.

(** [theta(x, y)]: the angle of deviance from the positive y axis. *)
Definition theta (x y : double) : double :=
  let theta := Libm.atan (x / Libm.fabs y)%D in
  if (y >? Fin 0)%D then theta
  else if (theta >? Fin 0)%D then (M_PI - theta)%D
  else (- M_PI - theta)%D.

(* ================================================================== *)
(** ** Collaborators and the local variables of [gc_execute_line]      *)
(* ================================================================== *)

(** One call into a collaborator: settings ([dump_settings],
    [store_setting]), spindle control and motion control. *)
Inductive event : Type :=
| dump_settings
| store_setting (parameter value : double)
| spindle_run (direction speed : Z)
| spindle_stop
| mc_go_home
| mc_dwell (milliseconds : double)
| mc_line (x y z rate : double) (invert_feed_rate : bool)
| mc_arc (theta_start angular_travel radius depth : double)
         (axis_0 axis_1 axis_2 : axis)
         (rate : double) (invert_feed_rate : bool).

(** The value returned, the global [gc] on return and the collaborator
    calls made, in order. *)
Definition result : Type := (status_code_t * ParserState * list event)%type.

(** The local variables of [gc_execute_line] that live across
    statements ([letter], [value], [int_value], [unit_converted_value]
    and [counter] are passed as arguments). *)
Record locals : Type := mklocals {
  inverse_feed_rate : double;
  radius_mode : bool;
  absolute_override : bool;
  next_action : next_action_t;
  target : vector;
  offset : vector;
  p : double;
  r : double
}.

Definition set_inverse_feed_rate (x : double) (lv : locals) :=
  mklocals x (radius_mode lv) (absolute_override lv) (next_action lv)
    (target lv) (offset lv) (p lv) (r lv).

Definition set_absolute_override (b : bool) (lv : locals) :=
  mklocals (inverse_feed_rate lv) (radius_mode lv) b (next_action lv)
    (target lv) (offset lv) (p lv) (r lv).

Definition set_next_action (a : next_action_t) (lv : locals) :=
  mklocals (inverse_feed_rate lv) (radius_mode lv) (absolute_override lv) a
    (target lv) (offset lv) (p lv) (r lv).

Definition set_target (v : vector) (lv : locals) :=
  mklocals (inverse_feed_rate lv) (radius_mode lv) (absolute_override lv)
    (next_action lv) v (offset lv) (p lv) (r lv).

Definition set_offset (v : vector) (lv : locals) :=
  mklocals (inverse_feed_rate lv) (radius_mode lv) (absolute_override lv)
    (next_action lv) (target lv) v (p lv) (r lv).

Definition set_p (x : double) (lv : locals) :=
  mklocals (inverse_feed_rate lv) (radius_mode lv) (absolute_override lv)
    (next_action lv) (target lv) (offset lv) x (r lv).

(** [r = unit_converted_value; radius_mode = TRUE;] *)
Definition set_r (x : double) (lv : locals) :=
  mklocals (inverse_feed_rate lv) true (absolute_override lv)
    (next_action lv) (target lv) (offset lv) (p lv) x.

(** The declarations at the head of [gc_execute_line]. *)
Definition locals_init : locals :=
  mklocals (Fin (-1)) false false NEXT_ACTION_DEFAULT
    clear_vector clear_vector (Fin 0) (Fin 0).

(* ================================================================== *)
(** ** The interpreter, over the library's [strtod]                    *)
(* ================================================================== *)

Section Interpreter.

(** [strtod s] gives the value converted and the number of characters
    of [s] that [endptr] has advanced over; none means no conversion. *)
Variable strtod : string -> double * nat.

(** [read_double(textline, &counter, &double_ptr)]: the value returned
    (0 or 1), [*counter], [*double_ptr] and [gc]. *)
Definition read_double (textline : string) (counter : nat)
    (gc : ParserState) : bool * nat * double * ParserState :=
  let '(value, len) := strtod (text_from textline counter) in
  if Nat.eqb len 0
  then (false, counter, value, FAIL GCSTATUS_BAD_NUMBER_FORMAT gc)
  else (true, (counter + len)%nat, value, gc).

(** [next_statement(&letter, &value, textline, &counter)]: [Some]
    of letter, value and counter when it returns 1; [None] when it
    returns 0 (what it leaves in the three is not read again). *)
Definition next_statement (textline : string) (counter : nat)
    (gc : ParserState) : option (ascii * double * nat) * ParserState :=
  if is_char (char_at textline counter) NUL then (None, gc)
  else
    let letter := char_at textline counter in
    if not_upper letter
    then (None, FAIL GCSTATUS_EXPECTED_COMMAND_LETTER gc)
    else
      let counter := S counter in
      let '(ok, counter, value, gc) := read_double textline counter gc in
      if ok then (Some (letter, value, counter), gc) else (None, gc).

(** The body of the loop of pass 1: the [switch(letter)]. *)
Definition pass1_statement (letter : ascii) (value : double)
    (gc : ParserState) (lv : locals) : ParserState * locals :=
  let int_value := double_to_int (Libm.trunc value) in
  match letter with
  | "G"%char =>
      match int_value with
      | 0%Z => (set_motion_mode MOTION_MODE_RAPID_LINEAR gc, lv)
      | 1%Z => (set_motion_mode MOTION_MODE_LINEAR gc, lv)
      | 2%Z => (set_motion_mode MOTION_MODE_CW_ARC gc, lv)
      | 3%Z => (set_motion_mode MOTION_MODE_CCW_ARC gc, lv)
      | 4%Z => (gc, set_next_action NEXT_ACTION_DWELL lv)
      | 17%Z => (select_plane X_AXIS Y_AXIS Z_AXIS gc, lv)
      | 18%Z => (select_plane X_AXIS Z_AXIS Y_AXIS gc, lv)
      | 19%Z => (select_plane Y_AXIS Z_AXIS X_AXIS gc, lv)
      | 20%Z => (set_inches_mode true gc, lv)
      | 21%Z => (set_inches_mode false gc, lv)
      | 28%Z | 30%Z => (gc, set_next_action NEXT_ACTION_GO_HOME lv)
      | 53%Z => (gc, set_absolute_override true lv)
      | 80%Z => (set_motion_mode MOTION_MODE_CANCEL gc, lv)
      | 90%Z => (set_absolute_mode true gc, lv)
      | 91%Z => (set_absolute_mode false gc, lv)
      | 93%Z => (set_inverse_feed_rate_mode true gc, lv)
      | 94%Z => (set_inverse_feed_rate_mode false gc, lv)
      | _ => (FAIL GCSTATUS_UNSUPPORTED_STATEMENT gc, lv)
      end
  | "M"%char =>
      match int_value with
      | 0%Z | 1%Z => (set_program_flow PROGRAM_FLOW_PAUSED gc, lv)
      | 2%Z | 30%Z | 60%Z => (set_program_flow PROGRAM_FLOW_COMPLETED gc, lv)
      | 3%Z => (set_spindle_direction 1 gc, lv)
      | 4%Z => (set_spindle_direction (-1) gc, lv)
      | 5%Z => (set_spindle_direction 0 gc, lv)
      | _ => (FAIL GCSTATUS_UNSUPPORTED_STATEMENT gc, lv)
      end
  | "T"%char => (set_tool (double_to_int (Libm.trunc value)) gc, lv)
  | _ => (gc, lv)
  end.

(** Pass 1, [while(next_statement(...)) { ...; if(gc.status_code)
    break; }].  Every statement takes at least two characters, so a
    line of [n] characters has fewer than [n + 1] of them: that is the
    fuel [gc_execute_line] gives ([pass1_fuel] below shows that more
    changes nothing). *)
Fixpoint pass1 (fuel : nat) (textline : string) (counter : nat)
    (gc : ParserState) (lv : locals) : ParserState * locals :=
  match fuel with
  | O => (gc, lv)
  | S fuel' =>
      match next_statement textline counter gc with
      | (None, gc) => (gc, lv)
      | (Some (letter, value, counter), gc) =>
          let '(gc, lv) := pass1_statement letter value gc lv in
          if nonzero (status_code gc) then (gc, lv)
          else pass1 fuel' textline counter gc lv
      end
  end.

(** The body of the loop of pass 2. *)
Definition pass2_statement (letter : ascii) (value : double)
    (gc : ParserState) (lv : locals) : ParserState * locals :=
  let unit_converted_value := to_millimeters gc value in
  let move (a : axis) :=
    if absolute_mode gc || absolute_override lv
    then set_target (vset (target lv) a unit_converted_value) lv
    else set_target
           (vset (target lv) a (vget (target lv) a + unit_converted_value)%D)
           lv in
  match letter with
  | "F"%char =>
      if inverse_feed_rate_mode gc
      then (gc, set_inverse_feed_rate unit_converted_value lv)
      else (set_feed_rate (unit_converted_value / dint 60)%D gc, lv)
  | "I"%char => (gc, set_offset (vset (offset lv) X_AXIS unit_converted_value) lv)
  | "J"%char => (gc, set_offset (vset (offset lv) Y_AXIS unit_converted_value) lv)
  | "K"%char => (gc, set_offset (vset (offset lv) Z_AXIS unit_converted_value) lv)
  | "P"%char => (gc, set_p value lv)
  | "R"%char => (gc, set_r unit_converted_value lv)
  | "S"%char => (set_spindle_speed (double_to_int value) gc, lv)
  | "X"%char => (gc, move X_AXIS)
  | "Y"%char => (gc, move Y_AXIS)
  | "Z"%char => (gc, move Z_AXIS)
  | _ => (gc, lv)
  end.

(** Pass 2, [while(next_statement(...)) { ... }]. *)
Fixpoint pass2 (fuel : nat) (textline : string) (counter : nat)
    (gc : ParserState) (lv : locals) : ParserState * locals :=
  match fuel with
  | O => (gc, lv)
  | S fuel' =>
      match next_statement textline counter gc with
      | (None, gc) => (gc, lv)
      | (Some (letter, value, counter), gc) =>
          let '(gc, lv) := pass2_statement letter value gc lv in
          pass2 fuel' textline counter gc lv
      end
  end.

(** What the code up to the second error check hands on: it has
    returned, or it goes on to the physical actions. *)
Inductive parsed : Type :=
| Return (res : result)
| Continue (gc : ParserState) (lv : locals) (events : list event).

(** The block [if (textline[0] == '$') { ... }]: it has returned, or
    control leaves it with this [gc], [p], [counter] and these calls. *)
Definition settings_line (textline : string) (counter : nat)
    (gc : ParserState) (lv : locals)
    : result + (ParserState * locals * nat * list event) :=
  if is_char (char_at textline 0) "$" then
    let counter := 1%nat in
    if is_char (char_at textline counter) NUL
    then inl (GCSTATUS_OK, gc, [dump_settings])
    else
      let '(_, counter, p, gc) := read_double textline counter gc in
      if negb (is_char (char_at textline counter) "=")
      then inl (GCSTATUS_UNSUPPORTED_STATEMENT, gc, [])
      else
        let counter := S counter in
        let '(_, counter, value, gc) := read_double textline counter gc in
        if negb (is_char (char_at textline counter) NUL)
        then inl (GCSTATUS_UNSUPPORTED_STATEMENT, gc, [])
        else inr (gc, set_p p lv, counter, [store_setting p value])
  else inr (gc, lv, counter, []).

(** [gc_execute_line], from its head to the second "return right away
    with the bad news". *)
Definition parse_line (textline : string) (gc : ParserState) : parsed :=
  let fuel := S (String.length textline) in
  let counter := 0%nat in
  let lv := locals_init in
  let gc := set_status_code GCSTATUS_OK gc in
  if is_char (char_at textline 0) "("
  then Return (status_code gc, gc, [])
  else
    let counter :=
      if is_char (char_at textline 0) "/" then S counter else counter in
    match settings_line textline counter gc lv with
    | inl res => Return res
    | inr (gc, lv, counter, events) =>
        let '(gc, lv) := pass1 fuel textline counter gc lv in
        if nonzero (status_code gc)
        then Return (status_code gc, gc, events)
        else
          let counter := 0%nat in
          let lv := set_target (position gc) (set_offset clear_vector lv) in
          let '(gc, lv) := pass2 fuel textline counter gc lv in
          if nonzero (status_code gc)
          then Return (status_code gc, gc, events)
          else Continue gc lv events
    end.

End Interpreter.

(* ================================================================== *)
(** ** The physical actions                                            *)
(* ================================================================== *)

Definition is_ccw (m : motion_mode_t) : bool :=
  match m with MOTION_MODE_CCW_ARC => true | _ => false end.

(** [(gc.inverse_feed_rate_mode) ? inverse_feed_rate : gc.feed_rate] *)
Definition rate_of (gc : ParserState) (lv : locals) : double :=
  if inverse_feed_rate_mode gc then inverse_feed_rate lv else feed_rate gc.

(** The block [if (radius_mode) { ... }]: the offset vector it leaves,
    or [None] when it fails with [GCSTATUS_FLOATING_POINT_ERROR].  After
    [clear_vector(&offset)] the block writes the two components of the
    plane; the third is not read again. *)
Definition radius_to_offset (gc : ParserState) (lv : locals) : option vector :=
  let x := (vget (target lv) (plane_axis_0 gc)
            - vget (position gc) (plane_axis_0 gc))%D in
  let y := (vget (target lv) (plane_axis_1 gc)
            - vget (position gc) (plane_axis_1 gc))%D in
  let offset := clear_vector in
  let h_x2_div_d :=
    (- Libm.sqrt (dint 4 * r lv * r lv - x * x - y * y) / Libm.hypot x y)%D in
  if Libm.isnan h_x2_div_d then None
  else
    let h_x2_div_d :=
      if is_ccw (motion_mode gc) then (- h_x2_div_d)%D else h_x2_div_d in
    let h_x2_div_d :=
      if (r lv <? Fin 0)%D then (- h_x2_div_d)%D else h_x2_div_d in
    let offset :=
      vset offset (plane_axis_0 gc) ((x - (y * h_x2_div_d)) / dint 2)%D in
    let offset :=
      vset offset (plane_axis_1 gc) ((y + (x * h_x2_div_d)) / dint 2)%D in
    Some offset.

(** From [theta_start] and [theta_end] to [angular_travel]. *)
Definition angular_travel_of (m : motion_mode_t)
    (theta_start theta_end : double) : double :=
  let theta_end :=
    if (theta_end <? theta_start)%D then (theta_end + dint 2 * M_PI)%D
    else theta_end in
  let angular_travel := (theta_end - theta_start)%D in
  if is_ccw m then (angular_travel - dint 2 * M_PI)%D else angular_travel.

(** The two motion control calls that trace an arc around the centre
    [offset]. *)
Definition trace_arc (gc : ParserState) (lv : locals) (offset : vector)
    : list event :=
  let a0 := plane_axis_0 gc in
  let a1 := plane_axis_1 gc in
  let a2 := plane_axis_2 gc in
  let theta_start := theta (- vget offset a0)%D (- vget offset a1)%D in
  let theta_end :=
    theta (vget (target lv) a0 - vget offset a0 - vget (position gc) a0)%D
          (vget (target lv) a1 - vget offset a1 - vget (position gc) a1)%D in
  let angular_travel :=
    angular_travel_of (motion_mode gc) theta_start theta_end in
  let radius := Libm.hypot (vget offset a0) (vget offset a1) in
  let depth := (vget (target lv) a2 - vget (position gc) a2)%D in
  [ mc_arc theta_start angular_travel radius depth a0 a1 a2
      (rate_of gc lv) (inverse_feed_rate_mode gc);
    mc_line (vget (target lv) X_AXIS) (vget (target lv) Y_AXIS)
      (vget (target lv) Z_AXIS) (rate_of gc lv) (inverse_feed_rate_mode gc) ].

(** [memcpy(gc.position, target, ...); return(gc.status_code);] *)
Definition commit (gc : ParserState) (lv : locals) (events : list event)
    : result :=
  let gc := set_position (target lv) gc in
  (status_code gc, gc, events).

(** "Update spindle state": the call [if (gc.spindle_direction)] makes. *)
Definition spindle_event (gc : ParserState) : event :=
  if Z.eqb (spindle_direction gc) 0 then spindle_stop
  else spindle_run (spindle_direction gc) (spindle_speed gc).

(** [gc_execute_line] from "Update spindle state" to its end. *)
Definition dispatch (gc : ParserState) (lv : locals) (events : list event)
    : result :=
  let events := events ++ [spindle_event gc] in
  match next_action lv with
  | NEXT_ACTION_GO_HOME => commit gc lv (events ++ [mc_go_home])
  | NEXT_ACTION_DWELL =>
      commit gc lv (events ++ [mc_dwell (Libm.trunc (p lv * dint 1000)%D)])
  | NEXT_ACTION_DEFAULT =>
      match motion_mode gc with
      | MOTION_MODE_CANCEL => commit gc lv events
      | MOTION_MODE_RAPID_LINEAR | MOTION_MODE_LINEAR =>
          commit gc lv
            (events ++
             [ mc_line (vget (target lv) X_AXIS) (vget (target lv) Y_AXIS)
                 (vget (target lv) Z_AXIS) (rate_of gc lv)
                 (inverse_feed_rate_mode gc) ])
      | MOTION_MODE_CW_ARC | MOTION_MODE_CCW_ARC =>
          match (if radius_mode lv then radius_to_offset gc lv
                 else Some (offset lv)) with
          | None =>
              let gc := FAIL GCSTATUS_FLOATING_POINT_ERROR gc in
              (status_code gc, gc, events)
          | Some offset => commit gc lv (events ++ trace_arc gc lv offset)
          end
      end
  end.

(** [gc_execute_line(textline)] *)
Definition gc_execute_line (strtod : string -> double * nat)
    (textline : string) (gc : ParserState) : result :=
  match parse_line strtod textline gc with
  | Return res => res
  | Continue gc lv events => dispatch gc lv events
  end.

(* ================================================================== *)
(** ** A model of the library's [strtod]                               *)
(* ================================================================== *)

Definition isspace (c : ascii) : bool :=
  let n := nat_of_ascii c in
  (n =? 32)%nat || ((9 <=? n)%nat && (n <=? 13)%nat).

Definition isdigit (c : ascii) : bool :=
  let n := nat_of_ascii c in (48 <=? n)%nat && (n <=? 57)%nat.

Definition toupper (c : ascii) : ascii :=
  let n := nat_of_ascii c in
  if (97 <=? n)%nat && (n <=? 122)%nat then ascii_of_nat (n - 32) else c.

Fixpoint skip_spaces (s : string) : nat * string :=
  match s with
  | String c rest =>
      if isspace c then let '(n, s') := skip_spaces rest in (S n, s')
      else (O, s)
  | EmptyString => (O, s)
  end.

(** The digits at the head of [s], appended to the numeral [acc]: the
    numeral, how many were read, and the rest of the text. *)
Fixpoint read_digits (s : string) (acc : Z) : Z * nat * string :=
  match s with
  | String c rest =>
      if isdigit c then
        let '(z, n, s') :=
          read_digits rest (10 * acc + (Z.of_nat (nat_of_ascii c) - 48))%Z in
        (z, S n, s')
      else (acc, O, s)
  | EmptyString => (acc, O, s)
  end.

(** Is the upper-case [word] at the head of [s], in either case? *)
Fixpoint has_word (word s : string) : bool :=
  match word, s with
  | EmptyString, _ => true
  | String w word', String c s' => Ascii.eqb w (toupper c) && has_word word' s'
  | String _ _, EmptyString => false
  end.

(** The real [m * 10^e]. *)
Definition decimal (m e : Z) : R :=
  if (0 <=? e)%Z then IZR (m * 10 ^ e) else (IZR m / IZR (10 ^ (- e)))%R.

(** The sign, if any, at the head of [s]. *)
Definition read_sign (s : string) : bool * nat * string :=
  match s with
  | String "-"%char rest => (true, 1%nat, rest)
  | String "+"%char rest => (false, 1%nat, rest)
  | _ => (false, O, s)
  end.

(** The exponent part, if there is a complete one, at the head of [s]. *)
Definition read_exponent (s : string) : Z * nat :=
  match s with
  | String c rest =>
      if Ascii.eqb (toupper c) "E" then
        let '(neg, slen, rest) := read_sign rest in
        let '(e, n, _) := read_digits rest 0%Z in
        if Nat.eqb n 0 then (0%Z, O)
        else ((if neg then - e else e)%Z, (1 + slen + n)%nat)
      else (0%Z, O)
  | EmptyString => (0%Z, O)
  end.

(** [strtod] on the forms of C99 7.20.1.3 other than the hexadecimal
    one: white space, a sign, then [INF], [INFINITY], [NAN] or a decimal
    numeral with an optional fraction and exponent.  Without a
    conversion the value is zero and no character is consumed. *)
Definition strtod_c (s : string) : double * nat :=
  let '(nspace, s) := skip_spaces s in
  let '(neg, nsign, s) := read_sign s in
  if has_word "INFINITY" s then
    (if neg then NInf else PInf, (nspace + nsign + 8)%nat)
  else if has_word "INF" s then
    (if neg then NInf else PInf, (nspace + nsign + 3)%nat)
  else if has_word "NAN" s then (NaN, (nspace + nsign + 3)%nat)
  else
    let '(m, nint, s) := read_digits s 0%Z in
    let '(m, nfrac, ndot, s) :=
      match s with
      | String "."%char rest =>
          let '(m', n, s') := read_digits rest m in (m', n, 1%nat, s')
      | _ => (m, O, O, s)
      end in
    if Nat.eqb (nint + nfrac) 0 then (Fin 0, O)
    else
      let '(e, nexp) := read_exponent s in
      (Fin (decimal (if neg then - m else m) (e - Z.of_nat nfrac)),
       (nspace + nsign + nint + ndot + nfrac + nexp)%nat).

(* ================================================================== *)
(** ** The statements of a line                                        *)
(* ================================================================== *)

(** How a scan of the line stops: at the terminating zero, or with the
  status the tokenizer fails with. *)
Inductive scan_stop : Type :=
| end_of_line
| scan_error (status : status_code_t).

Definition stop_gc (e : scan_stop) (gc : ParserState) : ParserState :=
match e with
| end_of_line => gc
| scan_error status => FAIL status gc
end.

Section Statements.

Variable strtod : string -> double * nat.

(** One step of the tokenizer without the global state: the next
    statement and the cursor after it, or how the scan stops. *)
Definition scan (textline : string) (counter : nat)
    : (ascii * double * nat) + scan_stop :=
  let letter := char_at textline counter in
  if is_char letter NUL then inr end_of_line
  else if not_upper letter
  then inr (scan_error GCSTATUS_EXPECTED_COMMAND_LETTER)
  else
    let '(value, len) := strtod (text_from textline (S counter)) in
    if Nat.eqb len 0 then inr (scan_error GCSTATUS_BAD_NUMBER_FORMAT)
    else inl (letter, value, (S counter + len)%nat).

(** The statements from [counter] on, in order, and how the scan
    stops after the last of them. *)
Fixpoint statements (fuel : nat) (textline : string) (counter : nat)
    : list (ascii * double) * scan_stop :=
  match fuel with
  | O => ([], end_of_line)
  | S fuel' =>
      match scan textline counter with
      | inl (letter, value, counter') =>
          let '(ss, e) := statements fuel' textline counter' in
          ((letter, value) :: ss, e)
      | inr e => ([], e)
      end
  end.

(** The statements of a whole line that starts at [counter]. *)
Definition line_statements (textline : string) (counter : nat) :=
  statements (S (String.length textline)) textline counter.

(** Pass 1 over a list of statements. *)
Fixpoint pass1_list (ss : list (ascii * double)) (e : scan_stop)
    (gc : ParserState) (lv : locals) : ParserState * locals :=
  match ss with
  | [] => (stop_gc e gc, lv)
  | (letter, value) :: ss' =>
      let '(gc, lv) := pass1_statement letter value gc lv in
      if nonzero (status_code gc) then (gc, lv)
      else pass1_list ss' e gc lv
  end.

(** Pass 2 over a list of statements. *)
Fixpoint pass2_list (ss : list (ascii * double)) (e : scan_stop)
    (gc : ParserState) (lv : locals) : ParserState * locals :=
  match ss with
  | [] => (stop_gc e gc, lv)
  | (letter, value) :: ss' =>
      let '(gc, lv) := pass2_statement letter value gc lv in
      pass2_list ss' e gc lv
  end.

End Statements.

(* ================================================================== *)
(** ** Vocabulary of the properties                                    *)
(* ================================================================== *)

(** The calls that are physical actions of the motion executor and of
    the spindle actuator. *)
Definition is_motion (e : event) : bool :=
  match e with
  | mc_go_home | mc_dwell _ | mc_line _ _ _ _ _
  | mc_arc _ _ _ _ _ _ _ _ _ => true
  | _ => false
  end.

Definition is_spindle (e : event) : bool :=
  match e with
  | spindle_run _ _ | spindle_stop => true
  | _ => false
  end.

(** The four errors a line can be rejected with. *)
Definition is_error (s : status_code_t) : Prop :=
  s = GCSTATUS_EXPECTED_COMMAND_LETTER \/ s = GCSTATUS_BAD_NUMBER_FORMAT \/
  s = GCSTATUS_UNSUPPORTED_STATEMENT \/ s = GCSTATUS_FLOATING_POINT_ERROR.

(** The codes pass 1 has a case for. *)
Definition G_codes : list Z :=
  [0; 1; 2; 3; 4; 17; 18; 19; 20; 21; 28; 30; 53; 80; 90; 91; 93; 94]%Z.

Definition M_codes : list Z := [0; 1; 2; 30; 60; 3; 4; 5]%Z.

Definition int_value_of (value : double) : Z :=
  double_to_int (Libm.trunc value).

(** A G or M statement whose code is none of the recognised ones. *)
Definition unsupported (s : ascii * double) : bool :=
  let '(letter, value) := s in
  (Ascii.eqb letter "G" && negb (existsb (Z.eqb (int_value_of value)) G_codes))
  || (Ascii.eqb letter "M"
      && negb (existsb (Z.eqb (int_value_of value)) M_codes)).

(** The changes pass 1 makes for a list of statements, one after the
    other. *)
Fixpoint pass1_effects (ss : list (ascii * double))
    (gc : ParserState) (lv : locals) : ParserState * locals :=
  match ss with
  | [] => (gc, lv)
  | (letter, value) :: ss' =>
      let '(gc, lv) := pass1_statement letter value gc lv in
      pass1_effects ss' gc lv
  end.

(** Where pass 1 starts: after the block delete character, if any. *)
Definition pass1_start (textline : string) : nat :=
  if is_char (char_at textline 0) "/" then 1%nat else 0%nat.

(** The three components of a [result]. *)
Definition returned (res : result) : status_code_t := fst (fst res).
Definition state_after (res : result) : ParserState := snd (fst res).
Definition calls (res : result) : list event := snd res.

(** The state a fresh machine starts from, with default rates of 300 and
    600 units per minute. *)
Definition gc_start : ParserState := gc_init (dint 300) (dint 600).

(** No call is a physical action. *)
Definition no_physical_action (ev : list event) : Prop :=
  Forall (fun e => is_motion e = false /\ is_spindle e = false) ev.


(** The displacement from the current position to the target along the
    two axes of the plane and along the third, as the arc code computes
    them. *)
Definition plane_x (gc : ParserState) (lv : locals) : double :=
  (vget (target lv) (plane_axis_0 gc) - vget (position gc) (plane_axis_0 gc))%D.

Definition plane_y (gc : ParserState) (lv : locals) : double :=
  (vget (target lv) (plane_axis_1 gc) - vget (position gc) (plane_axis_1 gc))%D.


(** The line is an arc given by its radius: both passes succeed and
    leave [gc1] and the locals [lv], with an arc motion mode, no dwell or
    homing, and an R word. *)
Definition radius_arc (strtod : string -> double * nat) (textline : string)
    (gc gc1 : ParserState) (lv : locals) : Prop :=
  parse_line strtod textline gc = Continue gc1 lv [] /\
  next_action lv = NEXT_ACTION_DEFAULT /\
  (motion_mode gc1 = MOTION_MODE_CW_ARC \/
   motion_mode gc1 = MOTION_MODE_CCW_ARC) /\
  radius_mode lv = true.

(** The two axes of the plane of the arcs differ. *)
Definition plane_distinct (gc : ParserState) : Prop :=
  plane_axis_0 gc <> plane_axis_1 gc.






(** The letter of the word that moves along an axis. *)
Definition axis_letter (a : axis) : ascii :=
  match a with
  | X_AXIS => "X"%char
  | Y_AXIS => "Y"%char
  | Z_AXIS => "Z"%char
  end.

(** The values of the words of a line for one axis, in order. *)
Definition word_values (a : axis) (ss : list (ascii * double)) : list double :=
  map snd (filter (fun s => Ascii.eqb (fst s) (axis_letter a)) ss).

Definition is_G (code : Z) (s : ascii * double) : bool :=
  Ascii.eqb (fst s) "G" && Z.eqb (int_value_of (snd s)) code.

Definition is_axis_word (s : ascii * double) : bool :=
  Ascii.eqb (fst s) "X" || Ascii.eqb (fst s) "Y" || Ascii.eqb (fst s) "Z".

(** A statement of a line of straight moves: G0, G1, the absolute
    override G53, or a word for an axis. *)
Definition linear_move_statement (s : ascii * double) : bool :=
  is_G 0 s || is_G 1 s || is_G 53 s || is_axis_word s.

(** The target of a line of straight moves along one axis: the position
    before the call where the line has no word for the axis; else the
    converted value of the word, alone in absolute mode or under G53,
    added to the position in relative mode. *)
Definition resolved (gc : ParserState) (ss : list (ascii * double))
    (a : axis) : double :=
  match word_values a ss with
  | [] => vget (position gc) a
  | value :: _ =>
      if absolute_mode gc || existsb (is_G 53) ss
      then to_millimeters gc value
      else (vget (position gc) a + to_millimeters gc value)%D
  end.

(** The spec's conversion of a radius to the offsets of the centre:
    [h_x2_div_d = -sqrt(4 r^2 - x^2 - y^2) / hypot(x, y)], negated for a
    counterclockwise arc, negated again for a negative radius; then
    [offset_0 = (x - y h)/2] and [offset_1 = (y + x h)/2]. *)
Definition h_x2_div_d_spec (ccw : bool) (r x y : double) : double :=
  let h :=
    (- Libm.sqrt (dint 4 * (r * r) - x * x - y * y) / Libm.hypot x y)%D in
  let h := if ccw then (- h)%D else h in
  if (r <? Fin 0)%D then (- h)%D else h.

Definition offset_0_spec (x y h : double) : double :=
  ((x - y * h) / dint 2)%D.

Definition offset_1_spec (x y h : double) : double :=
  ((y + x * h) / dint 2)%D.

(** Not below zero, not above zero: false of NaN. *)
Definition nonnegative (d : double) : Prop :=
  match d with
  | Fin a => (0 <= a)%R
  | PInf => True
  | NInf | NaN => False
  end.

Definition nonpositive (d : double) : Prop :=
  match d with
  | Fin a => (a <= 0)%R
  | NInf => True
  | PInf | NaN => False
  end.

(** "The sign of the angular travel encodes the direction", for the arc
    calls of one line from one state. *)
Definition travel_sign_rule (strtod : string -> double * nat)
    (textline : string) (gc : ParserState) : Prop :=
  let res := gc_execute_line strtod textline gc in
  forall ts travel rad dep a0 a1 a2 rate inv,
    In (mc_arc ts travel rad dep a0 a1 a2 rate inv) (calls res) ->
    (motion_mode (state_after res) = MOTION_MODE_CW_ARC -> nonnegative travel)
    /\ (motion_mode (state_after res) = MOTION_MODE_CCW_ARC ->
        nonpositive travel).

(** The angular travel between two angles of [[-PI, PI)]: from zero up
    to a full turn for a clockwise arc, from a full turn back up to zero
    for a counterclockwise one. *)
Definition travel_in_range (m : motion_mode_t) (a : R) : Prop :=
  if is_ccw m then (- (2 * PI) <= a < 0)%R else (0 <= a < 2 * PI)%R.

(** The status after a pass is [GCSTATUS_OK] or one of the three parse
    errors. *)
Definition parse_status (s : status_code_t) : Prop :=
  s = GCSTATUS_OK \/ s = GCSTATUS_EXPECTED_COMMAND_LETTER \/
  s = GCSTATUS_BAD_NUMBER_FORMAT \/ s = GCSTATUS_UNSUPPORTED_STATEMENT.


(** What pass 1 keeps of the state on a line of straight moves. *)
Definition same_modes (gc gc' : ParserState) : Prop :=
  status_code gc' = status_code gc /\ position gc' = position gc /\
  inches_mode gc' = inches_mode gc /\ absolute_mode gc' = absolute_mode gc.

(** The target after pass 2 over the statements [ss], from the target
    [t]: each word for an axis replaces or moves its component. *)
Fixpoint moved (absolute : bool) (gc : ParserState)
    (ss : list (ascii * double)) (t : vector) : vector :=
  match ss with
  | [] => t
  | (letter, value) :: ss' =>
      let step (a : axis) :=
        vset t a (if absolute then to_millimeters gc value
                  else (vget t a + to_millimeters gc value)%D) in
      moved absolute gc ss'
        (if Ascii.eqb letter "X" then step X_AXIS
         else if Ascii.eqb letter "Y" then step Y_AXIS
         else if Ascii.eqb letter "Z" then step Z_AXIS
         else t)
  end.

(* ================================================================== *)
(** ** States and locals of the examples                               *)
(* ================================================================== *)

(** The state and the locals after the two passes over [G2X10Y0R5],
    [G2X10Y0R-5] and [G2X10Y0R1] from [gc_start]. *)
Definition arc_state : ParserState :=
  set_motion_mode MOTION_MODE_CW_ARC gc_start.

Definition arc_locals (radius : double) : locals :=
  mklocals (Fin (-1)) true false NEXT_ACTION_DEFAULT
    (mkvec (Fin 10) (Fin 0) (Fin 0)) clear_vector (Fin 0) radius.

(** The locals after the two passes over [G2X10Y0] and over
    [G2X10Y0I5J0] from [gc_start]. *)
Definition centre_locals (i : double) : locals :=
  mklocals (Fin (-1)) false false NEXT_ACTION_DEFAULT
    (mkvec (Fin 10) (Fin 0) (Fin 0)) (mkvec i (Fin 0) (Fin 0)) (Fin 0) (Fin 0).

(** A state in relative mode, away from the origin. *)
Definition relative_state : ParserState :=
  set_absolute_mode false (set_position (mkvec (Fin 1) (Fin 2) (Fin 3)) gc_start).

(* ================================================================== *)
(** ** Vocabulary of the further properties                            *)
(* ================================================================== *)

(** The character [c] stands somewhere in the text. *)
Fixpoint occurs (c : ascii) (s : string) : bool :=
  match s with
  | EmptyString => false
  | String d s' => Ascii.eqb d c || occurs c s'
  end.

(** The line starts with none of the three characters the head of
    [gc_execute_line] looks for. *)
Definition plain (textline : string) : bool :=
  negb (is_char (char_at textline 0) "("
        || is_char (char_at textline 0) "/"
        || is_char (char_at textline 0) "$").

(** The letters pass 1 has a case for, and those pass 2 has a case
    for. *)
Definition is_command (s : ascii * double) : bool :=
  existsb (Ascii.eqb (fst s)) ["G"; "M"; "T"]%char.

Definition is_parameter (s : ascii * double) : bool :=
  existsb (Ascii.eqb (fst s))
    ["F"; "I"; "J"; "K"; "P"; "R"; "S"; "X"; "Y"; "Z"]%char.

(** The interpreter over the statements of a line and the way their
    scan stops: pass 1 over the list, the first error check, pass 2 over
    the list from the target and offset it starts from, the second error
    check, then the physical actions. *)
Definition run_statements (ss : list (ascii * double)) (e : scan_stop)
    (gc : ParserState) : result :=
  let '(gc1, lv1) :=
    pass1_list ss e (set_status_code GCSTATUS_OK gc) locals_init in
  if nonzero (status_code gc1) then (status_code gc1, gc1, [])
  else
    let '(gc2, lv2) :=
      pass2_list ss e gc1
        (set_target (position gc1) (set_offset clear_vector lv1)) in
    if nonzero (status_code gc2) then (status_code gc2, gc2, [])
    else dispatch gc2 lv2 [].

(** What each letter governs in the modal state: [modal_frame c g g']
    says that the fields the words of letter [c] set are the same in
    [g'] as in [g], and [axis_frame c g g'] that the coordinate of the
    position is, when [c] is the letter of an axis. *)
Definition modal_frame (c : ascii) (g g' : ParserState) : Prop :=
  (c = "G"%char ->
   motion_mode g' = motion_mode g /\
   inverse_feed_rate_mode g' = inverse_feed_rate_mode g /\
   inches_mode g' = inches_mode g /\
   absolute_mode g' = absolute_mode g /\
   plane_axis_0 g' = plane_axis_0 g /\
   plane_axis_1 g' = plane_axis_1 g /\
   plane_axis_2 g' = plane_axis_2 g) /\
  (c = "M"%char ->
   program_flow g' = program_flow g /\
   spindle_direction g' = spindle_direction g) /\
  (c = "T"%char -> tool g' = tool g) /\
  (c = "F"%char -> feed_rate g' = feed_rate g) /\
  (c = "S"%char -> spindle_speed g' = spindle_speed g).

Definition axis_frame (c : ascii) (g g' : ParserState) : Prop :=
  forall a, c = axis_letter a ->
       vget (position g') a = vget (position g) a.

Definition governed (c : ascii) (g g' : ParserState) : Prop :=
  modal_frame c g g' /\ axis_frame c g g'.

(** The calls one line can make, [gc'] being the state it leaves: none;
    one call of the settings; the spindle call alone, or followed by
    one of homing, a dwell, a straight move to the position of [gc'],
    and an arc in the plane of [gc'] with its closing straight move to
    that position.  A move is requested in the feed rate mode of [gc'],
    and outside the inverse time mode at the feed rate of [gc']. *)
Inductive line_calls (gc' : ParserState) : list event -> Prop :=
| calls_none : line_calls gc' []
| calls_dump_settings : line_calls gc' [dump_settings]
| calls_store_setting parameter value :
    line_calls gc' [store_setting parameter value]
| calls_spindle : line_calls gc' [spindle_event gc']
| calls_go_home : line_calls gc' [spindle_event gc'; mc_go_home]
| calls_dwell milliseconds :
    line_calls gc' [spindle_event gc'; mc_dwell milliseconds]
| calls_line rate :
    (inverse_feed_rate_mode gc' = false -> rate = feed_rate gc') ->
    line_calls gc'
      [ spindle_event gc';
        mc_line (vget (position gc') X_AXIS) (vget (position gc') Y_AXIS)
          (vget (position gc') Z_AXIS) rate (inverse_feed_rate_mode gc') ]
| calls_arc theta_start angular_travel radius depth rate :
    (inverse_feed_rate_mode gc' = false -> rate = feed_rate gc') ->
    line_calls gc'
      [ spindle_event gc';
        mc_arc theta_start angular_travel radius depth
          (plane_axis_0 gc') (plane_axis_1 gc') (plane_axis_2 gc')
          rate (inverse_feed_rate_mode gc');
        mc_line (vget (position gc') X_AXIS) (vget (position gc') Y_AXIS)
          (vget (position gc') Z_AXIS) rate (inverse_feed_rate_mode gc') ].

(** The rate and the feed rate mode a call requests a move with. *)
Definition requested_rate (e : event) : option (double * bool) :=
  match e with
  | mc_line _ _ _ rate invert_feed_rate => Some (rate, invert_feed_rate)
  | mc_arc _ _ _ _ _ _ _ rate invert_feed_rate =>
      Some (rate, invert_feed_rate)
  | _ => None
  end.

(** The three planes G17, G18 and G19 select. *)
Definition plane_selected (gc : ParserState) : Prop :=
  (plane_axis_0 gc, plane_axis_1 gc, plane_axis_2 gc) = (X_AXIS, Y_AXIS, Z_AXIS)
  \/ (plane_axis_0 gc, plane_axis_1 gc, plane_axis_2 gc)
     = (X_AXIS, Z_AXIS, Y_AXIS)
  \/ (plane_axis_0 gc, plane_axis_1 gc, plane_axis_2 gc)
     = (Y_AXIS, Z_AXIS, X_AXIS).

(** The three directions M3, M4 and M5 set. *)
Definition spindle_direction_set (gc : ParserState) : Prop :=
  spindle_direction gc = 1%Z \/ spindle_direction gc = (-1)%Z
  \/ spindle_direction gc = 0%Z.

(** The modal state after the lines of a program, one call of
    [gc_execute_line] for each. *)
Fixpoint run_lines (strtod : string -> double * nat) (lines : list string)
    (gc : ParserState) : ParserState :=
  match lines with
  | [] => gc
  | textline :: lines' =>
      run_lines strtod lines'
        (state_after (gc_execute_line strtod textline gc))
  end.

(** The two states agree on every field [gc_execute_line] reads: all but
    the status code, which it resets, and the program flow, the seek
    rate and the tool. *)
Definition same_read_fields (g g' : ParserState) : Prop :=
  motion_mode g = motion_mode g' /\
  inverse_feed_rate_mode g = inverse_feed_rate_mode g' /\
  inches_mode g = inches_mode g' /\
  absolute_mode g = absolute_mode g' /\
  spindle_direction g = spindle_direction g' /\
  feed_rate g = feed_rate g' /\
  position g = position g' /\
  spindle_speed g = spindle_speed g' /\
  plane_axis_0 g = plane_axis_0 g' /\
  plane_axis_1 g = plane_axis_1 g' /\
  plane_axis_2 g = plane_axis_2 g'.

(** Two states that agree on the fields read and on the status code. *)
Definition alike (g g' : ParserState) : Prop :=
  same_read_fields g g' /\ status_code g = status_code g'.

(** Two results that differ in the fields not read at most. *)
Definition result_alike (res res' : result) : Prop :=
  returned res = returned res' /\ calls res = calls res' /\
  alike (state_after res) (state_after res').

(** The same for what the two passes hand on. *)
Definition parsed_alike (x x' : parsed) : Prop :=
  match x, x' with
  | Return res, Return res' => result_alike res res'
  | Continue g lv ev, Continue g' lv' ev' =>
      alike g g' /\ lv = lv' /\ ev = ev'
  | _, _ => False
  end.



(** The coordinate a line that is accepted leaves along one axis, [gc]
    being the state before the line and [gc'] the state after it: the
    coordinate of [gc] where the line has no word for the axis; else the
    value of the word, converted in the units of [gc'], alone in the
    absolute mode of [gc'] or under G53, added to the coordinate of [gc]
    otherwise. *)
Definition committed (gc gc' : ParserState) (ss : list (ascii * double))
    (a : axis) : double :=
  match word_values a ss with
  | [] => vget (position gc) a
  | value :: _ =>
      if absolute_mode gc' || existsb (is_G 53) ss
      then to_millimeters gc' value
      else (vget (position gc) a + to_millimeters gc' value)%D
  end.

(** The letter of the word that gives the offset of the centre along an
    axis. *)
Definition offset_letter (a : axis) : ascii :=
  match a with
  | X_AXIS => "I"%char
  | Y_AXIS => "J"%char
  | Z_AXIS => "K"%char
  end.

(** The offset of the centre along one axis that the I, J and K words of
    a line give, [gc'] being the state the line leaves: the value of the
    last word for the axis, converted in the units of [gc'], and zero
    where the line has none. *)
Definition centre_offset (gc' : ParserState) (ss : list (ascii * double))
    (a : axis) : double :=
  last (map (fun s => to_millimeters gc' (snd s))
          (filter (fun s => Ascii.eqb (fst s) (offset_letter a)) ss))
       (Fin 0).

(* ################################################################## *)
(** * Properties                                                       *)
(* ################################################################## *)

(* ================================================================== *)
(** ** The two passes as passes over the statements of the line        *)
(* ================================================================== *)

Section StatementsFacts.

Variable strtod : string -> double * nat.

Lemma next_statement_scan (textline : string) (counter : nat)
    (gc : ParserState) :
  next_statement strtod textline counter gc =
  match scan strtod textline counter with
  | inl s => (Some s, gc)
  | inr e => (None, stop_gc e gc)
  end.
Proof.
  unfold next_statement, scan, read_double.
  destruct (is_char (char_at textline counter) NUL); [reflexivity|].
  destruct (not_upper (char_at textline counter)); [reflexivity|].
  destruct (strtod (text_from textline (S counter))) as [value len].
  destruct (Nat.eqb len 0); reflexivity.
Qed.

Lemma pass1_statements (fuel : nat) (textline : string) :
  forall counter gc lv,
    pass1 strtod fuel textline counter gc lv =
    let '(ss, e) := statements strtod fuel textline counter in
    pass1_list ss e gc lv.
Proof.
  induction fuel as [|fuel IH]; intros counter gc lv; simpl.
  - reflexivity.
  - rewrite next_statement_scan.
    destruct (scan strtod textline counter) as [[[letter value] counter']|e].
    + specialize (IH counter').
      destruct (statements strtod fuel textline counter') as [ss e]. simpl.
      destruct (pass1_statement letter value gc lv) as [gc1 lv1].
      destruct (nonzero (status_code gc1)); [reflexivity|apply IH].
    + reflexivity.
Qed.

Lemma pass2_statements (fuel : nat) (textline : string) :
  forall counter gc lv,
    pass2 strtod fuel textline counter gc lv =
    let '(ss, e) := statements strtod fuel textline counter in
    pass2_list ss e gc lv.
Proof.
  induction fuel as [|fuel IH]; intros counter gc lv; simpl.
  - reflexivity.
  - rewrite next_statement_scan.
    destruct (scan strtod textline counter) as [[[letter value] counter']|e].
    + specialize (IH counter').
      destruct (statements strtod fuel textline counter') as [ss e]. simpl.
      destruct (pass2_statement letter value gc lv) as [gc1 lv1].
      apply IH.
    + reflexivity.
Qed.

(** *** The fuel is enough *)

Lemma char_at_end (textline : string) :
  forall counter, (String.length textline <= counter)%nat ->
             char_at textline counter = NUL.
Proof.
  unfold char_at.
  induction textline as [|c rest IH]; intros counter Hlen; simpl in *.
  - reflexivity.
  - destruct counter as [|counter]; [lia|]. apply IH. lia.
Qed.

Lemma scan_advances (textline : string) (counter : nat) letter value counter' :
  scan strtod textline counter = inl (letter, value, counter') ->
  (counter < counter')%nat.
Proof.
  unfold scan.
  destruct (is_char _ NUL); [discriminate|].
  destruct (not_upper _); [discriminate|].
  destruct (strtod _) as [v len].
  destruct (Nat.eqb len 0); [discriminate|].
  intros H. injection H as _ _ <-. lia.
Qed.

Lemma scan_at_end (textline : string) (counter : nat) :
  (String.length textline <= counter)%nat ->
  scan strtod textline counter = inr end_of_line.
Proof.
  intros Hlen. unfold scan. rewrite (char_at_end _ _ Hlen). reflexivity.
Qed.

(** With the fuel [gc_execute_line] gives, the scan never stops for
    lack of fuel: any larger amount finds the same statements. *)
Lemma statements_fuel (textline : string) :
  forall fuel counter more,
    (String.length textline < counter + fuel)%nat ->
    statements strtod (fuel + more) textline counter =
    statements strtod fuel textline counter.
Proof.
  induction fuel as [|fuel IH]; intros counter more Hlen.
  - destruct more as [|more]; simpl; [reflexivity|].
    rewrite scan_at_end by lia. reflexivity.
  - simpl.
    destruct (scan strtod textline counter) as [[[letter value] counter']|e] eqn:Hs;
      [|reflexivity].
    apply scan_advances in Hs.
    rewrite IH by lia. reflexivity.
Qed.

Lemma pass1_fuel (textline : string) (counter more : nat) gc lv :
  pass1 strtod (S (String.length textline) + more) textline counter gc lv =
  pass1 strtod (S (String.length textline)) textline counter gc lv.
Proof.
  rewrite !pass1_statements, statements_fuel by lia. reflexivity.
Qed.

Lemma pass2_fuel (textline : string) (counter more : nat) gc lv :
  pass2 strtod (S (String.length textline) + more) textline counter gc lv =
  pass2 strtod (S (String.length textline)) textline counter gc lv.
Proof.
  rewrite !pass2_statements, statements_fuel by lia. reflexivity.
Qed.

End StatementsFacts.


(* ================================================================== *)
(** ** Tactics                                                         *)
(* ================================================================== *)

Local Open Scope R_scope.

(** Case analysis on the integer a [switch] is on, and on a letter. *)
Ltac case_int :=
  repeat match goal with
         | |- context [match ?n with _ => _ end] => is_var n; destruct n
         end.

Ltac case_letter l := destruct l as [[] [] [] [] [] [] [] []].

(** Case analysis on the comparisons of reals in the goal. *)
Ltac decide_reals :=
  repeat match goal with
         | |- context [Rlt_dec ?a ?b] => destruct (Rlt_dec a b)
         | |- context [Req_dec_T ?a ?b] => destruct (Req_dec_T a b)
         end.

Lemma Rtrunc_IZR n : Rtrunc (IZR n) = n.
Proof.
  unfold Rtrunc. destruct (Rle_dec 0 (IZR n)).
  - apply ZfloorZ.
  - apply Zceil_eq. lra.
Qed.

Lemma int_value_IZR n : double_to_int (Libm.trunc (Fin (IZR n))) = n.
Proof. simpl. rewrite !Rtrunc_IZR. reflexivity. Qed.

(** Evaluation of the interpreter on a concrete line: everything is
    computed but the real arithmetic. *)
Ltac run_step :=
  cbv -[IZR Rplus Rminus Rmult Rdiv Ropp Rinv PI
        dadd dsub dmul ddiv dneg dlt dgt double_to_int
        Libm.trunc Libm.sqrt Libm.hypot Libm.atan Libm.fabs Libm.isnan
        theta radius_to_offset trace_arc angular_travel_of].

Ltac run := run_step; repeat (progress (rewrite ?int_value_IZR); run_step).


(* ================================================================== *)
(** ** What the two passes leave alone                                 *)
(* ================================================================== *)

Lemma pass1_statement_position letter value gc lv :
  position (fst (pass1_statement letter value gc lv)) = position gc.
Proof.
  unfold pass1_statement.
  generalize (double_to_int (Libm.trunc value)). intros n.
  case_letter letter; try reflexivity; case_int; reflexivity.
Qed.

Lemma pass2_statement_position letter value gc lv :
  position (fst (pass2_statement letter value gc lv)) = position gc.
Proof.
  unfold pass2_statement.
  case_letter letter; try reflexivity.
  destruct (inverse_feed_rate_mode gc); reflexivity.
Qed.

Lemma pass2_statement_status letter value gc lv :
  status_code (fst (pass2_statement letter value gc lv)) = status_code gc.
Proof.
  unfold pass2_statement.
  case_letter letter; try reflexivity.
  destruct (inverse_feed_rate_mode gc); reflexivity.
Qed.

Lemma stop_gc_position e gc : position (stop_gc e gc) = position gc.
Proof. destruct e; reflexivity. Qed.

Lemma pass1_list_position ss e :
  forall gc lv, position (fst (pass1_list ss e gc lv)) = position gc.
Proof.
  induction ss as [|[letter value] ss IH]; intros gc lv; simpl.
  - apply stop_gc_position.
  - pose proof (pass1_statement_position letter value gc lv) as Hp.
    destruct (pass1_statement letter value gc lv) as [gc1 lv1]. simpl in Hp.
    destruct (nonzero (status_code gc1)); simpl; [exact Hp|].
    rewrite IH. exact Hp.
Qed.

Lemma pass2_list_position ss e :
  forall gc lv, position (fst (pass2_list ss e gc lv)) = position gc.
Proof.
  induction ss as [|[letter value] ss IH]; intros gc lv; simpl.
  - apply stop_gc_position.
  - pose proof (pass2_statement_position letter value gc lv) as Hp.
    destruct (pass2_statement letter value gc lv) as [gc1 lv1]. simpl in Hp.
    rewrite IH. exact Hp.
Qed.


Lemma pass1_statement_parse_status letter value gc lv :
  parse_status (status_code gc) ->
  parse_status (status_code (fst (pass1_statement letter value gc lv))).
Proof.
  intros H. unfold pass1_statement.
  generalize (double_to_int (Libm.trunc value)). intros n.
  case_letter letter; try exact H; case_int;
    solve [exact H | right; right; right; reflexivity].
Qed.

Section ScanStatus.

Variable strtod : string -> double * nat.

Lemma scan_stop_parse_status textline counter e gc :
  scan strtod textline counter = inr e ->
  parse_status (status_code gc) ->
  parse_status (status_code (stop_gc e gc)).
Proof.
  unfold scan.
  destruct (is_char _ NUL); [intros [= <-]; trivial|].
  destruct (not_upper _); [intros [= <-] _; right; left; reflexivity|].
  destruct (strtod _) as [v len].
  destruct (Nat.eqb len 0); [|discriminate].
  intros [= <-] _. right; right; left; reflexivity.
Qed.

Lemma statements_stop_parse_status textline :
  forall fuel counter ss e gc,
    statements strtod fuel textline counter = (ss, e) ->
    parse_status (status_code gc) ->
    parse_status (status_code (stop_gc e gc)).
Proof.
  induction fuel as [|fuel IH]; intros counter ss e gc; simpl.
  - intros [= <- <-]; trivial.
  - destruct (scan strtod textline counter) as [[[l v] c]|e'] eqn:Hs.
    + destruct (statements strtod fuel textline c) as [ss' e''] eqn:Hss.
      intros [= <- <-]. eapply IH; eassumption.
    + intros [= <- <-]. eapply scan_stop_parse_status; eassumption.
Qed.

End ScanStatus.

Lemma pass1_list_parse_status ss e :
  (forall gc, parse_status (status_code gc) ->
         parse_status (status_code (stop_gc e gc))) ->
  forall gc lv,
    parse_status (status_code gc) ->
    parse_status (status_code (fst (pass1_list ss e gc lv))).
Proof.
  intros He.
  induction ss as [|[letter value] ss IH]; intros gc lv H; simpl.
  - apply He, H.
  - pose proof (pass1_statement_parse_status letter value gc lv H) as H1.
    destruct (pass1_statement letter value gc lv) as [gc1 lv1]. simpl in H1.
    destruct (nonzero (status_code gc1)); simpl; [exact H1|].
    apply IH, H1.
Qed.

Lemma pass2_list_parse_status ss e :
  (forall gc, parse_status (status_code gc) ->
         parse_status (status_code (stop_gc e gc))) ->
  forall gc lv,
    parse_status (status_code gc) ->
    parse_status (status_code (fst (pass2_list ss e gc lv))).
Proof.
  intros He.
  induction ss as [|[letter value] ss IH]; intros gc lv H; simpl.
  - apply He, H.
  - pose proof (pass2_statement_status letter value gc lv) as H1.
    destruct (pass2_statement letter value gc lv) as [gc1 lv1]. simpl in H1.
    apply IH. rewrite H1. exact H.
Qed.

(* ================================================================== *)
(** ** What [parse_line] hands on                                      *)
(* ================================================================== *)


Section ParseLine.

Variable strtod : string -> double * nat.

Lemma read_double_position textline counter gc :
  position (snd (read_double strtod textline counter gc)) = position gc.
Proof.
  unfold read_double. destruct (strtod _) as [v len].
  destruct (Nat.eqb len 0); reflexivity.
Qed.

Lemma read_double_parse_status textline counter gc :
  parse_status (status_code gc) ->
  parse_status (status_code (snd (read_double strtod textline counter gc))).
Proof.
  intros H. unfold read_double. destruct (strtod _) as [v len].
  destruct (Nat.eqb len 0); simpl; [|exact H].
  right; right; left; reflexivity.
Qed.

Lemma settings_line_inv textline counter gc lv :
  parse_status (status_code gc) ->
  match settings_line strtod textline counter gc lv with
  | inl (st, gc', ev) =>
      position gc' = position gc /\ parse_status st /\ no_physical_action ev
  | inr (gc', lv', counter', ev) =>
      position gc' = position gc /\ parse_status (status_code gc') /\
      no_physical_action ev
  end.
Proof.
  intros Hst. unfold settings_line, no_physical_action.
  destruct (is_char (char_at textline 0) "$"); [|auto].
  destruct (is_char (char_at textline 1) NUL).
  { split; [reflexivity|]. split; [left; reflexivity|].
    repeat constructor. }
  pose proof (read_double_position textline 1 gc) as Hp1.
  pose proof (read_double_parse_status textline 1 gc Hst) as Hs1.
  destruct (read_double strtod textline 1 gc) as [[[ok1 c1] p1] gc1].
  simpl in Hp1, Hs1.
  destruct (negb (is_char (char_at textline c1) "=")).
  { split; [exact Hp1|]. split; [|constructor].
    right; right; right; reflexivity. }
  pose proof (read_double_position textline (S c1) gc1) as Hp2.
  pose proof (read_double_parse_status textline (S c1) gc1 Hs1) as Hs2.
  destruct (read_double strtod textline (S c1) gc1) as [[[ok2 c2] v2] gc2].
  simpl in Hp2, Hs2.
  destruct (negb (is_char (char_at textline c2) NUL)).
  { split; [congruence|]. split; [|constructor].
    right; right; right; reflexivity. }
  split; [congruence|]. split; [exact Hs2|]. repeat constructor.
Qed.

Lemma nonzero_false s : nonzero s = false -> s = GCSTATUS_OK.
Proof. destruct s; simpl; congruence. Qed.

(** Whatever the line, the code before the physical actions leaves the
    position alone, calls nothing but the settings collaborator, and
    either returns [GCSTATUS_OK] or a parse error, or goes on with the
    status [GCSTATUS_OK]. *)
Lemma parse_line_inv textline gc :
  match parse_line strtod textline gc with
  | Return (st, gc', ev) =>
      position gc' = position gc /\ parse_status st /\ no_physical_action ev
  | Continue gc' lv ev =>
      position gc' = position gc /\ status_code gc' = GCSTATUS_OK /\
      no_physical_action ev
  end.
Proof.
  unfold parse_line.
  destruct (is_char (char_at textline 0) "(").
  { simpl. split; [reflexivity|]. split; [left; reflexivity|constructor]. }
  set (c0 := if is_char (char_at textline 0) "/" then 1%nat else 0%nat).
  assert (Hok : parse_status (status_code (set_status_code GCSTATUS_OK gc)))
    by (left; reflexivity).
  pose proof (settings_line_inv textline c0 _ locals_init Hok) as Hs.
  destruct (settings_line strtod textline c0
              (set_status_code GCSTATUS_OK gc) locals_init)
    as [[[st gc'] ev]|[[[gc1 lv1] c1] ev]]; [exact Hs|].
  destruct Hs as (Hp1 & Hs1 & Hev). simpl in Hp1.
  rewrite pass1_statements.
  destruct (statements strtod (S (String.length textline)) textline c1)
    as [ss1 e1] eqn:Hss1.
  pose proof (pass1_list_position ss1 e1 gc1 lv1) as Hp2.
  pose proof (pass1_list_parse_status ss1 e1
                (fun g => statements_stop_parse_status strtod _ _ _ _ _ g Hss1)
                gc1 lv1 Hs1) as Hs2.
  destruct (pass1_list ss1 e1 gc1 lv1) as [gc2 lv2]. simpl in Hp2, Hs2.
  destruct (nonzero (status_code gc2)) eqn:Hnz2.
  { split; [congruence|]. split; assumption. }
  rewrite pass2_statements.
  destruct (statements strtod (S (String.length textline)) textline 0)
    as [ss2 e2] eqn:Hss2.
  set (lv2' := set_target (position gc2) (set_offset clear_vector lv2)).
  pose proof (pass2_list_position ss2 e2 gc2 lv2') as Hp3.
  pose proof (pass2_list_parse_status ss2 e2
                (fun g => statements_stop_parse_status strtod _ _ _ _ _ g Hss2)
                gc2 lv2' Hs2) as Hs3.
  destruct (pass2_list ss2 e2 gc2 lv2') as [gc3 lv3]. simpl in Hp3, Hs3.
  destruct (nonzero (status_code gc3)) eqn:Hnz3.
  { split; [congruence|]. split; assumption. }
  split; [congruence|]. split; [apply nonzero_false, Hnz3|assumption].
Qed.

End ParseLine.


(** The physical actions end in one of two ways: the position is
    committed and the status, unchanged, is returned; or the radius of an
    arc is rejected after the spindle call and before any motion. *)
Lemma dispatch_cases gc lv ev :
  (exists actions,
      dispatch gc lv ev =
      (status_code gc, set_position (target lv) gc,
       ev ++ spindle_event gc :: actions))
  \/ (dispatch gc lv ev =
      (GCSTATUS_FLOATING_POINT_ERROR, FAIL GCSTATUS_FLOATING_POINT_ERROR gc,
       ev ++ [spindle_event gc])
      /\ next_action lv = NEXT_ACTION_DEFAULT
      /\ (motion_mode gc = MOTION_MODE_CW_ARC
          \/ motion_mode gc = MOTION_MODE_CCW_ARC)
      /\ radius_mode lv = true
      /\ radius_to_offset gc lv = None).
Proof.
  unfold dispatch, commit.
  assert (Hnil : ev ++ [spindle_event gc] = ev ++ spindle_event gc :: [])
    by reflexivity.
  destruct (next_action lv); [destruct (motion_mode gc) eqn:Hm|..];
    try solve [left; eexists; rewrite <- app_assoc; reflexivity
              |left; exists []; reflexivity].
  all: destruct (radius_mode lv);
    [destruct (radius_to_offset gc lv)|];
    solve [left; eexists; rewrite <- app_assoc; reflexivity
          |right; auto 10].
Qed.

(* ================================================================== *)
(** ** Invariants of the modal state                                   *)
(* ================================================================== *)

Section Invariant.

Variable strtod : string -> double * nat.

(** A property of the modal state that the status and the statements of
    the two passes preserve. *)
Variable P : ParserState -> Prop.

Hypothesis P_status : forall s gc, P gc -> P (set_status_code s gc).

Hypothesis P_pass1 :
  forall letter value gc lv, P gc -> P (fst (pass1_statement letter value gc lv)).

Hypothesis P_pass2 :
  forall letter value gc lv, P gc -> P (fst (pass2_statement letter value gc lv)).

Lemma stop_gc_preserves e gc : P gc -> P (stop_gc e gc).
Proof. destruct e; [trivial|apply P_status]. Qed.

Lemma read_double_preserves textline counter gc :
  P gc -> P (snd (read_double strtod textline counter gc)).
Proof.
  intros H. unfold read_double. destruct (strtod _) as [v len].
  destruct (Nat.eqb len 0); [apply P_status|]; exact H.
Qed.

Lemma pass1_list_preserves ss e :
  forall gc lv, P gc -> P (fst (pass1_list ss e gc lv)).
Proof.
  induction ss as [|[letter value] ss IH]; intros gc lv H; simpl.
  - apply stop_gc_preserves, H.
  - pose proof (P_pass1 letter value gc lv H) as H1.
    destruct (pass1_statement letter value gc lv) as [gc1 lv1]. simpl in H1.
    destruct (nonzero (status_code gc1)); [exact H1|apply IH, H1].
Qed.

Lemma pass2_list_preserves ss e :
  forall gc lv, P gc -> P (fst (pass2_list ss e gc lv)).
Proof.
  induction ss as [|[letter value] ss IH]; intros gc lv H; simpl.
  - apply stop_gc_preserves, H.
  - pose proof (P_pass2 letter value gc lv H) as H1.
    destruct (pass2_statement letter value gc lv) as [gc1 lv1]. simpl in H1.
    apply IH, H1.
Qed.

(** Such a property holds of the state the two passes hand on. *)
Lemma parse_line_preserves textline gc :
  P gc ->
  match parse_line strtod textline gc with
  | Return (_, gc', _) => P gc'
  | Continue gc' _ _ => P gc'
  end.
Proof.
  intros H. unfold parse_line.
  pose proof (P_status GCSTATUS_OK gc H) as H0.
  destruct (is_char (char_at textline 0) "("); [exact H0|].
  unfold settings_line.
  set (c0 := if is_char (char_at textline 0) "/" then 1%nat else 0%nat).
  assert (Hpasses : forall gc1 lv1 c1 ev, P gc1 ->
    match
      (let '(gc2, lv2) :=
         pass1 strtod (S (String.length textline)) textline c1 gc1 lv1 in
       if nonzero (status_code gc2) then Return (status_code gc2, gc2, ev)
       else
         let '(gc3, lv3) :=
           pass2 strtod (S (String.length textline)) textline 0 gc2
             (set_target (position gc2) (set_offset clear_vector lv2)) in
         if nonzero (status_code gc3) then Return (status_code gc3, gc3, ev)
         else Continue gc3 lv3 ev)
    with
    | Return (_, gc', _) => P gc'
    | Continue gc' _ _ => P gc'
    end).
  { intros gc1 lv1 c1 ev H1.
    rewrite pass1_statements.
    destruct (statements strtod _ textline c1) as [ss1 e1].
    pose proof (pass1_list_preserves ss1 e1 gc1 lv1 H1) as H2.
    destruct (pass1_list ss1 e1 gc1 lv1) as [gc2 lv2]. simpl in H2.
    destruct (nonzero (status_code gc2)); [exact H2|].
    rewrite pass2_statements.
    destruct (statements strtod _ textline 0) as [ss2 e2].
    pose proof (pass2_list_preserves ss2 e2 gc2
                  (set_target (position gc2) (set_offset clear_vector lv2)) H2)
      as H3.
    destruct (pass2_list ss2 e2 gc2 _) as [gc3 lv3]. simpl in H3.
    destruct (nonzero (status_code gc3)); exact H3. }
  destruct (is_char (char_at textline 0) "$"); [|apply Hpasses, H0].
  destruct (is_char (char_at textline 1) NUL); [exact H0|].
  pose proof (read_double_preserves textline 1 _ H0) as H1.
  destruct (read_double strtod textline 1 _) as [[[ok1 c1] p1] gc1].
  simpl in H1.
  destruct (negb _); [exact H1|].
  pose proof (read_double_preserves textline (S c1) _ H1) as H2.
  destruct (read_double strtod textline (S c1) gc1) as [[[ok2 c2] v2] gc2].
  simpl in H2.
  destruct (negb _); [exact H2|].
  apply Hpasses, H2.
Qed.

End Invariant.


Lemma pass1_statement_plane letter value gc lv :
  plane_distinct gc -> plane_distinct (fst (pass1_statement letter value gc lv)).
Proof.
  unfold plane_distinct, pass1_statement.
  generalize (double_to_int (Libm.trunc value)). intros n H.
  case_letter letter; try exact H; case_int;
    solve [exact H | cbn; discriminate].
Qed.

Lemma pass2_statement_plane letter value gc lv :
  plane_distinct gc -> plane_distinct (fst (pass2_statement letter value gc lv)).
Proof.
  unfold plane_distinct, pass2_statement. intros H.
  case_letter letter; try exact H.
  destruct (inverse_feed_rate_mode gc); exact H.
Qed.


(** And so does a whole call. *)
Lemma gc_execute_line_plane (strtod : string -> double * nat) textline gc :
  plane_distinct gc ->
  plane_distinct (state_after (gc_execute_line strtod textline gc)).
Proof.
  intros H. unfold gc_execute_line.
  pose proof (parse_line_preserves strtod plane_distinct
                (fun s g Hg => Hg) pass1_statement_plane pass2_statement_plane
                textline gc H) as Hinv.
  destruct (parse_line strtod textline gc) as [[[st gc'] ev]|gc1 lv ev].
  - exact Hinv.
  - destruct (dispatch_cases gc1 lv ev) as [[actions ->]|[-> _]]; exact Hinv.
Qed.

(* ================================================================== *)
(** ** Arithmetic of the idealised [double] on finite values           *)
(* ================================================================== *)


Lemma dlt_Fin a b : (Fin a <? Fin b)%D = true <-> a < b.
Proof.
  simpl. destruct (Rlt_dec a b); split; intros; trivial; try discriminate.
  contradiction.
Qed.

Lemma dlt_Fin_false a b : (Fin a <? Fin b)%D = false <-> b <= a.
Proof.
  simpl. destruct (Rlt_dec a b); split; intros; trivial; try discriminate; lra.
Qed.

Lemma ddiv_Fin a b : b <> 0 -> (Fin a / Fin b)%D = Fin (a / b).
Proof. intros Hb. simpl. destruct (Req_dec_T b 0); [contradiction|reflexivity]. Qed.

Lemma sqrt_Fin a : 0 <= a -> Libm.sqrt (Fin a) = Fin (sqrt a).
Proof. intros Ha. simpl. destruct (Rlt_dec a 0); [lra|reflexivity]. Qed.

Lemma sqrt_Fin_neg a : a < 0 -> Libm.sqrt (Fin a) = NaN.
Proof. intros Ha. simpl. destruct (Rlt_dec a 0); [reflexivity|lra]. Qed.



(* ================================================================== *)
(** ** The arc geometry                                                *)
(* ================================================================== *)


Section RadiusToOffset.

Variables (gc : ParserState) (lv : locals) (rr xx yy : R).

Hypothesis Hr : r lv = Fin rr.
Hypothesis Hx :
  (vget (target lv) (plane_axis_0 gc)
   - vget (position gc) (plane_axis_0 gc))%D = Fin xx.
Hypothesis Hy :
  (vget (target lv) (plane_axis_1 gc)
   - vget (position gc) (plane_axis_1 gc))%D = Fin yy.

Lemma radius_too_short :
  4 * rr * rr < xx * xx + yy * yy ->
  radius_to_offset gc lv = None.
Proof.
  intros Hlt. unfold radius_to_offset. rewrite Hr, Hx, Hy.
  cbn [dint dmul dsub dadd dneg].
  rewrite sqrt_Fin_neg by lra. reflexivity.
Qed.


End RadiusToOffset.

(** *** The angles *)

(** [theta] is NaN or an angle of the half-open turn [[-PI, PI)]. *)
Lemma theta_range (x y : double) :
  theta x y = NaN \/ exists t, theta x y = Fin t /\ - PI <= t < PI.
Proof.
  pose proof PI_RGT_0 as Hpi.
  unfold theta, M_PI.
  destruct x as [a| | |], y as [b| | |];
    cbn [Libm.fabs ddiv inf_signed Libm.atan dgt dlt dsub dadd dneg];
    try (left; reflexivity).
  - (* a finite abscissa over a finite ordinate *)
    pose proof (atan_bound (a / Rabs b)) as Hb.
    unfold inf_signed. decide_reals;
      cbn [Libm.atan dlt dsub dadd dneg]; decide_reals;
      try (left; reflexivity);
      right; eexists; (split; [reflexivity|lra]).
  - pose proof (atan_bound 0) as Hb.
    decide_reals; right; eexists; (split; [reflexivity|lra]).
  - pose proof (atan_bound 0) as Hb.
    decide_reals; cbn [dsub dadd dneg];
      right; eexists; (split; [reflexivity|lra]).
  - decide_reals; cbn [Libm.atan dlt dsub dadd dneg]; decide_reals;
      right; eexists; (split; [reflexivity|lra]).
  - decide_reals; cbn [Libm.atan dlt dsub dadd dneg]; decide_reals;
      right; eexists; (split; [reflexivity|lra]).
  - decide_reals; left; reflexivity.
Qed.


Lemma theta_origin : theta (Fin 0) (Fin 0) = NaN.
Proof.
  unfold theta, M_PI. cbn [Libm.fabs ddiv]. rewrite Rabs_R0. unfold inf_signed.
  decide_reals; try lra.
  cbn [Libm.atan dgt dlt dsub dadd dneg]. decide_reals; try lra. reflexivity.
Qed.

Lemma angular_travel_Fin (m : motion_mode_t) (ts te : R) :
  - PI <= ts < PI -> - PI <= te < PI ->
  exists a, angular_travel_of m (Fin ts) (Fin te) = Fin a /\ travel_in_range m a.
Proof.
  intros Hs He. unfold angular_travel_of, travel_in_range, M_PI, dint.
  cbn [dlt dmul]. destruct (Rlt_dec te ts);
    cbn [dadd dsub dneg]; destruct (is_ccw m);
    eexists; (split; [reflexivity|lra]).
Qed.

Lemma angular_travel_NaN_l (m : motion_mode_t) (te : double) :
  angular_travel_of m NaN te = NaN.
Proof.
  unfold angular_travel_of.
  destruct te; cbn [dlt]; unfold M_PI, dint; cbn [dmul dadd dsub dneg];
    destruct (is_ccw m); reflexivity.
Qed.

Lemma angular_travel_NaN_r (m : motion_mode_t) (ts : double) :
  angular_travel_of m ts NaN = NaN.
Proof.
  unfold angular_travel_of.
  destruct ts; cbn [dlt]; unfold M_PI, dint; cbn [dmul dadd dsub dneg];
    destruct (is_ccw m); reflexivity.
Qed.

(* ================================================================== *)
(** ** Lines that start with a block delete or a settings character    *)
(* ================================================================== *)

Lemma is_char_eq c d : is_char c d = true -> c = d.
Proof. apply Ascii.eqb_eq. Qed.

Section Prefixes.

Variable strtod : string -> double * nat.

Lemma scan_rejects textline counter :
  is_char (char_at textline counter) NUL = false ->
  not_upper (char_at textline counter) = true ->
  scan strtod textline counter =
  inr (scan_error GCSTATUS_EXPECTED_COMMAND_LETTER).
Proof. intros H0 H1. unfold scan. rewrite H0, H1. reflexivity. Qed.

(** Pass 2 restarts at the first character of the line: a line whose
    first character is no letter is rejected there. *)
Lemma pass2_rejects textline gc lv :
  is_char (char_at textline 0) NUL = false ->
  not_upper (char_at textline 0) = true ->
  pass2 strtod (S (String.length textline)) textline 0 gc lv =
  (FAIL GCSTATUS_EXPECTED_COMMAND_LETTER gc, lv).
Proof.
  intros H0 H1. rewrite pass2_statements. cbn [statements].
  rewrite scan_rejects by assumption. reflexivity.
Qed.

(** A line that goes on to the physical actions has called no
    collaborator yet. *)
Lemma parse_line_Continue textline gc gc1 lv ev :
  parse_line strtod textline gc = Continue gc1 lv ev -> ev = [].
Proof.
  unfold parse_line.
  destruct (is_char (char_at textline 0) "("); [discriminate|].
  unfold settings_line.
  destruct (is_char (char_at textline 0) "$") eqn:Hd.
  - apply is_char_eq in Hd.
    destruct (is_char (char_at textline 1) NUL); [discriminate|].
    destruct (read_double strtod textline 1 _) as [[[ok1 c1] p1] g1].
    destruct (negb _); [discriminate|].
    destruct (read_double strtod textline (S c1) g1) as [[[ok2 c2] v2] g2].
    destruct (negb _); [discriminate|].
    destruct (pass1 _ _ _ _ _ _) as [g3 lv3].
    destruct (nonzero (status_code g3)); [discriminate|].
    rewrite pass2_rejects by (rewrite Hd; reflexivity).
    cbn. discriminate.
  - destruct (pass1 _ _ _ _ _ _) as [g3 lv3].
    destruct (nonzero (status_code g3)); [discriminate|].
    destruct (pass2 _ _ _ _ _ _) as [g4 lv4].
    destruct (nonzero (status_code g4)); [discriminate|].
    intros [= _ _ <-]. reflexivity.
Qed.

End Prefixes.

(* ================================================================== *)
(** ** Failure and the physical actions                                *)
(* ================================================================== *)


(** C3.  Whenever [gc_execute_line] returns one of the four errors
    (expected command letter, bad number format, unsupported statement,
    floating point error), the position of the modal state is what it
    was before the call. *)
Theorem position_unchanged_on_error (strtod : string -> double * nat)
    (textline : string) (gc : ParserState) :
  is_error (returned (gc_execute_line strtod textline gc)) ->
  position (state_after (gc_execute_line strtod textline gc)) = position gc.
Proof.
  unfold gc_execute_line.
  pose proof (parse_line_inv strtod textline gc) as H.
  destruct (parse_line strtod textline gc) as [[[st gc'] ev]|gc1 lv ev].
  - intros _. apply H.
  - destruct H as (Hp & Hs & _).
    destruct (dispatch_cases gc1 lv ev) as [[actions ->]|[-> _]].
    + unfold returned, state_after. cbn [fst snd]. rewrite Hs.
      intros [H|[H|[H|H]]]; discriminate.
    + intros _. exact Hp.
Qed.


(** *** The arc that is traced *)

Lemma dsub_Fin_inv (a b : double) (c : R) :
  (a - b)%D = Fin c -> exists a' b', a = Fin a' /\ b = Fin b' /\ c = a' - b'.
Proof.
  destruct a as [a'| | |], b as [b'| | |]; cbn; try discriminate.
  intros [= <-]. exists a', b'. auto.
Qed.

Lemma vget_vset_same v a x : vget (vset v a x) a = x.
Proof. destruct a; reflexivity. Qed.

Lemma vget_vset_other v a b x : a <> b -> vget (vset v a x) b = vget v b.
Proof. destruct a, b; intros H; try reflexivity; contradiction. Qed.




(* ================================================================== *)
(** ** The centre of an arc given by its radius                        *)
(* ================================================================== *)

Lemma four_r_r (x : double) : (dint 4 * x * x)%D = (dint 4 * (x * x))%D.
Proof.
  unfold dint. destruct x as [a| | |]; cbn [dmul]; unfold inf_signed.
  - f_equal. ring.
  - decide_reals; try lra; reflexivity.
  - decide_reals; try lra; reflexivity.
  - reflexivity.
Qed.

Lemma isnan_dneg (a : double) : Libm.isnan (- a)%D = Libm.isnan a.
Proof. destruct a; reflexivity. Qed.

(** The block [if (radius_mode) { ... }] computes what the spec says. *)
Lemma radius_to_offset_spec (gc : ParserState) (lv : locals) :
  let x := plane_x gc lv in
  let y := plane_y gc lv in
  let h := h_x2_div_d_spec (is_ccw (motion_mode gc)) (r lv) x y in
  radius_to_offset gc lv =
  if Libm.isnan h then None
  else Some (vset (vset clear_vector (plane_axis_0 gc) (offset_0_spec x y h))
                  (plane_axis_1 gc) (offset_1_spec x y h)).
Proof.
  cbv zeta. unfold radius_to_offset, h_x2_div_d_spec, offset_0_spec,
    offset_1_spec.
  fold (plane_x gc lv). fold (plane_y gc lv).
  rewrite four_r_r.
  set (h0 := (- Libm.sqrt _ / Libm.hypot _ _)%D).
  destruct (is_ccw (motion_mode gc)), (r lv <? Fin 0)%D;
    rewrite ?isnan_dneg; destruct (Libm.isnan h0); reflexivity.
Qed.

(** C4.  For an arc given by its radius, with [(x, y)] the displacement
    from the current position to the target along the two axes of the
    plane: [gc_execute_line] computes
    [h_x2_div_d = -sqrt(4 r^2 - x^2 - y^2) / hypot(x, y)], negated for a
    counterclockwise arc and negated again for a negative radius; when
    that is NaN it fails after the spindle call, and otherwise it traces
    the arc around the centre at the offsets [(x - y h)/2] and
    [(y + x h)/2] along the two axes of the plane. *)
Theorem radius_mode_centre (strtod : string -> double * nat)
    (textline : string) (gc gc1 : ParserState) (lv : locals) :
  radius_arc strtod textline gc gc1 lv ->
  let x := plane_x gc1 lv in
  let y := plane_y gc1 lv in
  let h := h_x2_div_d_spec (is_ccw (motion_mode gc1)) (r lv) x y in
  gc_execute_line strtod textline gc =
  if Libm.isnan h
  then (GCSTATUS_FLOATING_POINT_ERROR,
        FAIL GCSTATUS_FLOATING_POINT_ERROR gc1, [spindle_event gc1])
  else (GCSTATUS_OK, set_position (target lv) gc1,
        spindle_event gc1
        :: trace_arc gc1 lv
             (vset (vset clear_vector (plane_axis_0 gc1) (offset_0_spec x y h))
                   (plane_axis_1 gc1) (offset_1_spec x y h))).
Proof.
  intros (Hparse & Hna & Hmode & Hrm). cbv zeta.
  pose proof (parse_line_inv strtod textline gc) as Hinv.
  rewrite Hparse in Hinv. destruct Hinv as (_ & Hst & _).
  unfold gc_execute_line. rewrite Hparse. unfold dispatch.
  rewrite Hna, Hrm, radius_to_offset_spec. cbn [app].
  destruct (Libm.isnan _).
  - destruct Hmode as [-> | ->]; reflexivity.
  - unfold commit. cbn [status_code set_position]. rewrite Hst.
    destruct Hmode as [-> | ->]; reflexivity.
Qed.

(* ================================================================== *)
(** ** The sign of the angular travel                                  *)
(* ================================================================== *)

Lemma no_physical_action_arc ev ts travel rad dep a0 a1 a2 rate inv :
  no_physical_action ev ->
  ~ In (mc_arc ts travel rad dep a0 a1 a2 rate inv) ev.
Proof.
  intros Hev Hin. unfold no_physical_action in Hev.
  rewrite Forall_forall in Hev. apply Hev in Hin as [Hin _]. discriminate.
Qed.

(** An arc call comes from [trace_arc]: the mode is an arc mode, the
    position becomes the target, and the call is the one [trace_arc]
    makes around some offset, that of the I, J and K words unless the
    line has an R word. *)
Lemma arc_call_descriptor gc lv ev ts travel rad dep a0 a1 a2 rate inv :
  no_physical_action ev ->
  In (mc_arc ts travel rad dep a0 a1 a2 rate inv) (calls (dispatch gc lv ev)) ->
  (motion_mode gc = MOTION_MODE_CW_ARC \/ motion_mode gc = MOTION_MODE_CCW_ARC)
  /\ state_after (dispatch gc lv ev) = set_position (target lv) gc
  /\ exists off,
      (radius_mode lv = false -> off = offset lv) /\
      a0 = plane_axis_0 gc /\ a1 = plane_axis_1 gc /\ a2 = plane_axis_2 gc /\
      ts = theta (- vget off a0)%D (- vget off a1)%D /\
      travel =
      angular_travel_of (motion_mode gc) ts
        (theta (vget (target lv) a0 - vget off a0 - vget (position gc) a0)%D
               (vget (target lv) a1 - vget off a1 - vget (position gc) a1)%D)
      /\ rad = Libm.hypot (vget off a0) (vget off a1)
      /\ dep = (vget (target lv) a2 - vget (position gc) a2)%D.
Proof.
  intros Hev. unfold dispatch, commit, calls, state_after. cbn [fst snd].
  assert (Hsp : forall l,
             In (mc_arc ts travel rad dep a0 a1 a2 rate inv)
                ((ev ++ [spindle_event gc]) ++ l) ->
             In (mc_arc ts travel rad dep a0 a1 a2 rate inv) l).
  { intros l Hin. apply in_app_or in Hin as [Hin|Hin]; [|exact Hin].
    exfalso. apply in_app_or in Hin as [Hin|Hin].
    - exact (no_physical_action_arc _ _ _ _ _ _ _ _ _ _ Hev Hin).
    - destruct Hin as [Hin|[]]. unfold spindle_event in Hin.
      destruct (Z.eqb _ 0); discriminate. }
  assert (Hsp0 : ~ In (mc_arc ts travel rad dep a0 a1 a2 rate inv)
                     (ev ++ [spindle_event gc])).
  { intros Hin. rewrite <- (app_nil_r (ev ++ _)) in Hin.
    apply Hsp in Hin. destruct Hin. }
  assert (Harc : forall off,
    (if radius_mode lv then radius_to_offset gc lv else Some (offset lv))
    = Some off ->
    In (mc_arc ts travel rad dep a0 a1 a2 rate inv) (trace_arc gc lv off) ->
    exists off,
      (radius_mode lv = false -> off = offset lv) /\
      a0 = plane_axis_0 gc /\ a1 = plane_axis_1 gc /\ a2 = plane_axis_2 gc /\
      ts = theta (- vget off a0)%D (- vget off a1)%D /\
      travel =
      angular_travel_of (motion_mode gc) ts
        (theta (vget (target lv) a0 - vget off a0 - vget (position gc) a0)%D
               (vget (target lv) a1 - vget off a1 - vget (position gc) a1)%D)
      /\ rad = Libm.hypot (vget off a0) (vget off a1)
      /\ dep = (vget (target lv) a2 - vget (position gc) a2)%D).
  { intros off Hoff Hin. unfold trace_arc in Hin.
    destruct Hin as [Hin|[Hin|[]]]; [|discriminate].
    injection Hin as <- <- <- <- <- <- <- _ _.
    exists off. split.
    - intros Hrm. rewrite Hrm in Hoff. injection Hoff as <-. reflexivity.
    - repeat split; reflexivity. }
  destruct (next_action lv), (motion_mode gc) eqn:Hm;
    try destruct (if radius_mode lv then radius_to_offset gc lv
                  else Some (offset lv)) as [off|] eqn:Hoff;
    cbn [fst snd]; intros Hin;
    try (exfalso; exact (Hsp0 Hin));
    apply Hsp in Hin;
    try (destruct Hin as [Hin|[]]; discriminate Hin);
    (split; [first [left; reflexivity | right; reflexivity]|]);
    (split; [reflexivity|]);
    exact (Harc off eq_refl Hin).
Qed.

(** C5, as the code has it.  For every arc call of [gc_execute_line]
    the motion mode is one of the two arc modes.  The start angle is the
    angle under which the current position is seen from the centre, at
    the offset whose length is the radius of the call, and the end
    angle the one of the target.  The clockwise travel is the end angle less the start angle, after a
    full turn has been added to the end angle when it is below the
    start angle; the travel passed is the clockwise travel for a
    clockwise arc, and the clockwise travel less a full turn for a
    counterclockwise arc.  The clockwise travel is NaN when one of the
    two angles is NaN, and else a number that is not negative. *)
Theorem arc_travel_sign (strtod : string -> double * nat)
    (textline : string) (gc : ParserState)
    (ts travel rad dep : double) (a0 a1 a2 : axis) (rate : double)
    (inv : bool) :
  let res := gc_execute_line strtod textline gc in
  let mode := motion_mode (state_after res) in
  In (mc_arc ts travel rad dep a0 a1 a2 rate inv) (calls res) ->
  (mode = MOTION_MODE_CW_ARC \/ mode = MOTION_MODE_CCW_ARC) /\
  exists off : vector,
    let te :=
      theta (vget (position (state_after res)) a0 - vget off a0
             - vget (position gc) a0)%D
            (vget (position (state_after res)) a1 - vget off a1
             - vget (position gc) a1)%D in
    let cw :=
      ((if (te <? ts)%D then te + dint 2 * M_PI else te) - ts)%D in
    ts = theta (- vget off a0)%D (- vget off a1)%D /\
    rad = Libm.hypot (vget off a0) (vget off a1) /\
    travel = (if is_ccw mode then cw - dint 2 * M_PI else cw)%D /\
    (((ts = NaN \/ te = NaN) /\ cw = NaN) \/
     (exists s e c, ts = Fin s /\ te = Fin e /\ cw = Fin c /\ 0 <= c)).
Proof.
  cbv zeta. unfold gc_execute_line.
  pose proof (parse_line_inv strtod textline gc) as H.
  destruct (parse_line strtod textline gc) as [[[st gc'] ev]|gc1 lv ev].
  - destruct H as (_ & _ & Hev). intros Hin. exfalso.
    exact (no_physical_action_arc _ _ _ _ _ _ _ _ _ _ Hev Hin).
  - destruct H as (Hpos & _ & Hev). intros Hin.
    destruct (arc_call_descriptor _ _ _ _ _ _ _ _ _ _ _ _ Hev Hin)
      as (Hm & -> & off & _ & _ & _ & _ & Hts & Htr & Hrad & _).
    cbn [motion_mode position set_position]. rewrite <- Hpos.
    split; [exact Hm|]. exists off.
    split; [exact Hts|]. split; [exact Hrad|]. split; [exact Htr|].
    set (x1 := (vget (target lv) a0 - vget off a0 - vget (position gc1) a0)%D).
    set (y1 := (vget (target lv) a1 - vget off a1 - vget (position gc1) a1)%D).
    change (((if (theta x1 y1 <? ts)%D then theta x1 y1 + dint 2 * M_PI
              else theta x1 y1) - ts)%D)
      with (angular_travel_of MOTION_MODE_CW_ARC ts (theta x1 y1)).
    rewrite Hts.
    destruct (theta_range (- vget off a0)%D (- vget off a1)%D)
      as [-> | (s & -> & Hs)].
    { left. split; [left; reflexivity|apply angular_travel_NaN_l]. }
    destruct (theta_range x1 y1) as [-> | (e & -> & He)].
    { left. split; [right; reflexivity|apply angular_travel_NaN_r]. }
    right.
    destruct (angular_travel_Fin MOTION_MODE_CW_ARC s e Hs He)
      as (c & Hc & Hrange).
    exists s, e, c. repeat split; try assumption.
    unfold travel_in_range in Hrange. cbn [is_ccw] in Hrange. lra.
Qed.

(* ================================================================== *)
(** ** Unsupported statements                                          *)
(* ================================================================== *)

Lemma pass1_statement_unsupported letter value gc lv :
  unsupported (letter, value) = true ->
  pass1_statement letter value gc lv =
  (FAIL GCSTATUS_UNSUPPORTED_STATEMENT gc, lv).
Proof.
  unfold unsupported, pass1_statement. fold (int_value_of value).
  generalize (int_value_of value). intros n.
  case_letter letter; cbn [Ascii.eqb Bool.eqb andb orb]; try discriminate.
  all: intros H; case_int; solve [reflexivity | discriminate H].
Qed.

Lemma pass1_statement_supported letter value gc lv :
  unsupported (letter, value) = false ->
  status_code (fst (pass1_statement letter value gc lv)) = status_code gc.
Proof.
  unfold unsupported, pass1_statement. fold (int_value_of value).
  generalize (int_value_of value). intros n.
  case_letter letter; cbn [Ascii.eqb Bool.eqb andb orb]; try reflexivity;
    intros H; case_int; solve [reflexivity | discriminate H].
Qed.

(** Pass 1 stops at the first unsupported statement, with what the
    statements before it have changed. *)
Lemma pass1_list_unsupported (pre : list (ascii * double)) s post e :
  forallb (fun s => negb (unsupported s)) pre = true ->
  unsupported s = true ->
  forall gc lv,
    status_code gc = GCSTATUS_OK ->
    pass1_list (pre ++ s :: post) e gc lv =
    (FAIL GCSTATUS_UNSUPPORTED_STATEMENT (fst (pass1_effects pre gc lv)),
     snd (pass1_effects pre gc lv)).
Proof.
  intros Hpre Hs.
  induction pre as [|[letter value] pre IH]; intros gc lv Hok.
  - destruct s as [letter value]. cbn [app pass1_list].
    rewrite (pass1_statement_unsupported _ _ _ _ Hs). reflexivity.
  - cbn [forallb] in Hpre. apply andb_true_iff in Hpre as [Hsup Hpre].
    apply negb_true_iff in Hsup.
    cbn [app pass1_list pass1_effects].
    pose proof (pass1_statement_supported letter value gc lv Hsup) as Hst.
    destruct (pass1_statement letter value gc lv) as [gc1 lv1].
    cbn [fst snd] in *. rewrite Hst, Hok. cbn [nonzero].
    apply IH; [exact Hpre|congruence].
Qed.

(** A line with a first statement is no comment and no settings line. *)
Lemma first_statement_plain (strtod : string -> double * nat)
    (textline : string) (ss : list (ascii * double)) (e : scan_stop) :
  ss <> [] ->
  line_statements strtod textline (pass1_start textline) = (ss, e) ->
  forall c, not_upper c = true -> is_char c NUL = false ->
       is_char c "/" = false ->
       is_char (char_at textline 0) c = false.
Proof.
  intros Hne Hss c Hup Hnul Hbd.
  destruct (is_char (char_at textline 0) c) eqn:Hc; [|reflexivity].
  apply is_char_eq in Hc. exfalso. apply Hne.
  unfold pass1_start, line_statements in Hss. rewrite Hc, Hbd in Hss.
  cbn [statements] in Hss.
  rewrite scan_rejects in Hss by (rewrite Hc; assumption).
  congruence.
Qed.

(** C8.  When the statements of a line, read as pass 1 reads them (from
    the first character, or from the second after a block delete
    character), have recognised codes up to some G or M statement that
    has not, [gc_execute_line] returns [GCSTATUS_UNSUPPORTED_STATEMENT],
    calls no collaborator, and leaves the modal state as the earlier
    statements of the line have changed it: nothing is rolled back. *)
Theorem unsupported_statement_aborts (strtod : string -> double * nat)
    (textline : string) (gc : ParserState)
    (pre : list (ascii * double)) (s : ascii * double)
    (post : list (ascii * double)) (e : scan_stop) :
  line_statements strtod textline (pass1_start textline)
  = (pre ++ s :: post, e) ->
  forallb (fun s => negb (unsupported s)) pre = true ->
  unsupported s = true ->
  gc_execute_line strtod textline gc =
  (GCSTATUS_UNSUPPORTED_STATEMENT,
   FAIL GCSTATUS_UNSUPPORTED_STATEMENT
     (fst (pass1_effects pre (set_status_code GCSTATUS_OK gc) locals_init)),
   []).
Proof.
  intros Hss Hpre Hs.
  assert (Hne : pre ++ s :: post <> []) by (destruct pre; discriminate).
  pose proof (first_statement_plain strtod textline _ e Hne Hss) as Hplain.
  unfold gc_execute_line, parse_line, settings_line.
  rewrite !Hplain by reflexivity.
  fold (pass1_start textline).
  rewrite pass1_statements.
  fold (line_statements strtod textline (pass1_start textline)).
  rewrite Hss.
  rewrite (pass1_list_unsupported pre s post e Hpre Hs) by reflexivity.
  reflexivity.
Qed.

(** An instance: [G91M3G5X1], after which relative mode and the spindle
    direction stay set. *)
Lemma unsupported_statement_aborts_witness :
  gc_execute_line strtod_c "G91M3G5X1" gc_start =
  (GCSTATUS_UNSUPPORTED_STATEMENT,
   FAIL GCSTATUS_UNSUPPORTED_STATEMENT
     (set_spindle_direction 1 (set_absolute_mode false gc_start)),
   []).
Proof.
  refine (eq_trans
            (unsupported_statement_aborts strtod_c "G91M3G5X1" gc_start
               [("G"%char, Fin 91); ("M"%char, Fin 3)] ("G"%char, Fin 5)
               [("X"%char, Fin 1)] end_of_line _ _ _) _).
  - run. reflexivity.
  - run. reflexivity.
  - run. reflexivity.
  - run. reflexivity.
Defined.

(** A list with an unsupported statement has a first one. *)
Lemma first_unsupported (ss : list (ascii * double)) :
  existsb unsupported ss = true ->
  exists pre s post,
    ss = pre ++ s :: post /\
    forallb (fun s => negb (unsupported s)) pre = true /\
    unsupported s = true.
Proof.
  induction ss as [|s ss IH]; cbn [existsb]; [discriminate|].
  destruct (unsupported s) eqn:Hs.
  - intros _. exists [], s, ss. auto.
  - cbn [orb]. intros H. destruct (IH H) as (pre & s' & post & -> & Hpre & Hs').
    exists (s :: pre), s', post. cbn [forallb app]. rewrite Hs, Hpre. auto.
Qed.

(** Wherever the unsupported statement stands among the statements of
    the line, the line is rejected and nothing is dispatched. *)
Corollary unsupported_statement_anywhere (strtod : string -> double * nat)
    (textline : string) (gc : ParserState)
    (ss : list (ascii * double)) (e : scan_stop) :
  line_statements strtod textline (pass1_start textline) = (ss, e) ->
  existsb unsupported ss = true ->
  returned (gc_execute_line strtod textline gc)
  = GCSTATUS_UNSUPPORTED_STATEMENT /\
  calls (gc_execute_line strtod textline gc) = [].
Proof.
  intros Hss Hex.
  destruct (first_unsupported ss Hex) as (pre & s & post & -> & Hpre & Hs).
  assert (Hne : pre ++ s :: post <> []) by (destruct pre; discriminate).
  pose proof (first_statement_plain strtod textline _ e Hne Hss) as Hplain.
  unfold gc_execute_line, parse_line, settings_line.
  rewrite !Hplain by reflexivity.
  fold (pass1_start textline).
  rewrite pass1_statements.
  fold (line_statements strtod textline (pass1_start textline)).
  rewrite Hss.
  rewrite (pass1_list_unsupported pre s post e Hpre Hs) by reflexivity.
  split; reflexivity.
Qed.

(* ================================================================== *)
(** ** Lines of straight moves                                         *)
(* ================================================================== *)

Lemma is_axis_word_letter s :
  is_axis_word s = true -> exists a, fst s = axis_letter a.
Proof.
  unfold is_axis_word. intros H.
  apply orb_true_iff in H as [H|H]; [apply orb_true_iff in H as [H|H]|];
    apply Ascii.eqb_eq in H;
    [exists X_AXIS|exists Y_AXIS|exists Z_AXIS]; exact H.
Qed.

Lemma pass1_statement_axis a value gc lv :
  pass1_statement (axis_letter a) value gc lv = (gc, lv).
Proof. destruct a; reflexivity. Qed.

Lemma pass2_statement_axis a value gc lv :
  pass2_statement (axis_letter a) value gc lv =
  (gc,
   set_target
     (vset (target lv) a
        (if absolute_mode gc || absolute_override lv
         then to_millimeters gc value
         else (vget (target lv) a + to_millimeters gc value)%D)) lv).
Proof.
  destruct a; unfold pass2_statement; cbn [axis_letter];
    destruct (absolute_mode gc || absolute_override lv); reflexivity.
Qed.

Lemma pass1_statement_linear s gc lv :
  linear_move_statement s = true ->
  same_modes gc (fst (pass1_statement (fst s) (snd s) gc lv)) /\
  snd (pass1_statement (fst s) (snd s) gc lv) =
  (if is_G 53 s then set_absolute_override true lv else lv).
Proof.
  destruct s as [letter value]. unfold linear_move_statement. cbn [fst snd].
  intros H.
  destruct (is_axis_word (letter, value)) eqn:Hax.
  { apply is_axis_word_letter in Hax as [a Ha]. cbn [fst] in Ha. subst letter.
    rewrite pass1_statement_axis. unfold is_G. cbn [fst snd].
    destruct a; cbn; repeat split; reflexivity. }
  rewrite orb_false_r in H. unfold is_G in *. cbn [fst snd] in *.
  destruct (Ascii.eqb letter "G") eqn:HG; [|discriminate H].
  apply Ascii.eqb_eq in HG. subst letter. cbn [andb] in *.
  unfold pass1_statement. fold (int_value_of value).
  destruct (Z.eqb_spec (int_value_of value) 53) as [->|H53].
  { repeat split; reflexivity. }
  destruct (Z.eqb_spec (int_value_of value) 0) as [->|H0].
  { repeat split; reflexivity. }
  destruct (Z.eqb_spec (int_value_of value) 1) as [->|H1].
  { repeat split; reflexivity. }
  discriminate H.
Qed.

Lemma pass1_list_linear ss :
  forallb linear_move_statement ss = true ->
  forall gc lv,
    status_code gc = GCSTATUS_OK ->
    same_modes gc (fst (pass1_list ss end_of_line gc lv)) /\
    snd (pass1_list ss end_of_line gc lv) =
    (if existsb (is_G 53) ss then set_absolute_override true lv else lv).
Proof.
  induction ss as [|s ss IH]; intros Hall gc lv Hok.
  - cbn. repeat split; reflexivity.
  - cbn [forallb] in Hall. apply andb_true_iff in Hall as [Hs Hall].
    destruct (pass1_statement_linear s gc lv Hs) as [(H1 & H2 & H3 & H4) Hlv].
    destruct s as [letter value]. cbn [fst snd] in *.
    cbn [pass1_list existsb].
    destruct (pass1_statement letter value gc lv) as [gc1 lv1].
    cbn [fst snd] in *. rewrite H1, Hok. cbn [nonzero].
    destruct (IH Hall gc1 lv1 ltac:(congruence)) as [(K1 & K2 & K3 & K4) Klv].
    split.
    + unfold same_modes. rewrite K1, K2, K3, K4. auto.
    + rewrite Klv, Hlv.
      destruct (is_G 53 (letter, value)), (existsb (is_G 53) ss); reflexivity.
Qed.

Lemma pass2_list_linear ss :
  forallb linear_move_statement ss = true ->
  forall gc lv,
    pass2_list ss end_of_line gc lv =
    (gc, set_target
           (moved (absolute_mode gc || absolute_override lv) gc ss (target lv))
           lv).
Proof.
  induction ss as [|s ss IH]; intros Hall gc lv.
  - cbn. destruct lv; reflexivity.
  - cbn [forallb] in Hall. apply andb_true_iff in Hall as [Hs Hall].
    destruct s as [letter value]. cbn [pass2_list moved].
    unfold linear_move_statement in Hs.
    destruct (is_axis_word (letter, value)) eqn:Hax.
    + apply is_axis_word_letter in Hax as [a Ha]. cbn [fst] in Ha. subst letter.
      rewrite pass2_statement_axis, IH by exact Hall.
      destruct a; reflexivity.
    + rewrite orb_false_r in Hs.
      assert (HG : letter = "G"%char).
      { unfold is_G in Hs. cbn [fst snd] in Hs.
        destruct (Ascii.eqb_spec letter "G"); [assumption|discriminate Hs]. }
      subst letter. cbn [Ascii.eqb Bool.eqb].
      change (pass2_statement "G" value gc lv) with (gc, lv).
      apply IH, Hall.
Qed.

(** Along each axis, [moved] leaves the component alone without a word
    and applies the one word there is. *)
Lemma moved_axis absolute gc (a : axis) ss :
  forall t,
    (List.length (word_values a ss) <= 1)%nat ->
    vget (moved absolute gc ss t) a =
    match word_values a ss with
    | [] => vget t a
    | value :: _ =>
        if absolute then to_millimeters gc value
        else (vget t a + to_millimeters gc value)%D
    end.
Proof.
  unfold word_values.
  induction ss as [|[letter value] ss IH]; intros t Hone.
  - reflexivity.
  - cbn [moved filter map fst snd] in *.
    destruct (Ascii.eqb letter (axis_letter a)) eqn:Hl.
    + apply Ascii.eqb_eq in Hl. subst letter.
      cbn [map List.length snd] in Hone.
      destruct (map snd (filter _ ss)) eqn:Hrest; [|cbn in Hone; lia].
      rewrite IH by (cbn; lia). cbn [map snd].
      destruct a; cbn [axis_letter Ascii.eqb Bool.eqb];
        destruct absolute; reflexivity.
    + match goal with
      | |- vget (moved _ _ _ ?t') _ = _ => assert (Ht' : vget t' a = vget t a)
      end.
      { assert (Hkeep :
          forall b x, letter = axis_letter b -> vget (vset t b x) a = vget t a).
        { intros b x Hb. apply vget_vset_other. intros ->.
          rewrite Hb, Ascii.eqb_refl in Hl. discriminate. }
        destruct (Ascii.eqb_spec letter "X");
          [apply (Hkeep X_AXIS); assumption|].
        destruct (Ascii.eqb_spec letter "Y");
          [apply (Hkeep Y_AXIS); assumption|].
        destruct (Ascii.eqb_spec letter "Z");
          [apply (Hkeep Z_AXIS); assumption|reflexivity]. }
      rewrite IH by exact Hone. rewrite Ht'. reflexivity.
Qed.

Section LinearMoves.

Variable strtod : string -> double * nat.

(** A line whose scan from its first character ends well starts with
    no comment, block delete or settings character. *)
Lemma scanned_line_plain textline ss :
  line_statements strtod textline 0 = (ss, end_of_line) ->
  forall c, not_upper c = true -> is_char c NUL = false ->
       is_char (char_at textline 0) c = false.
Proof.
  unfold line_statements. cbn [statements]. intros Hss c Hc Hnul.
  destruct (is_char (char_at textline 0) c) eqn:Heq; [|reflexivity].
  apply is_char_eq in Heq.
  rewrite scan_rejects in Hss by (rewrite Heq; assumption).
  discriminate.
Qed.

(** C6.  On a line that scans to its end into G0, G1, G53 and X, Y, Z
    statements only, with at most one word for each axis,
    [gc_execute_line] returns [GCSTATUS_OK] and the position it commits
    is, for each axis, the one the positioning mode resolves: the
    converted value of the word in absolute mode or under G53, the
    position before the call plus the converted value in relative
    mode, the position before the call for an axis without a word. *)
Theorem linear_move_target (textline : string) (gc : ParserState)
    (ss : list (ascii * double)) :
  line_statements strtod textline 0 = (ss, end_of_line) ->
  forallb linear_move_statement ss = true ->
  (forall a, (List.length (word_values a ss) <= 1)%nat) ->
  let res := gc_execute_line strtod textline gc in
  returned res = GCSTATUS_OK /\
  forall a, vget (position (state_after res)) a = resolved gc ss a.
Proof.
  intros Hss Hall Hone. cbv zeta.
  unfold gc_execute_line, parse_line, settings_line.
  rewrite !(scanned_line_plain textline ss Hss) by reflexivity.
  unfold line_statements in Hss.
  rewrite pass1_statements, Hss.
  set (gc0 := set_status_code GCSTATUS_OK gc).
  destruct (pass1_list_linear ss Hall gc0 locals_init eq_refl)
    as [(H1 & H2 & H3 & H4) Hlv].
  destruct (pass1_list ss end_of_line gc0 locals_init) as [gc1 lv1].
  cbn [fst snd] in *. rewrite H1. cbn [gc0 status_code set_status_code nonzero].
  rewrite pass2_statements, Hss.
  rewrite (pass2_list_linear ss Hall). rewrite H1.
  cbn [gc0 status_code set_status_code nonzero].
  set (lv2 := set_target _ _).
  destruct (dispatch_cases gc1 lv2 []) as [[actions ->]|[_ (_ & _ & Hrm & _)]].
  - unfold returned, state_after. cbn [fst snd position set_position].
    split; [exact H1|].
    intros a. unfold lv2. cbn [target set_target set_offset].
    rewrite moved_axis by apply Hone.
    unfold resolved, to_millimeters. rewrite H2, H3, H4, Hlv.
    cbn [gc0 position inches_mode absolute_mode set_status_code].
    destruct (word_values a ss); [reflexivity|].
    destruct (existsb (is_G 53) ss); reflexivity.
  - exfalso. unfold lv2 in Hrm. rewrite Hlv in Hrm. cbn in Hrm.
    destruct (existsb (is_G 53) ss); discriminate.
Qed.

End LinearMoves.

(* ================================================================== *)
(** ** Evaluation on concrete lines                                    *)
(* ================================================================== *)

(** The three arcs by radius of the examples, after the two passes. *)
Lemma radius_arc_R5 :
  radius_arc strtod_c "G2X10Y0R5" gc_start arc_state (arc_locals (Fin 5)).
Proof. unfold radius_arc. repeat split; try (left; reflexivity). run. reflexivity. Qed.


Lemma radius_arc_R1 :
  radius_arc strtod_c "G2X10Y0R1" gc_start arc_state (arc_locals (Fin 1)).
Proof. unfold radius_arc. repeat split; try (left; reflexivity). run. reflexivity. Qed.





Lemma run_G2X10Y0R1 :
  gc_execute_line strtod_c "G2X10Y0R1" gc_start =
  (GCSTATUS_FLOATING_POINT_ERROR,
   FAIL GCSTATUS_FLOATING_POINT_ERROR arc_state, [spindle_stop]).
Proof.
  unfold gc_execute_line.
  destruct radius_arc_R1 as (-> & _). unfold dispatch.
  cbn [next_action arc_locals motion_mode arc_state set_motion_mode
       radius_mode].
  rewrite (radius_too_short arc_state (arc_locals (Fin 1))
             1 (10 - 0) (0 - 0) eq_refl eq_refl eq_refl) by lra.
  reflexivity.
Qed.



(** An instance: [G1X], which fails with a bad number format. *)
Lemma position_unchanged_on_error_witness :
  position (state_after (gc_execute_line strtod_c "G1X" gc_start))
  = position gc_start.
Proof.
  apply position_unchanged_on_error.
  run. right; left; reflexivity.
Defined.


(** *** The witnesses of the arc theorems *)

(** An instance: [G2X10Y0R5] from [gc_start]. *)
Lemma radius_mode_centre_witness :
  gc_execute_line strtod_c "G2X10Y0R5" gc_start =
  (let x := plane_x arc_state (arc_locals (Fin 5)) in
   let y := plane_y arc_state (arc_locals (Fin 5)) in
   let h := h_x2_div_d_spec false (Fin 5) x y in
   if Libm.isnan h
   then (GCSTATUS_FLOATING_POINT_ERROR,
         FAIL GCSTATUS_FLOATING_POINT_ERROR arc_state, [spindle_stop])
   else (GCSTATUS_OK, set_position (target (arc_locals (Fin 5))) arc_state,
         spindle_stop
         :: trace_arc arc_state (arc_locals (Fin 5))
              (vset (vset clear_vector X_AXIS (offset_0_spec x y h))
                    Y_AXIS (offset_1_spec x y h)))).
Proof.
  exact (radius_mode_centre strtod_c "G2X10Y0R5" gc_start arc_state
           (arc_locals (Fin 5)) radius_arc_R5).
Defined.

Lemma run_G2X10Y0 :
  gc_execute_line strtod_c "G2X10Y0" gc_start =
  (GCSTATUS_OK, set_position (mkvec (Fin 10) (Fin 0) (Fin 0)) arc_state,
   spindle_stop :: trace_arc arc_state (centre_locals (Fin 0)) clear_vector).
Proof. unfold gc_execute_line. run. reflexivity. Qed.

Lemma run_G2X10Y0I5J0 :
  gc_execute_line strtod_c "G2X10Y0I5J0" gc_start =
  (GCSTATUS_OK, set_position (mkvec (Fin 10) (Fin 0) (Fin 0)) arc_state,
   spindle_stop
   :: trace_arc arc_state (centre_locals (Fin 5)) (mkvec (Fin 5) (Fin 0) (Fin 0))).
Proof. unfold gc_execute_line. run. reflexivity. Qed.

(** C5 as stated fails where the centre of the arc is the current
    position: [G2X10Y0] has no offset and no radius, the start angle is
    [theta(-0, -0)], which is NaN, and so is the angular travel. *)
Lemma travel_sign_rule_degenerate :
  ~ travel_sign_rule strtod_c "G2X10Y0" gc_start.
Proof.
  unfold travel_sign_rule. cbv zeta. rewrite run_G2X10Y0.
  unfold calls, state_after, trace_arc. cbn [fst snd].
  intros H.
  destruct (H _ _ _ _ _ _ _ _ _ (or_intror (or_introl eq_refl)))
    as [Hcw _].
  specialize (Hcw eq_refl). revert Hcw.
  cbn [vget clear_vector plane_axis_0 plane_axis_1 arc_state set_motion_mode
       gc_start gc_init set_absolute_mode select_plane v0 v1 dneg].
  rewrite Ropp_0, theta_origin, angular_travel_NaN_l.
  intros [].
Qed.

(** An instance: the arc call of [G2X10Y0I5J0] from [gc_start]. *)
Lemma arc_travel_sign_witness :
  let res := gc_execute_line strtod_c "G2X10Y0I5J0" gc_start in
  let mode := motion_mode (state_after res) in
  let ts := theta (- Fin 5)%D (- Fin 0)%D in
  let travel :=
    angular_travel_of MOTION_MODE_CW_ARC ts
      (theta (Fin 10 - Fin 5 - Fin 0)%D (Fin 0 - Fin 0 - Fin 0)%D) in
  (mode = MOTION_MODE_CW_ARC \/ mode = MOTION_MODE_CCW_ARC) /\
  exists off : vector,
    let te :=
      theta (vget (position (state_after res)) X_AXIS - vget off X_AXIS
             - vget (position gc_start) X_AXIS)%D
            (vget (position (state_after res)) Y_AXIS - vget off Y_AXIS
             - vget (position gc_start) Y_AXIS)%D in
    let cw :=
      ((if (te <? ts)%D then te + dint 2 * M_PI else te) - ts)%D in
    ts = theta (- vget off X_AXIS)%D (- vget off Y_AXIS)%D /\
    Libm.hypot (Fin 5) (Fin 0) = Libm.hypot (vget off X_AXIS) (vget off Y_AXIS)
    /\
    travel = (if is_ccw mode then cw - dint 2 * M_PI else cw)%D /\
    (((ts = NaN \/ te = NaN) /\ cw = NaN) \/
     (exists s e c, ts = Fin s /\ te = Fin e /\ cw = Fin c /\ 0 <= c)).
Proof.
  cbv zeta.
  eapply (arc_travel_sign strtod_c "G2X10Y0I5J0" gc_start).
  rewrite run_G2X10Y0I5J0. right. left. reflexivity.
Defined.

(** The scenario of the spec: [G2X10Y0I5J0] from the origin is half a
    turn clockwise, of radius 5, from the angle [-PI/2]. *)
Example half_turn :
  calls (gc_execute_line strtod_c "G2X10Y0I5J0" gc_start) =
  [ spindle_stop;
    mc_arc (Fin (- (PI / 2))) (Fin PI) (Fin 5) (Fin 0) X_AXIS Y_AXIS Z_AXIS
      (feed_rate gc_start) false;
    mc_line (Fin 10) (Fin 0) (Fin 0) (feed_rate gc_start) false ].
Proof.
  pose proof PI_RGT_0 as Hpi.
  rewrite run_G2X10Y0I5J0. unfold calls, trace_arc. cbn [snd].
  assert (Hs : theta (- Fin 5)%D (- Fin 0)%D = Fin (- (PI / 2))).
  { unfold theta, M_PI. cbn [dneg Libm.fabs ddiv]. rewrite Ropp_0, Rabs_R0.
    unfold inf_signed. decide_reals; try lra.
    cbn [Libm.atan dgt dlt dsub dadd dneg]. decide_reals; try lra.
    f_equal. lra. }
  assert (He : theta (Fin 10 - Fin 5 - Fin 0)%D (Fin 0 - Fin 0 - Fin 0)%D
               = Fin (PI / 2)).
  { unfold theta, M_PI. cbn [dneg dsub dadd Libm.fabs ddiv].
    replace (0 + - 0 + - 0) with 0 by lra. rewrite Rabs_R0.
    unfold inf_signed. decide_reals; try lra.
    cbn [Libm.atan dgt dlt dsub dadd dneg]. decide_reals; try lra.
    f_equal. lra. }
  cbn [vget plane_axis_0 plane_axis_1 plane_axis_2 arc_state set_motion_mode
       gc_start gc_init set_absolute_mode select_plane v0 v1 v2 target position
       centre_locals clear_vector motion_mode].
  rewrite Hs, He.
  unfold angular_travel_of, M_PI, dint. cbn [dlt is_ccw dsub dadd dneg dmul].
  decide_reals; try lra.
  cbn [Libm.hypot dsub dadd dneg].
  replace (5 * 5 + 0 * 0) with (5 * 5) by ring. rewrite sqrt_square by lra.
  repeat f_equal; try reflexivity; lra.
Qed.

(** Between two ends that coincide, the radius gives no centre: for
    [G2R1] from the origin [h_x2_div_d] is [-2/0], an infinity and not
    NaN, the offsets [(0 - 0 * h)/2] are NaN, and the arc is dispatched
    with a descriptor that is NaN. *)
Example zero_distance_arc :
  calls (gc_execute_line strtod_c "G2R1" gc_start) =
  [ spindle_stop;
    mc_arc NaN NaN NaN (Fin 0) X_AXIS Y_AXIS Z_AXIS (feed_rate gc_start) false;
    mc_line (Fin 0) (Fin 0) (Fin 0) (feed_rate gc_start) false ].
Proof.
  assert (Hoff :
    radius_to_offset arc_state
      (mklocals (Fin (-1)) true false NEXT_ACTION_DEFAULT
         clear_vector clear_vector (Fin 0) (Fin 1))
    = Some (mkvec NaN NaN (Fin 0))).
  { unfold radius_to_offset.
    cbn [vget target position plane_axis_0 plane_axis_1 arc_state
         set_motion_mode gc_start gc_init set_absolute_mode select_plane
         clear_vector v0 v1 r motion_mode is_ccw dint dmul dsub dadd dneg].
    rewrite sqrt_Fin by lra. cbn [dneg Libm.hypot ddiv].
    replace ((0 + - 0) * (0 + - 0) + (0 + - 0) * (0 + - 0)) with 0 by ring.
    rewrite sqrt_0. unfold inf_signed.
    pose proof (sqrt_lt_R0 (4 * 1 * 1 + - ((0 + - 0) * (0 + - 0))
                            + - ((0 + - 0) * (0 + - 0)))) as Hsq.
    decide_reals; try lra.
    cbn [Libm.isnan dlt]. decide_reals; try lra.
    cbn [dmul dsub dadd dneg ddiv vset v0 v1 v2]. unfold inf_signed.
    decide_reals; try lra. reflexivity. }
  unfold gc_execute_line. run.
  change (radius_to_offset _ _) with
    (radius_to_offset arc_state
       (mklocals (Fin (-1)) true false NEXT_ACTION_DEFAULT
          clear_vector clear_vector (Fin 0) (Fin 1))).
  rewrite Hoff. unfold trace_arc.
  cbn [vget v0 v1 v2 plane_axis_0 plane_axis_1 plane_axis_2 target position
       dneg dsub dadd theta Libm.fabs ddiv Libm.atan dgt dlt Libm.hypot].
  rewrite angular_travel_NaN_l.
  repeat f_equal. lra.
Qed.

(** *** Straight moves and units on concrete lines *)


(** An instance: [G1X10Y-2.5] in relative mode. *)
Lemma linear_move_target_witness :
  let res := gc_execute_line strtod_c "G1X10Y-2.5" relative_state in
  returned res = GCSTATUS_OK /\
  forall a,
    vget (position (state_after res)) a =
    resolved relative_state
      [("G"%char, Fin 1); ("X"%char, Fin 10); ("Y"%char, Fin (-25 / 10))] a.
Proof.
  apply (linear_move_target strtod_c "G1X10Y-2.5" relative_state).
  - run. reflexivity.
  - run. reflexivity.
  - intros a. destruct a; cbn; lia.
Defined.

(** The scenario of the spec: [G1X10Y0F300] from the origin is one
    straight move to (10, 0, 0) at 300/60 units per second. *)
Example straight_move :
  gc_execute_line strtod_c "G1X10Y0F300" gc_start =
  (GCSTATUS_OK,
   set_position (mkvec (Fin 10) (Fin 0) (Fin 0))
     (set_feed_rate (Fin 5) (set_motion_mode MOTION_MODE_LINEAR gc_start)),
   [spindle_stop; mc_line (Fin 10) (Fin 0) (Fin 0) (Fin 5) false]).
Proof.
  assert (H5 : (Fin 300 / Fin 60)%D = Fin 5).
  { rewrite ddiv_Fin by lra. f_equal. lra. }
  unfold gc_execute_line. run. rewrite H5. reflexivity.
Qed.

(** The three lines of the unit scenario, one after the other. *)
Lemma run_G20 :
  gc_execute_line strtod_c "G20" gc_start =
  (GCSTATUS_OK, set_inches_mode true gc_start,
   [spindle_stop; mc_line (Fin 0) (Fin 0) (Fin 0) (feed_rate gc_start) false]).
Proof. unfold gc_execute_line. run. reflexivity. Qed.

Lemma run_X1_inches :
  gc_execute_line strtod_c "X1" (set_inches_mode true gc_start) =
  (GCSTATUS_OK,
   set_position (mkvec (Fin 1 * INCHES_PER_MM)%D (Fin 0) (Fin 0))
     (set_inches_mode true gc_start),
   [spindle_stop;
    mc_line (Fin 1 * INCHES_PER_MM)%D (Fin 0) (Fin 0) (feed_rate gc_start) false]).
Proof. unfold gc_execute_line. run. reflexivity. Qed.

Lemma run_G21 (x : double) :
  state_after
    (gc_execute_line strtod_c "G21"
       (set_position (mkvec x (Fin 0) (Fin 0)) (set_inches_mode true gc_start)))
  = set_position (mkvec x (Fin 0) (Fin 0)) gc_start.
Proof. unfold gc_execute_line. run. reflexivity. Qed.

(** C7.  From the start state (absolute mode, position 0), after the
    line [G20] and the line [X1] the position along X is 25.4, and it
    still is after [G21]; it is not 1.  [to_millimeters] multiplies a
    value by the factor, once, in inches mode and returns it unchanged in
    millimeter mode. *)
Theorem inches_to_millimeters :
  let gc1 := state_after (gc_execute_line strtod_c "G20" gc_start) in
  let gc2 := state_after (gc_execute_line strtod_c "X1" gc1) in
  let gc3 := state_after (gc_execute_line strtod_c "G21" gc2) in
  vget (position gc2) X_AXIS = Fin (254 / 10) /\
  vget (position gc3) X_AXIS = Fin (254 / 10) /\
  vget (position gc3) X_AXIS <> Fin 1 /\
  (forall gc v,
      to_millimeters gc (Fin v) =
      Fin (if inches_mode gc then v * (254 / 10) else v)).
Proof.
  cbv zeta. rewrite run_G20. cbn [state_after fst snd].
  rewrite run_X1_inches. cbn [state_after fst snd].
  rewrite run_G21. cbn [position set_position vget v0].
  assert (H : (Fin 1 * INCHES_PER_MM)%D = Fin (254 / 10)).
  { unfold INCHES_PER_MM. cbn [dmul]. f_equal. lra. }
  rewrite H. repeat split.
  - intros [= Heq]. lra.
  - intros gc v. unfold to_millimeters, INCHES_PER_MM.
    destruct (inches_mode gc); reflexivity.
Qed.

(* ================================================================== *)
(** ** Block delete and settings lines                                 *)
(* ================================================================== *)

Lemma nonzero_true s : nonzero s = true -> s <> GCSTATUS_OK.
Proof. destruct s; simpl; congruence. Qed.

(** Every line that starts with the block delete character is rejected:
    pass 1 starts after the character, pass 2 restarts on it. *)
Lemma block_delete_rejected (strtod : string -> double * nat)
    (textline : string) (gc : ParserState) :
  is_char (char_at textline 0) "/" = true ->
  let res := gc_execute_line strtod textline gc in
  returned res <> GCSTATUS_OK /\ calls res = [].
Proof.
  intros Hbd. apply is_char_eq in Hbd. cbv zeta.
  unfold gc_execute_line, parse_line, settings_line. rewrite Hbd.
  cbn [is_char Ascii.eqb Bool.eqb].
  destruct (pass1 _ _ _ _ _ _) as [gc1 lv1].
  destruct (nonzero (status_code gc1)) eqn:Hnz.
  - split; [apply nonzero_true, Hnz|reflexivity].
  - rewrite pass2_rejects by (rewrite Hbd; reflexivity).
    cbn. split; [discriminate|reflexivity].
Qed.

(** C9, on the code.  [/G1X10] is not interpreted as [G1X10] is: the
    line without the block delete character moves to X10 and returns
    [GCSTATUS_OK]; the line with it sets the motion mode in pass 1, is
    rejected by pass 2 with [GCSTATUS_EXPECTED_COMMAND_LETTER] and
    moves nothing. *)
Theorem block_delete_line_differs :
  gc_execute_line strtod_c "G1X10" gc_start =
  (GCSTATUS_OK,
   set_position (mkvec (Fin 10) (Fin 0) (Fin 0))
     (set_motion_mode MOTION_MODE_LINEAR gc_start),
   [spindle_stop; mc_line (Fin 10) (Fin 0) (Fin 0) (feed_rate gc_start) false])
  /\ gc_execute_line strtod_c "/G1X10" gc_start =
     (GCSTATUS_EXPECTED_COMMAND_LETTER,
      FAIL GCSTATUS_EXPECTED_COMMAND_LETTER
        (set_motion_mode MOTION_MODE_LINEAR gc_start),
      []).
Proof. split; unfold gc_execute_line; run; reflexivity. Qed.

(** A settings line [$<index>=<value>] stores the setting and then
    falls into the two passes: pass 1 finds the end of the line, pass 2
    restarts on the [$] and rejects it. *)
Lemma settings_line_falls_through (strtod : string -> double * nat)
    (textline : string) (gc : ParserState)
    (index value : double) (n1 n2 : nat) :
  is_char (char_at textline 0) "$" = true ->
  is_char (char_at textline 1) NUL = false ->
  strtod (text_from textline 1) = (index, S n1) ->
  is_char (char_at textline (1 + S n1)) "=" = true ->
  strtod (text_from textline (S (1 + S n1))) = (value, S n2) ->
  is_char (char_at textline (S (1 + S n1) + S n2)) NUL = true ->
  gc_execute_line strtod textline gc =
  (GCSTATUS_EXPECTED_COMMAND_LETTER,
   FAIL GCSTATUS_EXPECTED_COMMAND_LETTER (set_status_code GCSTATUS_OK gc),
   [store_setting index value]).
Proof.
  intros Hd Hn1 Hp Heq Hv Hend.
  pose proof (is_char_eq _ _ Hd) as Hd'.
  assert (Hc : is_char (char_at textline 0) "(" = false)
    by (rewrite Hd'; reflexivity).
  assert (Hb : is_char (char_at textline 0) "/" = false)
    by (rewrite Hd'; reflexivity).
  unfold gc_execute_line, parse_line, settings_line, read_double.
  rewrite Hc, Hb, Hd, Hn1, Hp. cbn [Nat.eqb]. rewrite Heq. cbn [negb].
  rewrite Hv. cbn [Nat.eqb]. rewrite Hend. cbn [negb].
  rewrite pass1_statements. cbn [statements]. unfold scan at 1.
  rewrite Hend. cbn [pass1_list stop_gc status_code set_status_code nonzero].
  rewrite pass2_rejects by (rewrite Hd'; reflexivity).
  reflexivity.
Qed.

(** C10, on the code.  The well-formed settings line [$4=374.3] calls
    [store_setting(4, 374.3)] once and then returns
    [GCSTATUS_EXPECTED_COMMAND_LETTER], not [GCSTATUS_OK]; the bare [$]
    calls [dump_settings()] and returns [GCSTATUS_OK]. *)
Theorem settings_line_returns_error :
  gc_execute_line strtod_c "$4=374.3" gc_start =
  (GCSTATUS_EXPECTED_COMMAND_LETTER,
   FAIL GCSTATUS_EXPECTED_COMMAND_LETTER gc_start,
   [store_setting (Fin 4) (Fin (3743 / 10))])
  /\ gc_execute_line strtod_c "$" gc_start =
     (GCSTATUS_OK, gc_start, [dump_settings]).
Proof. split; unfold gc_execute_line; run; reflexivity. Qed.

Example settings_line_falls_through_example :
  gc_execute_line strtod_c "$4=374.3" gc_start =
  (GCSTATUS_EXPECTED_COMMAND_LETTER,
   FAIL GCSTATUS_EXPECTED_COMMAND_LETTER (set_status_code GCSTATUS_OK gc_start),
   [store_setting (Fin 4) (Fin (3743 / 10))]).
Proof.
  apply (settings_line_falls_through strtod_c "$4=374.3" gc_start
           (Fin 4) (Fin (3743 / 10)) 0 4); reflexivity.
Qed.

(* ################################################################## *)
(** * Further properties of the code                                   *)
(* ################################################################## *)

(* ================================================================== *)
(** ** [theta] is the angle from the positive y axis                   *)
(* ================================================================== *)

Lemma hypot_atan (a b : R) :
  b <> 0 ->
  sqrt (a * a + b * b) * sin (atan (a / Rabs b)) = a /\
  sqrt (a * a + b * b) * cos (atan (a / Rabs b)) = Rabs b.
Proof.
  intros Hb.
  assert (Hab : 0 < Rabs b) by (apply Rabs_pos_lt; exact Hb).
  assert (Hbb : Rabs b * Rabs b = b * b).
  { fold (Rsqr (Rabs b)). rewrite <- Rsqr_abs. reflexivity. }
  assert (Hpos : 0 < a * a + b * b) by nra.
  pose proof (sqrt_lt_R0 _ Hpos) as Hrho.
  assert (Hroot : sqrt (1 + Rsqr (a / Rabs b)) = sqrt (a * a + b * b) / Rabs b).
  { apply sqrt_lem_1.
    - unfold Rsqr. nra.
    - apply Rlt_le, Rdiv_lt_0_compat; assumption.
    - assert (Hr2 : sqrt (a * a + b * b) * sqrt (a * a + b * b)
                    = a * a + Rabs b * Rabs b)
        by (rewrite Hbb; apply sqrt_sqrt; lra).
      unfold Rsqr.
      replace (sqrt (a * a + b * b) / Rabs b * (sqrt (a * a + b * b) / Rabs b))
        with (sqrt (a * a + b * b) * sqrt (a * a + b * b)
              / (Rabs b * Rabs b)) by (field; lra).
      rewrite Hr2. field. lra. }
  rewrite sin_atan, cos_atan, Hroot. split; field; lra.
Qed.

(** The angle of a finite vector and its two coordinates. *)
Lemma theta_sin_cos (a b : R) :
  a <> 0 \/ b <> 0 ->
  exists t,
    theta (Fin a) (Fin b) = Fin t /\ - PI <= t < PI /\
    a = sqrt (a * a + b * b) * sin t /\
    b = sqrt (a * a + b * b) * cos t.
Proof.
  intros Hab. pose proof PI_RGT_0 as Hpi.
  unfold theta, M_PI. cbn [Libm.fabs ddiv]. unfold inf_signed.
  destruct (Req_dec_T (Rabs b) 0) as [Hb0|Hb0].
  - assert (Hb : b = 0).
    { destruct (Req_dec_T b 0) as [|Hn]; [assumption|].
      apply Rabs_no_R0 in Hn. contradiction. }
    assert (Ha : a <> 0) by (destruct Hab; [assumption|contradiction]).
    subst b. replace (a * a + 0 * 0) with (a * a) by ring.
    destruct (Rlt_dec 0 a) as [Hpos|Hnpos].
    + cbn [Libm.atan dgt dlt dsub dadd dneg]. decide_reals; try lra.
      exists (PI + - (PI / 2)). split; [reflexivity|]. split; [lra|].
      replace (PI + - (PI / 2)) with (PI / 2) by lra.
      rewrite sin_PI2, cos_PI2, sqrt_square by lra. lra.
    + destruct (Rlt_dec a 0) as [Hneg|]; [|lra].
      cbn [Libm.atan dgt dlt dsub dadd dneg]. decide_reals; try lra.
      exists (- PI + - - (PI / 2)). split; [reflexivity|]. split; [lra|].
      replace (- PI + - - (PI / 2)) with (- (PI / 2)) by lra.
      rewrite sin_neg, cos_neg, sin_PI2, cos_PI2.
      replace (a * a) with ((- a) * (- a)) by ring.
      rewrite sqrt_square by lra. lra.
  - assert (Hb : b <> 0) by (intros ->; apply Hb0, Rabs_R0).
    destruct (hypot_atan a b Hb) as [Hsin Hcos].
    pose proof (atan_bound (a / Rabs b)) as Hbound.
    cbn [Libm.atan dgt dlt dsub dadd dneg].
    destruct (Rlt_dec 0 b) as [Hbpos|Hbneg].
    + exists (atan (a / Rabs b)). split; [reflexivity|]. split; [lra|].
      rewrite Hsin, Hcos, Rabs_right by lra. split; reflexivity.
    + assert (Hneg : Rabs b = - b) by (apply Rabs_left; lra).
      destruct (Rlt_dec 0 (atan (a / Rabs b))).
      * exists (PI + - atan (a / Rabs b)). split; [reflexivity|]. split; [lra|].
        fold (PI - atan (a / Rabs b)).
        rewrite sin_PI_x, Rtrigo_facts.cos_pi_minus. split; [lra|nra].
      * exists (- PI + - atan (a / Rabs b)). split; [reflexivity|]. split; [lra|].
        replace (- PI + - atan (a / Rabs b))
          with (- (atan (a / Rabs b) + PI)) by ring.
        rewrite sin_neg, cos_neg, neg_sin, neg_cos. split; [lra|nra].
Qed.

(** X1.  For a finite vector [(a, b)] other than the null vector, [theta]
    is a number [t] of [[-PI, PI)] with [a = rho sin t] and
    [b = rho cos t], [rho] being the length of the vector: the angle
    from the positive y axis, counted positive towards the positive x
    axis. *)
Theorem theta_polar (a b : R) :
  a <> 0 \/ b <> 0 ->
  exists t,
    theta (Fin a) (Fin b) = Fin t /\ - PI <= t < PI /\
    a = sqrt (a * a + b * b) * sin t /\
    b = sqrt (a * a + b * b) * cos t.
Proof. exact (theta_sin_cos a b). Qed.

(** An instance: the vector (-5, 0), at a quarter turn to the left. *)
Lemma theta_polar_witness :
  exists t,
    theta (Fin (-5)) (Fin 0) = Fin t /\ - PI <= t < PI /\
    -5 = sqrt (-5 * -5 + 0 * 0) * sin t /\
    0 = sqrt (-5 * -5 + 0 * 0) * cos t.
Proof. apply (theta_polar (-5) 0). left. lra. Defined.

(* ================================================================== *)
(** ** Scanning once, then the two passes over the statements          *)
(* ================================================================== *)

Lemma pass1_statement_other letter value gc lv :
  is_command (letter, value) = false ->
  pass1_statement letter value gc lv = (gc, lv).
Proof.
  unfold is_command, pass1_statement. cbn [fst existsb].
  case_letter letter; cbn [Ascii.eqb Bool.eqb andb orb];
    solve [reflexivity | discriminate].
Qed.

Lemma pass2_statement_other letter value gc lv :
  is_parameter (letter, value) = false ->
  pass2_statement letter value gc lv = (gc, lv).
Proof.
  unfold is_parameter, pass2_statement. cbn [fst existsb].
  case_letter letter; cbn [Ascii.eqb Bool.eqb andb orb];
    solve [reflexivity | discriminate].
Qed.

Lemma pass1_list_commands ss :
  forall gc lv,
    status_code gc = GCSTATUS_OK ->
    pass1_list ss end_of_line gc lv =
    pass1_list (filter is_command ss) end_of_line gc lv.
Proof.
  induction ss as [|[letter value] ss IH]; intros gc lv Hok;
    cbn [filter pass1_list]; [reflexivity|].
  destruct (is_command (letter, value)) eqn:Hc.
  - cbn [pass1_list].
    destruct (pass1_statement letter value gc lv) as [gc1 lv1].
    destruct (nonzero (status_code gc1)) eqn:Hnz; [reflexivity|].
    apply IH, nonzero_false, Hnz.
  - rewrite (pass1_statement_other _ _ _ _ Hc), Hok. cbn [nonzero].
    apply IH, Hok.
Qed.

Lemma pass2_list_parameters ss e :
  forall gc lv,
    pass2_list ss e gc lv = pass2_list (filter is_parameter ss) e gc lv.
Proof.
  induction ss as [|[letter value] ss IH]; intros gc lv;
    cbn [filter pass2_list]; [reflexivity|].
  destruct (is_parameter (letter, value)) eqn:Hc.
  - cbn [pass2_list].
    destruct (pass2_statement letter value gc lv) as [gc1 lv1]. apply IH.
  - rewrite (pass2_statement_other _ _ _ _ Hc). apply IH.
Qed.

Section Scanned.

Variable strtod : string -> double * nat.

(** A scan stops at the end of the line or with one of the two errors
    of the tokenizer. *)
Lemma statements_stop_cases textline :
  forall fuel counter ss e,
    statements strtod fuel textline counter = (ss, e) ->
    e = end_of_line \/
    e = scan_error GCSTATUS_EXPECTED_COMMAND_LETTER \/
    e = scan_error GCSTATUS_BAD_NUMBER_FORMAT.
Proof.
  induction fuel as [|fuel IH]; intros counter ss e; cbn [statements].
  - intros [= _ <-]. auto.
  - unfold scan at 1.
    destruct (is_char _ NUL); [intros [= _ <-]; auto|].
    destruct (not_upper _); [intros [= _ <-]; auto|].
    destruct (strtod _) as [v len].
    destruct (Nat.eqb len 0); [intros [= _ <-]; auto|].
    destruct (statements strtod fuel textline _) as [ss' e'] eqn:Hss.
    intros [= _ <-]. eapply IH, Hss.
Qed.

Lemma pass2_list_status ss e :
  forall gc lv,
    status_code (fst (pass2_list ss e gc lv)) = status_code (stop_gc e gc).
Proof.
  induction ss as [|[letter value] ss IH]; intros gc lv; cbn [pass2_list].
  - reflexivity.
  - pose proof (pass2_statement_status letter value gc lv) as H.
    destruct (pass2_statement letter value gc lv) as [gc1 lv1].
    cbn [fst] in H. rewrite IH. destruct e; cbn; [exact H|reflexivity].
Qed.

Lemma plain_cases textline :
  plain textline = true ->
  is_char (char_at textline 0) "(" = false /\
  is_char (char_at textline 0) "/" = false /\
  is_char (char_at textline 0) "$" = false.
Proof.
  unfold plain. intros H. apply negb_true_iff in H.
  apply orb_false_iff in H as [H H3]. apply orb_false_iff in H as [H1 H2].
  auto.
Qed.

Lemma scanned_plain textline ss :
  line_statements strtod textline 0 = (ss, end_of_line) ->
  plain textline = true.
Proof.
  intros Hss. unfold plain.
  rewrite !(scanned_line_plain strtod textline ss Hss) by reflexivity.
  reflexivity.
Qed.

(** On a plain line [gc_execute_line] is the interpreter over the
    statements of the line. *)
Lemma gc_execute_line_statements textline gc ss e :
  plain textline = true ->
  line_statements strtod textline 0 = (ss, e) ->
  gc_execute_line strtod textline gc = run_statements ss e gc.
Proof.
  intros Hplain Hss. apply plain_cases in Hplain as (H1 & H2 & H3).
  unfold gc_execute_line, parse_line, settings_line, run_statements.
  rewrite H1, H2, H3.
  unfold line_statements in Hss.
  rewrite pass1_statements, Hss.
  destruct (pass1_list ss e _ locals_init) as [gc1 lv1].
  destruct (nonzero (status_code gc1)) eqn:Hnz; [reflexivity|].
  rewrite pass2_statements, Hss.
  destruct (pass2_list ss e gc1 _) as [gc2 lv2].
  destruct (nonzero (status_code gc2)); reflexivity.
Qed.

(** On a line that scans to its end the second error check never
    fires. *)
Lemma run_statements_scanned ss gc :
  run_statements ss end_of_line gc =
  let '(gc1, lv1) :=
    pass1_list ss end_of_line (set_status_code GCSTATUS_OK gc) locals_init in
  if nonzero (status_code gc1) then (status_code gc1, gc1, [])
  else
    let '(gc2, lv2) :=
      pass2_list ss end_of_line gc1
        (set_target (position gc1) (set_offset clear_vector lv1)) in
    dispatch gc2 lv2 [].
Proof.
  unfold run_statements.
  destruct (pass1_list ss end_of_line _ locals_init) as [gc1 lv1].
  destruct (nonzero (status_code gc1)) eqn:Hnz; [reflexivity|].
  pose proof (pass2_list_status ss end_of_line gc1
                (set_target (position gc1) (set_offset clear_vector lv1)))
    as Hst.
  destruct (pass2_list ss end_of_line gc1 _) as [gc2 lv2].
  cbn [fst stop_gc] in Hst. rewrite Hst, Hnz. reflexivity.
Qed.

(** X2.  The code scans the text of the line twice, once for each pass.
    On a line that scans to its end that is the same as scanning it
    once and running pass 1, then pass 2 (from the position as target
    and a null offset), then the physical actions over the list of the
    statements found. *)
Theorem gc_execute_line_scanned (textline : string) (gc : ParserState)
    (ss : list (ascii * double)) :
  line_statements strtod textline 0 = (ss, end_of_line) ->
  gc_execute_line strtod textline gc =
  let '(gc1, lv1) :=
    pass1_list ss end_of_line (set_status_code GCSTATUS_OK gc) locals_init in
  if nonzero (status_code gc1) then (status_code gc1, gc1, [])
  else
    let '(gc2, lv2) :=
      pass2_list ss end_of_line gc1
        (set_target (position gc1) (set_offset clear_vector lv1)) in
    dispatch gc2 lv2 [].
Proof.
  intros Hss.
  rewrite (gc_execute_line_statements textline gc ss end_of_line
             (scanned_plain textline ss Hss) Hss).
  apply run_statements_scanned.
Qed.

(** The interpreter reads the commands in pass 1 and the parameters in
    pass 2 only. *)
Lemma run_statements_filter ss ss' gc :
  filter is_command ss = filter is_command ss' ->
  filter is_parameter ss = filter is_parameter ss' ->
  run_statements ss end_of_line gc = run_statements ss' end_of_line gc.
Proof.
  intros Hc Hp. unfold run_statements.
  rewrite (pass1_list_commands ss), (pass1_list_commands ss'), Hc
    by reflexivity.
  destruct (pass1_list (filter is_command ss') end_of_line _ locals_init)
    as [gc1 lv1].
  rewrite (pass2_list_parameters ss), (pass2_list_parameters ss'), Hp.
  reflexivity.
Qed.

(** X3.  Pass 1 reads the G, M and T words of the line and pass 2 its
    F, I, J, K, P, R, S, X, Y and Z words, each in the order of the
    line.  So two lines that scan to their ends with the same words of
    the first kind in the same order, and the same words of the second
    kind in the same order, do the same: how the two kinds are
    interleaved and what other words stand between them changes
    nothing.  [X1G20] is [G20X1], and [N10G1X5] is [G1X5]. *)
Theorem statement_order_irrelevant (line line' : string) (gc : ParserState)
    (ss ss' : list (ascii * double)) :
  line_statements strtod line 0 = (ss, end_of_line) ->
  line_statements strtod line' 0 = (ss', end_of_line) ->
  filter is_command ss = filter is_command ss' ->
  filter is_parameter ss = filter is_parameter ss' ->
  gc_execute_line strtod line gc = gc_execute_line strtod line' gc.
Proof.
  intros Hss Hss' Hc Hp.
  rewrite (gc_execute_line_statements line gc ss end_of_line
             (scanned_plain line ss Hss) Hss).
  rewrite (gc_execute_line_statements line' gc ss' end_of_line
             (scanned_plain line' ss' Hss') Hss').
  apply run_statements_filter; assumption.
Qed.

(** Pass 1 over statements that are all supported makes the changes of
    each of them, then stops as the scan does. *)
Lemma pass1_list_supported ss e :
  existsb unsupported ss = false ->
  forall gc lv,
    status_code gc = GCSTATUS_OK ->
    pass1_list ss e gc lv =
    (stop_gc e (fst (pass1_effects ss gc lv)), snd (pass1_effects ss gc lv))
    /\ status_code (fst (pass1_effects ss gc lv)) = GCSTATUS_OK.
Proof.
  induction ss as [|[letter value] ss IH]; intros Hsup gc lv Hok;
    cbn [pass1_list pass1_effects fst snd].
  - auto.
  - cbn [existsb] in Hsup. apply orb_false_iff in Hsup as [Hs Hsup].
    pose proof (pass1_statement_supported letter value gc lv Hs) as Hst.
    destruct (pass1_statement letter value gc lv) as [gc1 lv1].
    cbn [fst] in Hst. rewrite Hst, Hok. cbn [nonzero].
    apply IH; [exact Hsup|]. rewrite Hst. exact Hok.
Qed.

(** X4.  A plain line whose scan stops with an error, after statements that
    pass 1 supports, returns that error without any call; but the
    changes pass 1 makes for those statements have been made: a line
    rejected for its syntax has changed the modes its leading words
    set. *)
Theorem syntax_error_keeps_modal_changes (textline : string)
    (gc : ParserState) (ss : list (ascii * double)) (s : status_code_t) :
  plain textline = true ->
  line_statements strtod textline 0 = (ss, scan_error s) ->
  existsb unsupported ss = false ->
  gc_execute_line strtod textline gc =
  (s,
   FAIL s (fst (pass1_effects ss (set_status_code GCSTATUS_OK gc)
                  locals_init)),
   []).
Proof.
  intros Hplain Hss Hsup.
  rewrite (gc_execute_line_statements textline gc ss _ Hplain Hss).
  unfold run_statements.
  destruct (pass1_list_supported ss (scan_error s) Hsup
              (set_status_code GCSTATUS_OK gc) locals_init eq_refl)
    as [-> _].
  cbn [stop_gc].
  assert (Hnz : nonzero s = true).
  { destruct (statements_stop_cases _ _ _ _ _ Hss) as [He|[He|He]];
      [discriminate He| |]; injection He as ->; reflexivity. }
  destruct (pass1_effects ss _ locals_init) as [g l]. cbn [fst snd].
  unfold FAIL. destruct g; cbn. rewrite Hnz. reflexivity.
Qed.

(** A line goes on to the physical actions only if it scans to its end
    from its first character; what it hands on is what the two passes
    over its statements leave. *)
Lemma parse_line_Continue_inv textline gc gc2 lv2 ev :
  parse_line strtod textline gc = Continue gc2 lv2 ev ->
  ev = [] /\
  exists ss gc1 lv1,
    line_statements strtod textline 0 = (ss, end_of_line) /\
    pass1_list ss end_of_line (set_status_code GCSTATUS_OK gc) locals_init
    = (gc1, lv1) /\
    status_code gc1 = GCSTATUS_OK /\
    pass2_list ss end_of_line gc1
      (set_target (position gc1) (set_offset clear_vector lv1))
    = (gc2, lv2).
Proof.
  intros Hparse.
  split; [eapply parse_line_Continue, Hparse|].
  revert Hparse. unfold parse_line, settings_line.
  destruct (is_char (char_at textline 0) "("); [discriminate|].
  destruct (is_char (char_at textline 0) "$") eqn:Hd.
  { apply is_char_eq in Hd.
    destruct (is_char (char_at textline 1) NUL); [discriminate|].
    destruct (read_double strtod textline 1 _) as [[[ok1 c1] p1] g1].
    destruct (negb _); [discriminate|].
    destruct (read_double strtod textline (S c1) g1) as [[[ok2 c2] v2] g2].
    destruct (negb _); [discriminate|].
    destruct (pass1 _ _ _ _ _ _) as [g3 lv3].
    destruct (nonzero (status_code g3)); [discriminate|].
    rewrite pass2_rejects by (rewrite Hd; reflexivity).
    cbn. discriminate. }
  destruct (is_char (char_at textline 0) "/") eqn:Hb.
  { apply is_char_eq in Hb.
    destruct (pass1 _ _ _ _ _ _) as [g3 lv3].
    destruct (nonzero (status_code g3)); [discriminate|].
    rewrite pass2_rejects by (rewrite Hb; reflexivity).
    cbn. discriminate. }
  rewrite pass1_statements.
  destruct (statements strtod (S (String.length textline)) textline 0)
    as [ss e] eqn:Hss.
  destruct (pass1_list ss e _ locals_init) as [gc1 lv1] eqn:Hp1.
  destruct (nonzero (status_code gc1)) eqn:Hnz; [discriminate|].
  rewrite pass2_statements, Hss.
  pose proof (pass2_list_status ss e gc1
                (set_target (position gc1) (set_offset clear_vector lv1)))
    as Hst.
  destruct (pass2_list ss e gc1 _) as [g2 l2] eqn:Hp2. cbn [fst] in Hst.
  destruct (nonzero (status_code g2)) eqn:Hnz2; [discriminate|].
  intros [= <- <- _].
  assert (He : e = end_of_line).
  { destruct (statements_stop_cases _ _ _ _ _ Hss) as [He|[He|He]];
      [exact He| |]; subst e; cbn in Hst; rewrite Hst in Hnz2; discriminate. }
  subst e. exists ss, gc1, lv1.
  unfold line_statements. repeat split; try assumption.
  apply nonzero_false, Hnz.
Qed.

End Scanned.

(** An instance: [G1X10] from the start state. *)
Lemma gc_execute_line_scanned_witness :
  gc_execute_line strtod_c "G1X10" gc_start =
  let '(gc1, lv1) :=
    pass1_list [("G"%char, Fin 1); ("X"%char, Fin 10)] end_of_line
      (set_status_code GCSTATUS_OK gc_start) locals_init in
  if nonzero (status_code gc1) then (status_code gc1, gc1, [])
  else
    let '(gc2, lv2) :=
      pass2_list [("G"%char, Fin 1); ("X"%char, Fin 10)] end_of_line gc1
        (set_target (position gc1) (set_offset clear_vector lv1)) in
    dispatch gc2 lv2 [].
Proof.
  apply (gc_execute_line_scanned strtod_c "G1X10" gc_start
           [("G"%char, Fin 1); ("X"%char, Fin 10)]).
  run. reflexivity.
Defined.

(** An instance: [X1G20] and [N10G20X1]. *)
Lemma statement_order_irrelevant_witness :
  gc_execute_line strtod_c "X1G20" gc_start =
  gc_execute_line strtod_c "N10G20X1" gc_start.
Proof.
  apply (statement_order_irrelevant strtod_c "X1G20" "N10G20X1" gc_start
           [("X"%char, Fin 1); ("G"%char, Fin 20)]
           [("N"%char, Fin 10); ("G"%char, Fin 20); ("X"%char, Fin 1)]).
  - run. reflexivity.
  - run. reflexivity.
  - reflexivity.
  - reflexivity.
Defined.

(** An instance: [G91X], where the X word has no number. *)
Lemma syntax_error_keeps_modal_changes_witness :
  gc_execute_line strtod_c "G91X" gc_start =
  (GCSTATUS_BAD_NUMBER_FORMAT,
   FAIL GCSTATUS_BAD_NUMBER_FORMAT
     (fst (pass1_effects [("G"%char, Fin 91)]
             (set_status_code GCSTATUS_OK gc_start) locals_init)),
   []).
Proof.
  apply (syntax_error_keeps_modal_changes strtod_c "G91X" gc_start
           [("G"%char, Fin 91)] GCSTATUS_BAD_NUMBER_FORMAT).
  - reflexivity.
  - run. reflexivity.
  - cbn [existsb unsupported Ascii.eqb Bool.eqb andb orb].
    unfold int_value_of. rewrite int_value_IZR. reflexivity.
Defined.

(* ================================================================== *)
(** ** The two loops end                                               *)
(* ================================================================== *)

(** A scan finds no more statements than it has fuel. *)
Lemma statements_length strtod textline :
  forall fuel counter,
    (List.length (fst (statements strtod fuel textline counter)) <= fuel)%nat.
Proof.
  induction fuel as [|fuel IH]; intros counter; cbn [statements].
  - cbn. lia.
  - destruct (scan strtod textline counter) as [[[letter value] counter']|e];
      [|cbn; lia].
    specialize (IH counter').
    destruct (statements strtod fuel textline counter') as [ss e].
    cbn [fst List.length] in *. lia.
Qed.

(** X5.  [next_statement] moves the cursor forward by two characters at
    least and returns 0 at the end of the text, so each of the two
    [while] loops of [gc_execute_line] ends after at most as many
    statements as the line has characters, plus one: running the loops
    for longer, from any cursor and in any state, changes nothing of
    what they leave. *)
Theorem loops_end (strtod : string -> double * nat) (textline : string)
    (counter more : nat) (gc : ParserState) (lv : locals) :
  pass1 strtod (S (String.length textline) + more) textline counter gc lv =
  pass1 strtod (S (String.length textline)) textline counter gc lv /\
  pass2 strtod (S (String.length textline) + more) textline counter gc lv =
  pass2 strtod (S (String.length textline)) textline counter gc lv /\
  statements strtod (S (String.length textline) + more) textline counter =
  line_statements strtod textline counter /\
  (List.length (fst (line_statements strtod textline counter))
   <= S (String.length textline))%nat.
Proof.
  split; [apply pass1_fuel|]. split; [apply pass2_fuel|].
  split; [apply statements_fuel; lia|apply statements_length].
Qed.

(* ================================================================== *)
(** ** What a line leaves alone                                        *)
(* ================================================================== *)

Lemma char_at_occurs (textline : string) :
  forall i, is_char (char_at textline i) NUL = false ->
       occurs (char_at textline i) textline = true.
Proof.
  unfold char_at.
  induction textline as [|d rest IH]; intros i H.
  - destruct i; discriminate H.
  - destruct i as [|i]; cbn [String.get occurs] in *.
    + rewrite Ascii.eqb_refl. reflexivity.
    + rewrite (IH i H). apply orb_true_r.
Qed.

Lemma occurs_absent c l textline :
  occurs c textline = false -> occurs l textline = true -> l <> c.
Proof. intros Hc Hl ->. congruence. Qed.

(** The fields of the modal state that a statement of pass 1 leaves
    alone, by its letter. *)
Lemma pass1_statement_frame letter value gc lv :
  let gc' := fst (pass1_statement letter value gc lv) in
  (letter <> "G"%char ->
   motion_mode gc' = motion_mode gc /\
   inverse_feed_rate_mode gc' = inverse_feed_rate_mode gc /\
   inches_mode gc' = inches_mode gc /\
   absolute_mode gc' = absolute_mode gc /\
   plane_axis_0 gc' = plane_axis_0 gc /\
   plane_axis_1 gc' = plane_axis_1 gc /\
   plane_axis_2 gc' = plane_axis_2 gc) /\
  (letter <> "M"%char ->
   program_flow gc' = program_flow gc /\
   spindle_direction gc' = spindle_direction gc) /\
  (letter <> "T"%char -> tool gc' = tool gc) /\
  feed_rate gc' = feed_rate gc /\
  seek_rate gc' = seek_rate gc /\
  spindle_speed gc' = spindle_speed gc.
Proof.
  cbv zeta. unfold pass1_statement.
  generalize (double_to_int (Libm.trunc value)). intros n.
  case_letter letter;
    repeat match goal with
           | |- _ /\ _ => split
           | |- _ -> _ => intros ?
           end;
    try congruence; try reflexivity; case_int; reflexivity.
Qed.

(** The same for pass 2, which changes the feed rate and the spindle
    speed only. *)
Lemma pass2_statement_frame letter value gc lv :
  let gc' := fst (pass2_statement letter value gc lv) in
  (letter <> "F"%char -> feed_rate gc' = feed_rate gc) /\
  (letter <> "S"%char -> spindle_speed gc' = spindle_speed gc) /\
  motion_mode gc' = motion_mode gc /\
  inverse_feed_rate_mode gc' = inverse_feed_rate_mode gc /\
  inches_mode gc' = inches_mode gc /\
  absolute_mode gc' = absolute_mode gc /\
  plane_axis_0 gc' = plane_axis_0 gc /\
  plane_axis_1 gc' = plane_axis_1 gc /\
  plane_axis_2 gc' = plane_axis_2 gc /\
  program_flow gc' = program_flow gc /\
  spindle_direction gc' = spindle_direction gc /\
  tool gc' = tool gc /\
  seek_rate gc' = seek_rate gc.
Proof.
  cbv zeta. unfold pass2_statement.
  case_letter letter;
    repeat match goal with
           | |- _ /\ _ => split
           | |- _ -> _ => intros ?
           end;
    try congruence; try reflexivity;
    destruct (inverse_feed_rate_mode gc) eqn:E; cbn;
    solve [reflexivity | exact E].
Qed.

Lemma pass2_statement_target letter value gc lv a :
  letter <> axis_letter a ->
  vget (target (snd (pass2_statement letter value gc lv))) a =
  vget (target lv) a.
Proof.
  unfold pass2_statement.
  case_letter letter; try reflexivity; intros H;
    try (destruct (inverse_feed_rate_mode gc); reflexivity);
    destruct a; try (exfalso; apply H; reflexivity);
    destruct (absolute_mode gc || absolute_override lv); reflexivity.
Qed.

Lemma pass2_list_target ss e a :
  Forall (fun s => fst s <> axis_letter a) ss ->
  forall gc lv,
    vget (target (snd (pass2_list ss e gc lv))) a = vget (target lv) a.
Proof.
  induction 1 as [|[letter value] ss Hs _ IH]; intros gc lv;
    cbn [pass2_list].
  - reflexivity.
  - pose proof (pass2_statement_target letter value gc lv a Hs) as Ht.
    destruct (pass2_statement letter value gc lv) as [gc1 lv1].
    cbn [snd] in Ht. rewrite IH. exact Ht.
Qed.

Section LetterFrame.

Variable strtod : string -> double * nat.
Variable textline : string.

(** The letters of the statements of a line occur in the line. *)
Lemma statements_occur :
  forall fuel counter ss e,
    statements strtod fuel textline counter = (ss, e) ->
    Forall (fun s => occurs (fst s) textline = true) ss.
Proof.
  induction fuel as [|fuel IH]; intros counter ss e; cbn [statements].
  - intros [= <- _]. constructor.
  - unfold scan at 1.
    destruct (is_char _ NUL) eqn:Hnul; [intros [= <- _]; constructor|].
    destruct (not_upper _); [intros [= <- _]; constructor|].
    destruct (strtod _) as [v len].
    destruct (Nat.eqb len 0); [intros [= <- _]; constructor|].
    destruct (statements strtod fuel textline _) as [ss' e'] eqn:Hss.
    intros [= <- _]. constructor.
    + apply char_at_occurs, Hnul.
    + eapply IH, Hss.
Qed.

(** A property of the modal state that the status, the commit of the
    position and the statements with a letter of the line preserve. *)
Variable P : ParserState -> Prop.

Hypothesis P_status : forall s gc, P gc -> P (set_status_code s gc).

Hypothesis P_position : forall t gc, P gc -> P (set_position t gc).

Hypothesis P_pass1 :
  forall letter value gc lv,
    occurs letter textline = true ->
    P gc -> P (fst (pass1_statement letter value gc lv)).

Hypothesis P_pass2 :
  forall letter value gc lv,
    occurs letter textline = true ->
    P gc -> P (fst (pass2_statement letter value gc lv)).

Lemma stop_gc_keeps e gc : P gc -> P (stop_gc e gc).
Proof. destruct e; [trivial|apply P_status]. Qed.

Lemma read_double_keeps counter gc :
  P gc -> P (snd (read_double strtod textline counter gc)).
Proof.
  intros H. unfold read_double. destruct (strtod _) as [v len].
  destruct (Nat.eqb len 0); [apply P_status|]; exact H.
Qed.

Lemma pass1_list_keeps ss e :
  Forall (fun s => occurs (fst s) textline = true) ss ->
  forall gc lv, P gc -> P (fst (pass1_list ss e gc lv)).
Proof.
  induction 1 as [|[letter value] ss Hs _ IH]; intros gc lv H; simpl.
  - apply stop_gc_keeps, H.
  - pose proof (P_pass1 letter value gc lv Hs H) as H1.
    destruct (pass1_statement letter value gc lv) as [gc1 lv1]. simpl in H1.
    destruct (nonzero (status_code gc1)); [exact H1|apply IH, H1].
Qed.

Lemma pass2_list_keeps ss e :
  Forall (fun s => occurs (fst s) textline = true) ss ->
  forall gc lv, P gc -> P (fst (pass2_list ss e gc lv)).
Proof.
  induction 1 as [|[letter value] ss Hs _ IH]; intros gc lv H; simpl.
  - apply stop_gc_keeps, H.
  - pose proof (P_pass2 letter value gc lv Hs H) as H1.
    destruct (pass2_statement letter value gc lv) as [gc1 lv1]. simpl in H1.
    apply IH, H1.
Qed.

Lemma parse_line_keeps gc :
  P gc ->
  match parse_line strtod textline gc with
  | Return (_, gc', _) => P gc'
  | Continue gc' _ _ => P gc'
  end.
Proof.
  intros H. unfold parse_line.
  pose proof (P_status GCSTATUS_OK gc H) as H0.
  destruct (is_char (char_at textline 0) "("); [exact H0|].
  unfold settings_line.
  set (c0 := if is_char (char_at textline 0) "/" then 1%nat else 0%nat).
  assert (Hpasses : forall gc1 lv1 c1 ev, P gc1 ->
    match
      (let '(gc2, lv2) :=
         pass1 strtod (S (String.length textline)) textline c1 gc1 lv1 in
       if nonzero (status_code gc2) then Return (status_code gc2, gc2, ev)
       else
         let '(gc3, lv3) :=
           pass2 strtod (S (String.length textline)) textline 0 gc2
             (set_target (position gc2) (set_offset clear_vector lv2)) in
         if nonzero (status_code gc3) then Return (status_code gc3, gc3, ev)
         else Continue gc3 lv3 ev)
    with
    | Return (_, gc', _) => P gc'
    | Continue gc' _ _ => P gc'
    end).
  { intros gc1 lv1 c1 ev H1.
    rewrite pass1_statements.
    destruct (statements strtod _ textline c1) as [ss1 e1] eqn:Hss1.
    pose proof (pass1_list_keeps ss1 e1 (statements_occur _ _ _ _ Hss1)
                  gc1 lv1 H1) as H2.
    destruct (pass1_list ss1 e1 gc1 lv1) as [gc2 lv2]. simpl in H2.
    destruct (nonzero (status_code gc2)); [exact H2|].
    rewrite pass2_statements.
    destruct (statements strtod _ textline 0) as [ss2 e2] eqn:Hss2.
    pose proof (pass2_list_keeps ss2 e2 (statements_occur _ _ _ _ Hss2) gc2
                  (set_target (position gc2) (set_offset clear_vector lv2)) H2)
      as H3.
    destruct (pass2_list ss2 e2 gc2 _) as [gc3 lv3]. simpl in H3.
    destruct (nonzero (status_code gc3)); exact H3. }
  destruct (is_char (char_at textline 0) "$"); [|apply Hpasses, H0].
  destruct (is_char (char_at textline 1) NUL); [exact H0|].
  pose proof (read_double_keeps 1 _ H0) as H1.
  destruct (read_double strtod textline 1 _) as [[[ok1 c1] p1] gc1].
  simpl in H1.
  destruct (negb _); [exact H1|].
  pose proof (read_double_keeps (S c1) _ H1) as H2.
  destruct (read_double strtod textline (S c1) gc1) as [[[ok2 c2] v2] gc2].
  simpl in H2.
  destruct (negb _); [exact H2|].
  apply Hpasses, H2.
Qed.

Lemma gc_execute_line_keeps gc :
  P gc -> P (state_after (gc_execute_line strtod textline gc)).
Proof.
  intros H. unfold gc_execute_line.
  pose proof (parse_line_keeps gc H) as Hinv.
  destruct (parse_line strtod textline gc) as [[[st gc'] ev]|gc1 lv ev].
  - exact Hinv.
  - destruct (dispatch_cases gc1 lv ev) as [[actions ->]|[-> _]];
      cbn [state_after fst snd].
    + apply P_position, Hinv.
    + apply P_status, Hinv.
Qed.

End LetterFrame.

(** Without a word for an axis on the line, the coordinate of the
    position along that axis stays. *)
Lemma absent_axis_frame strtod textline gc a :
  occurs (axis_letter a) textline = false ->
  vget (position (state_after (gc_execute_line strtod textline gc))) a =
  vget (position gc) a.
Proof.
  intros Habs. unfold gc_execute_line.
  pose proof (parse_line_inv strtod textline gc) as Hinv.
  destruct (parse_line strtod textline gc) as [[[st gc'] ev]|gc2 lv2 ev]
    eqn:Hparse.
  - destruct Hinv as [Hpos _]. cbn [state_after fst snd]. rewrite Hpos.
    reflexivity.
  - destruct Hinv as (Hpos & _ & _).
    destruct (dispatch_cases gc2 lv2 ev) as [[actions ->]|[-> _]];
      cbn [state_after fst snd]; [|cbn; rewrite Hpos; reflexivity].
    apply parse_line_Continue_inv in Hparse
      as [_ (ss & gc1 & lv1 & Hss & Hp1 & Hok & Hp2)].
    assert (Hletters : Forall (fun s => fst s <> axis_letter a) ss).
    { apply statements_occur in Hss. eapply Forall_impl; [|exact Hss].
      intros s Hs. cbv beta in Hs. eapply occurs_absent; eassumption. }
    pose proof (pass2_list_target ss end_of_line a Hletters gc1
                  (set_target (position gc1) (set_offset clear_vector lv1)))
      as Ht.
    rewrite Hp2 in Ht. cbn [snd] in Ht.
    replace (position (set_position (target lv2) gc2)) with (target lv2)
      by (destruct gc2; reflexivity).
    rewrite Ht.
    pose proof (pass1_list_position ss end_of_line
                  (set_status_code GCSTATUS_OK gc) locals_init) as Hp.
    rewrite Hp1 in Hp. cbn [fst] in Hp.
    destruct lv1; cbn. rewrite Hp. reflexivity.
Qed.

(** X6.  Every field of the modal state is governed by one letter: the
    motion mode, the feed rate mode, the units, the distance mode and
    the plane by G; the program flow and the spindle direction by M; the
    tool by T; the feed rate by F; the spindle speed by S; each
    coordinate of the position by the letter of its axis.  A line on
    which a letter does not occur at all leaves what the letter governs
    as it was, whatever the line returns. *)
Theorem absent_letter_frame (strtod : string -> double * nat)
    (textline : string) (gc : ParserState) (c : ascii) :
  occurs c textline = false ->
  governed c gc (state_after (gc_execute_line strtod textline gc)).
Proof.
  intros Habs. split.
  - apply (gc_execute_line_keeps strtod textline (modal_frame c gc)).
    + intros s g Hg. exact Hg.
    + intros t g Hg. exact Hg.
    + intros l v g lv Hl (HG & HM & HT & HF & HS).
      pose proof (occurs_absent c l textline Habs Hl) as Hne.
      pose proof (pass1_statement_frame l v g lv) as F. cbv zeta in F.
      destruct F as (FG & FM & FT & Ff & _ & Fs).
      unfold modal_frame.
      split; [|split; [|split; [|split]]]; intros ->.
      * destruct (FG Hne) as (-> & -> & -> & -> & -> & -> & ->).
        exact (HG eq_refl).
      * destruct (FM Hne) as (-> & ->). exact (HM eq_refl).
      * rewrite (FT Hne). exact (HT eq_refl).
      * rewrite Ff. exact (HF eq_refl).
      * rewrite Fs. exact (HS eq_refl).
    + intros l v g lv Hl (HG & HM & HT & HF & HS).
      pose proof (occurs_absent c l textline Habs Hl) as Hne.
      pose proof (pass2_statement_frame l v g lv) as F. cbv zeta in F.
      unfold modal_frame.
      destruct F
        as (Ff & Fs & -> & -> & -> & -> & -> & -> & -> & -> & -> & -> & _).
      split; [|split; [|split; [|split]]]; intros ->.
      * exact (HG eq_refl).
      * exact (HM eq_refl).
      * exact (HT eq_refl).
      * rewrite (Ff Hne). exact (HF eq_refl).
      * rewrite (Fs Hne). exact (HS eq_refl).
    + unfold modal_frame. repeat split; reflexivity.
  - intros a ->. apply absent_axis_frame, Habs.
Qed.

(** An instance: the letter G and the line [X1F60M3]. *)
Lemma absent_letter_frame_witness :
  governed "G" gc_start
    (state_after (gc_execute_line strtod_c "X1F60M3" gc_start)).
Proof.
  apply (absent_letter_frame strtod_c "X1F60M3" gc_start "G"). reflexivity.
Defined.

(* ================================================================== *)
(** ** Settings lines and the status                                   *)
(* ================================================================== *)

Section SettingsLines.

Variable strtod : string -> double * nat.

Lemma pass1_at_end textline counter gc lv :
  is_char (char_at textline counter) NUL = true ->
  pass1 strtod (S (String.length textline)) textline counter gc lv = (gc, lv).
Proof.
  intros H. rewrite pass1_statements. cbn [statements]. unfold scan at 1.
  rewrite H. reflexivity.
Qed.

(** X7.  A line that starts with [$] changes nothing of the modal state
    but the status code, and calls neither the motion control nor the
    spindle: it makes no call, or the one call to [dump_settings], or
    the one call to [store_setting].  It returns [GCSTATUS_OK] only if
    [$] is all there is on the line: no line that stores a setting
    returns [GCSTATUS_OK]. *)
Theorem settings_line_frame (textline : string) (gc : ParserState) :
  is_char (char_at textline 0) "$" = true ->
  let res := gc_execute_line strtod textline gc in
  (exists s, state_after res = set_status_code s gc) /\
  (calls res = [] \/ calls res = [dump_settings] \/
   exists parameter value, calls res = [store_setting parameter value]) /\
  (returned res = GCSTATUS_OK <->
   is_char (char_at textline 1) NUL = true).
Proof.
  intros Hd. cbv zeta.
  pose proof (is_char_eq _ _ Hd) as Hd'.
  assert (Hc : is_char (char_at textline 0) "(" = false)
    by (rewrite Hd'; reflexivity).
  assert (Hb : is_char (char_at textline 0) "/" = false)
    by (rewrite Hd'; reflexivity).
  unfold gc_execute_line, parse_line, settings_line, read_double.
  rewrite Hc, Hb, Hd.
  destruct (is_char (char_at textline 1) NUL) eqn:Hn1.
  { cbn. split; [exists GCSTATUS_OK; reflexivity|].
    split; [auto|]. split; reflexivity. }
  assert (Hfinish : forall s0 lv c ev,
    (ev = [] \/ ev = [dump_settings] \/
     exists parameter value, ev = [store_setting parameter value]) ->
    is_char (char_at textline c) NUL = true ->
    let res :=
      match
        (let '(g, l) :=
           pass1 strtod (S (String.length textline)) textline c
             (set_status_code s0 gc) lv in
         if nonzero (status_code g) then Return (status_code g, g, ev)
         else
           let '(g0, l0) :=
             pass2 strtod (S (String.length textline)) textline 0 g
               (set_target (position g) (set_offset clear_vector l)) in
           if nonzero (status_code g0) then Return (status_code g0, g0, ev)
           else Continue g0 l0 ev)
      with
      | Return res => res
      | Continue g l ev => dispatch g l ev
      end in
    (exists s, state_after res = set_status_code s gc) /\
    (calls res = [] \/ calls res = [dump_settings] \/
     exists parameter value, calls res = [store_setting parameter value]) /\
    (returned res = GCSTATUS_OK <-> false = true)).
  { intros s0 lv c ev Hev Hend. cbv zeta.
    rewrite (pass1_at_end _ _ _ _ Hend).
    cbn [status_code set_status_code].
    destruct (nonzero s0) eqn:Hs0.
    - cbn [state_after returned calls fst snd].
      split; [exists s0; reflexivity|]. split; [exact Hev|].
      split; [intros ->; discriminate Hs0|discriminate].
    - rewrite pass2_rejects by (rewrite Hd'; reflexivity).
      cbn. split; [exists GCSTATUS_EXPECTED_COMMAND_LETTER; reflexivity|].
      split; [exact Hev|]. split; discriminate. }
  destruct (strtod (text_from textline 1)) as [v1 n1].
  destruct (Nat.eqb n1 0).
  - destruct (negb (is_char (char_at textline 1) "=")) eqn:He1.
    { cbn. split; [exists GCSTATUS_BAD_NUMBER_FORMAT; reflexivity|].
      split; [auto|]. split; discriminate. }
    destruct (strtod (text_from textline 2)) as [v2 n2].
    destruct (Nat.eqb n2 0).
    + destruct (negb (is_char (char_at textline 2) NUL)) eqn:He2.
      { cbn. split; [exists GCSTATUS_BAD_NUMBER_FORMAT; reflexivity|].
        split; [auto|]. split; discriminate. }
      apply negb_false_iff in He2.
      apply (Hfinish GCSTATUS_BAD_NUMBER_FORMAT); [eauto|exact He2].
    + destruct (negb (is_char (char_at textline (2 + n2)) NUL)) eqn:He2.
      { cbn. split; [exists GCSTATUS_BAD_NUMBER_FORMAT; reflexivity|].
        split; [auto|]. split; discriminate. }
      apply negb_false_iff in He2.
      apply (Hfinish GCSTATUS_BAD_NUMBER_FORMAT); [eauto|exact He2].
  - destruct (negb (is_char (char_at textline (1 + n1)) "=")) eqn:He1.
    { cbn. split; [exists GCSTATUS_OK; reflexivity|].
      split; [auto|]. split; discriminate. }
    destruct (strtod (text_from textline (S (1 + n1)))) as [v2 n2].
    destruct (Nat.eqb n2 0).
    + destruct (negb (is_char (char_at textline (S (1 + n1))) NUL)) eqn:He2.
      { cbn. split; [exists GCSTATUS_BAD_NUMBER_FORMAT; reflexivity|].
        split; [auto|]. split; discriminate. }
      apply negb_false_iff in He2.
      apply (Hfinish GCSTATUS_BAD_NUMBER_FORMAT); [eauto|exact He2].
    + destruct (negb (is_char (char_at textline (S (1 + n1) + n2)) NUL))
        eqn:He2.
      { cbn. split; [exists GCSTATUS_OK; reflexivity|].
        split; [auto|]. split; discriminate. }
      apply negb_false_iff in He2.
      apply (Hfinish GCSTATUS_OK); [eauto|exact He2].
Qed.

(** X8.  But for the lines that start with [$], the value
    [gc_execute_line] returns is the status code it leaves in the modal
    state. *)
Theorem returned_is_stored_status (textline : string) (gc : ParserState) :
  is_char (char_at textline 0) "$" = false ->
  returned (gc_execute_line strtod textline gc) =
  status_code (state_after (gc_execute_line strtod textline gc)).
Proof.
  intros Hd. unfold gc_execute_line, parse_line, settings_line.
  rewrite Hd.
  destruct (is_char (char_at textline 0) "("); [reflexivity|].
  destruct (pass1 _ _ _ _ _ _) as [gc1 lv1].
  destruct (nonzero (status_code gc1)); [reflexivity|].
  destruct (pass2 _ _ _ _ _ _) as [gc2 lv2].
  destruct (nonzero (status_code gc2)); [reflexivity|].
  destruct (dispatch_cases gc2 lv2 []) as [[actions ->]|[-> _]];
    reflexivity.
Qed.

End SettingsLines.

(** An instance: [$x]. *)
Lemma settings_line_frame_witness :
  let res := gc_execute_line strtod_c "$x" gc_start in
  (exists s, state_after res = set_status_code s gc_start) /\
  (calls res = [] \/ calls res = [dump_settings] \/
   exists parameter value, calls res = [store_setting parameter value]) /\
  (returned res = GCSTATUS_OK <->
   is_char (char_at "$x" 1) NUL = true).
Proof. apply (settings_line_frame strtod_c "$x" gc_start). reflexivity. Defined.

(** An instance: [G1X1]. *)
Lemma returned_is_stored_status_witness :
  returned (gc_execute_line strtod_c "G1X1" gc_start) =
  status_code (state_after (gc_execute_line strtod_c "G1X1" gc_start)).
Proof.
  apply (returned_is_stored_status strtod_c "G1X1" gc_start). reflexivity.
Defined.

(* ================================================================== *)
(** ** Arcs given by their radius                                      *)
(* ================================================================== *)








(* ================================================================== *)
(** ** Where the floating point error comes from                       *)
(* ================================================================== *)

(** What pass 1 and pass 2 leave alone of the local variables. *)
Lemma pass1_statement_locals letter value gc lv :
  let lv' := snd (pass1_statement letter value gc lv) in
  inverse_feed_rate lv' = inverse_feed_rate lv /\
  radius_mode lv' = radius_mode lv /\
  target lv' = target lv /\ offset lv' = offset lv /\
  p lv' = p lv /\ r lv' = r lv.
Proof.
  cbv zeta. unfold pass1_statement.
  generalize (double_to_int (Libm.trunc value)). intros n.
  case_letter letter; try (repeat split; reflexivity);
    case_int; repeat split; reflexivity.
Qed.

Lemma pass1_list_locals ss e :
  forall gc lv,
    let lv' := snd (pass1_list ss e gc lv) in
    inverse_feed_rate lv' = inverse_feed_rate lv /\
    radius_mode lv' = radius_mode lv.
Proof.
  induction ss as [|[letter value] ss IH]; intros gc lv; cbn [pass1_list].
  - cbn. auto.
  - pose proof (pass1_statement_locals letter value gc lv) as H.
    cbv zeta in H. destruct H as (H1 & H2 & _).
    destruct (pass1_statement letter value gc lv) as [gc1 lv1].
    cbn [snd] in H1, H2.
    destruct (nonzero (status_code gc1)); cbn [snd]; [auto|].
    specialize (IH gc1 lv1). cbv zeta in IH. destruct IH as [I1 I2].
    rewrite I1, I2. auto.
Qed.

Lemma pass2_statement_locals letter value gc lv :
  let lv' := snd (pass2_statement letter value gc lv) in
  (letter <> "F"%char -> inverse_feed_rate lv' = inverse_feed_rate lv) /\
  (letter <> "R"%char -> radius_mode lv' = radius_mode lv /\ r lv' = r lv) /\
  (letter <> "P"%char -> p lv' = p lv) /\
  next_action lv' = next_action lv /\
  absolute_override lv' = absolute_override lv.
Proof.
  cbv zeta. unfold pass2_statement.
  case_letter letter;
    repeat match goal with
           | |- _ /\ _ => split
           | |- _ -> _ => intros ?
           end;
    try congruence; try reflexivity;
    first [ destruct (inverse_feed_rate_mode gc); reflexivity
          | destruct (absolute_mode gc || absolute_override lv);
            reflexivity ].
Qed.

Lemma pass2_list_locals ss e (c : ascii) :
  Forall (fun s => fst s <> c) ss ->
  forall gc lv,
    let lv' := snd (pass2_list ss e gc lv) in
    (c = "F"%char -> inverse_feed_rate lv' = inverse_feed_rate lv) /\
    (c = "R"%char -> radius_mode lv' = radius_mode lv).
Proof.
  induction 1 as [|[letter value] ss Hs _ IH]; intros gc lv;
    cbn [pass2_list].
  - cbn. auto.
  - pose proof (pass2_statement_locals letter value gc lv) as H.
    cbv zeta in H. destruct H as (HF & HR & _).
    destruct (pass2_statement letter value gc lv) as [gc1 lv1].
    cbn [snd fst] in *.
    specialize (IH gc1 lv1). cbv zeta in IH. destruct IH as [I1 I2].
    split; intros ->.
    + rewrite (I1 eq_refl). apply HF, Hs.
    + rewrite (I2 eq_refl). apply HR, Hs.
Qed.

(** What the two passes hand on of the locals on a line without the
    letter [c]. *)
Lemma parse_line_locals strtod textline gc gc2 lv2 ev (c : ascii) :
  parse_line strtod textline gc = Continue gc2 lv2 ev ->
  occurs c textline = false ->
  (c = "F"%char -> inverse_feed_rate lv2 = Fin (-1)) /\
  (c = "R"%char -> radius_mode lv2 = false).
Proof.
  intros Hparse Habs.
  apply parse_line_Continue_inv in Hparse
    as [_ (ss & gc1 & lv1 & Hss & Hp1 & Hok & Hp2)].
  assert (Hletters : Forall (fun s => fst s <> c) ss).
  { apply statements_occur in Hss. eapply Forall_impl; [|exact Hss].
    intros s Hs. cbv beta in Hs. eapply occurs_absent; eassumption. }
  pose proof (pass2_list_locals ss end_of_line c Hletters gc1
                (set_target (position gc1) (set_offset clear_vector lv1)))
    as H2.
  cbv zeta in H2. rewrite Hp2 in H2. cbn [snd] in H2.
  pose proof (pass1_list_locals ss end_of_line
                (set_status_code GCSTATUS_OK gc) locals_init) as H1.
  cbv zeta in H1. rewrite Hp1 in H1. cbn [snd] in H1.
  destruct H1 as [H1f H1r], H2 as [H2f H2r].
  split; intros ->.
  - rewrite (H2f eq_refl). destruct lv1. cbn in *. exact H1f.
  - rewrite (H2r eq_refl). destruct lv1. cbn in *. exact H1r.
Qed.

(** X10.  [GCSTATUS_FLOATING_POINT_ERROR] is returned only by a line with
    an R word on it that leaves an arc motion mode; the one call such a
    line has made is the spindle call. *)
Theorem floating_point_error_origin (strtod : string -> double * nat)
    (textline : string) (gc : ParserState) :
  let res := gc_execute_line strtod textline gc in
  returned res = GCSTATUS_FLOATING_POINT_ERROR ->
  occurs "R" textline = true /\
  (motion_mode (state_after res) = MOTION_MODE_CW_ARC \/
   motion_mode (state_after res) = MOTION_MODE_CCW_ARC) /\
  calls res = [spindle_event (state_after res)].
Proof.
  cbv zeta. unfold gc_execute_line.
  pose proof (parse_line_inv strtod textline gc) as Hinv.
  destruct (parse_line strtod textline gc) as [[[st gc'] ev]|gc2 lv2 ev]
    eqn:Hparse.
  - destruct Hinv as (_ & Hst & _). cbn [returned fst]. intros ->.
    destruct Hst as [H|[H|[H|H]]]; discriminate H.
  - destruct Hinv as (_ & Hok & _).
    pose proof (parse_line_Continue _ _ _ _ _ _ Hparse) as ->.
    destruct (dispatch_cases gc2 lv2 [])
      as [[actions ->]|[-> (_ & Hmode & Hrm & _)]];
      cbn [returned state_after calls fst snd].
    + rewrite Hok. discriminate.
    + intros _. split; [|split].
      * destruct (occurs "R" textline) eqn:Habs; [reflexivity|].
        destruct (parse_line_locals _ _ _ _ _ _ "R" Hparse Habs) as [_ HR].
        rewrite (HR eq_refl) in Hrm. discriminate Hrm.
      * exact Hmode.
      * reflexivity.
Qed.

(** An instance: [G2X10Y0R1], whose radius is too short. *)
Lemma floating_point_error_origin_witness :
  let res := gc_execute_line strtod_c "G2X10Y0R1" gc_start in
  occurs "R" "G2X10Y0R1" = true /\
  (motion_mode (state_after res) = MOTION_MODE_CW_ARC \/
   motion_mode (state_after res) = MOTION_MODE_CCW_ARC) /\
  calls res = [spindle_event (state_after res)].
Proof.
  apply (floating_point_error_origin strtod_c "G2X10Y0R1" gc_start).
  rewrite run_G2X10Y0R1. reflexivity.
Defined.

(* ================================================================== *)
(** ** Arcs given by their centre                                      *)
(* ================================================================== *)

Lemma last_cons_default {A : Type} (x d : A) (l : list A) :
  last (x :: l) d = last l x.
Proof.
  revert x d. induction l as [|y l IH]; intros x d; [reflexivity|].
  change (last (x :: y :: l) d) with (last (y :: l) d).
  rewrite (IH y d), (IH y x). reflexivity.
Qed.

Lemma pass2_statement_offset a value gc lv :
  pass2_statement (offset_letter a) value gc lv =
  (gc, set_offset (vset (offset lv) a (to_millimeters gc value)) lv).
Proof. destruct a; reflexivity. Qed.

Lemma pass2_statement_offset_other letter value gc lv a :
  letter <> offset_letter a ->
  vget (offset (snd (pass2_statement letter value gc lv))) a =
  vget (offset lv) a.
Proof.
  unfold pass2_statement.
  case_letter letter; try reflexivity; intros H;
    try (destruct (inverse_feed_rate_mode gc); reflexivity);
    try (destruct (absolute_mode gc || absolute_override lv); reflexivity);
    destruct a; try (exfalso; apply H; reflexivity); reflexivity.
Qed.

(** The offset pass 2 leaves along an axis: that of the last word for
    the axis. *)
Lemma pass2_list_offset e a ss :
  forall gc lv,
    vget (offset (snd (pass2_list ss e gc lv))) a =
    last (map (fun s => to_millimeters gc (snd s))
            (filter (fun s => Ascii.eqb (fst s) (offset_letter a)) ss))
         (vget (offset lv) a).
Proof.
  induction ss as [|[letter value] ss IH]; intros gc lv.
  - reflexivity.
  - cbn [filter map fst pass2_list].
    destruct (Ascii.eqb letter (offset_letter a)) eqn:E.
    + apply Ascii.eqb_eq in E. subst letter.
      rewrite pass2_statement_offset, IH.
      cbn [map snd offset set_offset].
      rewrite vget_vset_same, last_cons_default. reflexivity.
    + assert (Hne : letter <> offset_letter a).
      { intros ->. rewrite Ascii.eqb_refl in E. discriminate. }
      pose proof (pass2_statement_offset_other letter value gc lv a Hne)
        as Ho.
      pose proof (pass2_statement_frame letter value gc lv) as F.
      cbv zeta in F. destruct F as (_ & _ & _ & _ & Hin & _).
      destruct (pass2_statement letter value gc lv) as [gc1 lv1].
      cbn [fst snd] in *.
      rewrite IH, Ho. f_equal. apply map_ext. intros s.
      unfold to_millimeters. rewrite Hin. reflexivity.
Qed.

(** X11.  The arc of a line without R.  On a line that scans to its end
    and has no letter R, every arc requested is the one around the
    centre that the I, J and K words give, as offsets from the current
    position along the two axes of the plane, zero where a word is
    missing.  The start angle is [theta] of the opposite of that offset,
    the radius its [hypot], the depth the displacement along the third
    axis, and the angular travel the one the code takes from the start
    angle to [theta] of the target seen from the centre.  The line
    returns [GCSTATUS_OK]: nothing compares the distance from the centre
    to the target with the radius. *)
Theorem centre_arc_descriptor (strtod : string -> double * nat)
    (textline : string) (gc : ParserState) (ss : list (ascii * double))
    (ts travel rad dep : double) (a0 a1 a2 : axis) (rate : double)
    (inv : bool) :
  line_statements strtod textline 0 = (ss, end_of_line) ->
  occurs "R" textline = false ->
  let res := gc_execute_line strtod textline gc in
  let gc' := state_after res in
  let i := centre_offset gc' ss a0 in
  let j := centre_offset gc' ss a1 in
  In (mc_arc ts travel rad dep a0 a1 a2 rate inv) (calls res) ->
  returned res = GCSTATUS_OK /\
  ts = theta (- i)%D (- j)%D /\
  rad = Libm.hypot i j /\
  dep = (vget (position gc') a2 - vget (position gc) a2)%D /\
  travel =
  angular_travel_of (motion_mode gc') ts
    (theta (vget (position gc') a0 - i - vget (position gc) a0)%D
           (vget (position gc') a1 - j - vget (position gc) a1)%D).
Proof.
  intros Hss Habs. cbv zeta. unfold gc_execute_line.
  pose proof (parse_line_inv strtod textline gc) as Hinv.
  destruct (parse_line strtod textline gc) as [[[st g] ev]|gc2 lv2 ev]
    eqn:Hparse.
  { destruct Hinv as (_ & _ & Hev). intros Hin. exfalso.
    exact (no_physical_action_arc _ _ _ _ _ _ _ _ _ _ Hev Hin). }
  destruct Hinv as (Hpos & Hok & Hev). intros Hin.
  destruct (arc_call_descriptor _ _ _ _ _ _ _ _ _ _ _ _ Hev Hin)
    as (Hm & Hstate & off & Hoff & _ & _ & _ & Hts & Htr & Hrad & Hdep).
  destruct (parse_line_locals _ _ _ _ _ _ "R" Hparse Habs) as [_ HR].
  specialize (Hoff (HR eq_refl)). subst off.
  pose proof (dispatch_cases gc2 lv2 ev) as Hcases.
  destruct Hcases as [[actions Hd]|[Hd _]].
  2:{ rewrite Hd in Hstate. cbn [state_after fst snd] in Hstate.
      exfalso. rewrite Hd in Hin. cbn [calls snd] in Hin.
      apply in_app_or in Hin as [Hin|[Hin|[]]].
      - exact (no_physical_action_arc _ _ _ _ _ _ _ _ _ _ Hev Hin).
      - unfold spindle_event in Hin. destruct (Z.eqb _ 0); discriminate. }
  rewrite Hd. cbn [returned state_after fst snd].
  apply parse_line_Continue_inv in Hparse
    as [_ (ss' & gc1 & lv1 & Hss' & Hp1 & Hok1 & Hp2)].
  rewrite Hss in Hss'. injection Hss' as <-.
  assert (Hcentre : forall a,
             vget (offset lv2) a =
             centre_offset (set_position (target lv2) gc2) ss a).
  { intros a.
    pose proof (pass2_list_offset end_of_line a ss gc1
                  (set_target (position gc1) (set_offset clear_vector lv1)))
      as Ho.
    rewrite Hp2 in Ho. cbn [snd] in Ho. rewrite Ho.
    unfold centre_offset. f_equal.
    - apply map_ext. intros s. unfold to_millimeters.
      assert (Hin2 : inches_mode gc2 = inches_mode gc1).
      { pose proof (pass2_list_preserves
                      (fun g => inches_mode g = inches_mode gc1)
                      (fun s0 g Hg => Hg)) as Hkeep.
        specialize (Hkeep
          (fun l v g lv0 Hg =>
             eq_trans
               (proj1 (proj2 (proj2 (proj2 (proj2
                  (pass2_statement_frame l v g lv0)))))) Hg)
          ss end_of_line gc1
          (set_target (position gc1) (set_offset clear_vector lv1)) eq_refl).
        rewrite Hp2 in Hkeep. exact Hkeep. }
      replace (inches_mode (set_position (target lv2) gc2))
        with (inches_mode gc2) by (destruct gc2; reflexivity).
      rewrite Hin2. reflexivity.
    - destruct lv1, a; reflexivity. }
  replace (position (set_position (target lv2) gc2)) with (target lv2)
    by (destruct gc2; reflexivity).
  replace (motion_mode (set_position (target lv2) gc2))
    with (motion_mode gc2) by (destruct gc2; reflexivity).
  rewrite <- !Hcentre, <- Hpos.
  split; [exact Hok|]. split; [exact Hts|]. split; [exact Hrad|].
  split; [exact Hdep|exact Htr].
Qed.

(** An instance: the arc of [G2X10Y0I5J0] from the start state. *)
Lemma centre_arc_descriptor_witness :
  let res := gc_execute_line strtod_c "G2X10Y0I5J0" gc_start in
  let gc' := state_after res in
  let ss :=
    [("G"%char, Fin 2); ("X"%char, Fin 10); ("Y"%char, Fin 0);
     ("I"%char, Fin 5); ("J"%char, Fin 0)] in
  let i := centre_offset gc' ss X_AXIS in
  let j := centre_offset gc' ss Y_AXIS in
  let ts := theta (- Fin 5)%D (- Fin 0)%D in
  returned res = GCSTATUS_OK /\
  ts = theta (- i)%D (- j)%D /\
  Libm.hypot (Fin 5) (Fin 0) = Libm.hypot i j /\
  (Fin 0 - Fin 0)%D
  = (vget (position gc') Z_AXIS - vget (position gc_start) Z_AXIS)%D /\
  angular_travel_of MOTION_MODE_CW_ARC ts
    (theta (Fin 10 - Fin 5 - Fin 0)%D (Fin 0 - Fin 0 - Fin 0)%D) =
  angular_travel_of (motion_mode gc') ts
    (theta (vget (position gc') X_AXIS - i - vget (position gc_start) X_AXIS)%D
           (vget (position gc') Y_AXIS - j
            - vget (position gc_start) Y_AXIS)%D).
Proof.
  cbv zeta.
  eapply (centre_arc_descriptor strtod_c "G2X10Y0I5J0" gc_start
            [("G"%char, Fin 2); ("X"%char, Fin 10); ("Y"%char, Fin 0);
             ("I"%char, Fin 5); ("J"%char, Fin 0)]).
  - run. reflexivity.
  - reflexivity.
  - rewrite run_G2X10Y0I5J0. right. left. reflexivity.
Defined.






(* ================================================================== *)
(** ** The calls of a line                                             *)
(* ================================================================== *)

Lemma rate_of_feed gc lv :
  inverse_feed_rate_mode gc = false -> rate_of gc lv = feed_rate gc.
Proof. unfold rate_of. intros ->. reflexivity. Qed.

(** The calls of the physical actions, after those made before. *)
Lemma dispatch_calls gc lv :
  line_calls (state_after (dispatch gc lv [])) (calls (dispatch gc lv [])).
Proof.
  unfold dispatch, commit, trace_arc. cbn [app].
  destruct (next_action lv), (motion_mode gc);
    try destruct (if radius_mode lv then radius_to_offset gc lv
                  else Some (offset lv)) as [off|];
    cbn [state_after calls fst snd app];
    first
      [ exact (calls_line (set_position (target lv) gc) (rate_of gc lv)
                 (rate_of_feed gc lv))
      | exact (calls_arc (set_position (target lv) gc) _ _ _ _
                 (rate_of gc lv) (rate_of_feed gc lv))
      | apply (calls_spindle (set_position (target lv) gc))
      | apply (calls_spindle (FAIL GCSTATUS_FLOATING_POINT_ERROR gc))
      | apply (calls_go_home (set_position (target lv) gc))
      | apply (calls_dwell (set_position (target lv) gc)) ].
Qed.

(** What a line has called when it returns before the physical
    actions. *)
Lemma parse_line_calls strtod textline gc st gc' ev :
  parse_line strtod textline gc = Return (st, gc', ev) ->
  ev = [] \/ ev = [dump_settings] \/
  exists parameter value, ev = [store_setting parameter value].
Proof.
  unfold parse_line, settings_line.
  destruct (is_char (char_at textline 0) "("); [intros [= _ _ <-]; auto|].
  assert (Hpasses : forall gc1 lv1 c1 ev1,
    (let '(gc2, lv2) :=
       pass1 strtod (S (String.length textline)) textline c1 gc1 lv1 in
     if nonzero (status_code gc2) then Return (status_code gc2, gc2, ev1)
     else
       let '(gc3, lv3) :=
         pass2 strtod (S (String.length textline)) textline 0 gc2
           (set_target (position gc2) (set_offset clear_vector lv2)) in
       if nonzero (status_code gc3) then Return (status_code gc3, gc3, ev1)
       else Continue gc3 lv3 ev1) = Return (st, gc', ev) -> ev = ev1).
  { intros gc1 lv1 c1 ev1.
    destruct (pass1 _ _ _ _ _ _) as [gc2 lv2].
    destruct (nonzero (status_code gc2)); [intros [= _ _ <-]; reflexivity|].
    destruct (pass2 _ _ _ _ _ _) as [gc3 lv3].
    destruct (nonzero (status_code gc3)); [intros [= _ _ <-]; reflexivity|].
    discriminate. }
  destruct (is_char (char_at textline 0) "$").
  - destruct (is_char (char_at textline 1) NUL); [intros [= _ _ <-]; auto|].
    destruct (read_double strtod textline 1 _) as [[[ok1 c1] p1] g1].
    destruct (negb _); [intros [= _ _ <-]; auto|].
    destruct (read_double strtod textline (S c1) g1) as [[[ok2 c2] v2] g2].
    destruct (negb _); [intros [= _ _ <-]; auto|].
    intros H. apply Hpasses in H. subst ev. eauto.
  - intros H. apply Hpasses in H. subst ev. auto.
Qed.

(** X13.  The calls of one line.  Whatever the line and the state,
    [gc_execute_line] makes no call, or one call of the settings, or
    the spindle call followed by at most one action: homing, a dwell,
    a straight move, or an arc with its closing straight move.  Every
    straight move it requests ends at the position the modal state
    holds on return, every arc lies in the plane selected then, and
    outside the inverse time mode a move is requested at the feed rate
    of the state. *)
Theorem calls_of_a_line (strtod : string -> double * nat)
    (textline : string) (gc : ParserState) :
  line_calls (state_after (gc_execute_line strtod textline gc))
    (calls (gc_execute_line strtod textline gc)).
Proof.
  unfold gc_execute_line.
  destruct (parse_line strtod textline gc) as [[[st gc'] ev]|gc2 lv2 ev]
    eqn:Hparse.
  - apply parse_line_calls in Hparse.
    destruct Hparse as [->|[->|(parameter & value & ->)]]; constructor.
  - pose proof (parse_line_Continue _ _ _ _ _ _ Hparse) as ->.
    apply dispatch_calls.
Qed.

(** The moves of the physical actions are requested at [rate_of]. *)
Lemma dispatch_requested_rate gc lv e rate inv :
  In e (calls (dispatch gc lv [])) ->
  requested_rate e = Some (rate, inv) ->
  rate = rate_of gc lv /\ inv = inverse_feed_rate_mode gc.
Proof.
  assert (Hsp : requested_rate (spindle_event gc) = None)
    by (unfold spindle_event; destruct (Z.eqb _ 0); reflexivity).
  unfold dispatch, commit, trace_arc. cbn [app].
  destruct (next_action lv), (motion_mode gc);
    try destruct (if radius_mode lv then radius_to_offset gc lv
                  else Some (offset lv)) as [off|];
    cbn [calls snd app In]; intros Hin Hr;
    repeat match goal with
           | H : _ \/ _ |- _ => destruct H as [H|H]
           | H : False |- _ => destruct H
           end;
    subst e; try congruence; cbn [requested_rate] in Hr;
    try discriminate Hr; injection Hr as <- <-; auto.
Qed.

(** X14.  In the inverse time mode (G93) the rate of a move is the F word
    of its own line, and a line without the letter F requests its move
    at the rate -1, the value the code initialises
    [inverse_feed_rate] with: the F of an earlier line is not used. *)
Theorem inverse_time_rate_without_F (strtod : string -> double * nat)
    (textline : string) (gc : ParserState) :
  occurs "F" textline = false ->
  Forall (fun e => forall rate,
              requested_rate e = Some (rate, true) -> rate = Fin (-1))
    (calls (gc_execute_line strtod textline gc)).
Proof.
  intros Habs. apply Forall_forall. intros e. unfold gc_execute_line.
  pose proof (parse_line_inv strtod textline gc) as Hinv.
  destruct (parse_line strtod textline gc) as [[[st gc'] ev]|gc2 lv2 ev]
    eqn:Hparse.
  - destruct Hinv as (_ & _ & Hev). cbn [calls snd]. intros Hin rate Hr.
    unfold no_physical_action in Hev. rewrite Forall_forall in Hev.
    apply Hev in Hin as [Hm _]. destruct e; discriminate.
  - pose proof (parse_line_Continue _ _ _ _ _ _ Hparse) as ->.
    intros Hin rate Hr.
    destruct (dispatch_requested_rate _ _ _ _ _ Hin Hr) as [-> Hmode].
    destruct (parse_line_locals _ _ _ _ _ _ "F" Hparse Habs) as [HF _].
    unfold rate_of. rewrite <- Hmode. apply HF. reflexivity.
Qed.

(** An instance: [G93G1X1] from the start state. *)
Lemma inverse_time_rate_without_F_witness :
  Forall (fun e => forall rate,
              requested_rate e = Some (rate, true) -> rate = Fin (-1))
    (calls (gc_execute_line strtod_c "G93G1X1" gc_start)).
Proof.
  apply (inverse_time_rate_without_F strtod_c "G93G1X1" gc_start).
  reflexivity.
Defined.

(** On that line the move is requested in the inverse time mode, at the
    rate -1. *)
Example inverse_time_move :
  gc_execute_line strtod_c "G93G1X1" gc_start =
  (GCSTATUS_OK,
   set_position (mkvec (Fin 1) (Fin 0) (Fin 0))
     (set_inverse_feed_rate_mode true
        (set_motion_mode MOTION_MODE_LINEAR gc_start)),
   [spindle_stop; mc_line (Fin 1) (Fin 0) (Fin 0) (Fin (-1)) true]).
Proof. unfold gc_execute_line. run. reflexivity. Qed.

(* ================================================================== *)
(** ** The position a line commits                                     *)
(* ================================================================== *)

Lemma pass1_statement_override letter value gc lv :
  absolute_override (snd (pass1_statement letter value gc lv)) =
  absolute_override lv || is_G 53 (letter, value).
Proof.
  unfold is_G, int_value_of, pass1_statement. cbn [fst snd].
  generalize (double_to_int (Libm.trunc value)). intros n.
  case_letter letter; cbn [Ascii.eqb Bool.eqb andb];
    try (rewrite orb_false_r; reflexivity);
    case_int; cbn; rewrite ?orb_false_r, ?orb_true_r; reflexivity.
Qed.

(** Pass 1 that ends without an error has run over all the statements. *)
Lemma pass1_list_complete ss :
  forall gc lv,
    status_code gc = GCSTATUS_OK ->
    status_code (fst (pass1_list ss end_of_line gc lv)) = GCSTATUS_OK ->
    absolute_override (snd (pass1_list ss end_of_line gc lv)) =
    absolute_override lv || existsb (is_G 53) ss.
Proof.
  induction ss as [|[letter value] ss IH]; intros gc lv Hok;
    cbn [pass1_list existsb].
  - intros _. cbn. rewrite orb_false_r. reflexivity.
  - pose proof (pass1_statement_override letter value gc lv) as Ho.
    destruct (pass1_statement letter value gc lv) as [gc1 lv1].
    cbn [snd] in Ho.
    destruct (nonzero (status_code gc1)) eqn:Hnz.
    + cbn [fst]. intros H. rewrite H in Hnz. discriminate Hnz.
    + intros H. rewrite (IH gc1 lv1 (nonzero_false _ Hnz) H), Ho.
      symmetry. apply orb_assoc.
Qed.

Lemma word_values_none a ss :
  word_values a ss = [] -> Forall (fun s => fst s <> axis_letter a) ss.
Proof.
  unfold word_values.
  induction ss as [|[letter value] ss IH]; cbn [filter map fst];
    [constructor|].
  destruct (Ascii.eqb letter (axis_letter a)) eqn:E; [discriminate|].
  intros H. constructor; [|apply IH, H].
  cbn [fst]. intros ->. rewrite Ascii.eqb_refl in E. discriminate.
Qed.

(** The target pass 2 leaves along an axis with at most one word. *)
Lemma pass2_list_word e a ss :
  forall gc lv,
    (List.length (word_values a ss) <= 1)%nat ->
    vget (target (snd (pass2_list ss e gc lv))) a =
    match word_values a ss with
    | [] => vget (target lv) a
    | value :: _ =>
        if absolute_mode gc || absolute_override lv
        then to_millimeters gc value
        else (vget (target lv) a + to_millimeters gc value)%D
    end.
Proof.
  induction ss as [|[letter value] ss IH]; intros gc lv Hone.
  - reflexivity.
  - revert Hone. unfold word_values. cbn [filter map fst pass2_list].
    destruct (Ascii.eqb letter (axis_letter a)) eqn:E.
    + apply Ascii.eqb_eq in E. subst letter.
      cbn [map snd List.length]. intros Hone.
      assert (Hnone : word_values a ss = []).
      { unfold word_values.
        destruct (map snd _); [reflexivity|cbn in Hone; lia]. }
      rewrite pass2_statement_axis.
      rewrite (pass2_list_target ss e a (word_values_none a ss Hnone)).
      cbn [target set_target]. apply vget_vset_same.
    + intros Hone. fold (word_values a ss) in *.
      assert (Hne : letter <> axis_letter a).
      { intros ->. rewrite Ascii.eqb_refl in E. discriminate. }
      pose proof (pass2_statement_target letter value gc lv a Hne) as Ht.
      pose proof (pass2_statement_frame letter value gc lv) as F.
      pose proof (pass2_statement_locals letter value gc lv) as L.
      cbv zeta in F, L.
      destruct F as (_ & _ & _ & _ & Hin & Hab & _).
      destruct L as (_ & _ & _ & _ & Hov).
      destruct (pass2_statement letter value gc lv) as [gc1 lv1].
      cbn [fst snd] in *.
      rewrite (IH gc1 lv1 Hone), Ht, Hab, Hov.
      unfold to_millimeters. rewrite Hin. reflexivity.
Qed.

(** X15.  The position after a line that is accepted.  When a line
    that scans to its end, with at most one word for each axis, returns
    [GCSTATUS_OK], the position it leaves is the target of its axis
    words, whatever it has requested: a move, an arc, a dwell, homing
    or nothing.  A word counts as a coordinate under G53 or in the
    absolute mode, else as an increment, and is converted from inches or
    not, by the modes in force after the G words of the line itself,
    wherever they stand on it.  So a line with G4, G28, G30 or under G80
    moves the position of the parser by its axis words though no move
    is requested. *)
Theorem committed_position (strtod : string -> double * nat)
    (textline : string) (gc : ParserState) (ss : list (ascii * double)) :
  line_statements strtod textline 0 = (ss, end_of_line) ->
  (forall a, (List.length (word_values a ss) <= 1)%nat) ->
  let res := gc_execute_line strtod textline gc in
  returned res = GCSTATUS_OK ->
  forall a,
    vget (position (state_after res)) a =
    committed gc (state_after res) ss a.
Proof.
  intros Hss Hone. cbv zeta.
  rewrite (gc_execute_line_statements strtod textline gc ss end_of_line
             (scanned_plain strtod textline ss Hss) Hss).
  rewrite run_statements_scanned.
  pose proof (pass1_list_position ss end_of_line
                (set_status_code GCSTATUS_OK gc) locals_init) as Hpos1.
  pose proof (pass1_list_complete ss (set_status_code GCSTATUS_OK gc)
                locals_init eq_refl) as Hov.
  destruct (pass1_list ss end_of_line _ locals_init) as [gc1 lv1].
  cbn [fst snd] in Hpos1, Hov.
  destruct (nonzero (status_code gc1)) eqn:Hnz.
  { cbn [returned fst]. intros H. rewrite H in Hnz. discriminate Hnz. }
  specialize (Hov (nonzero_false _ Hnz)).
  set (lv1' := set_target (position gc1) (set_offset clear_vector lv1)).
  pose proof (fun a => pass2_list_word end_of_line a ss gc1 lv1' (Hone a))
    as Hword.
  assert (Hframe : inches_mode (fst (pass2_list ss end_of_line gc1 lv1'))
                   = inches_mode gc1 /\
                   absolute_mode (fst (pass2_list ss end_of_line gc1 lv1'))
                   = absolute_mode gc1).
  { apply (pass2_list_preserves
             (fun g => inches_mode g = inches_mode gc1 /\
                       absolute_mode g = absolute_mode gc1)).
    - intros s g Hg. exact Hg.
    - intros l v g lv [H1 H2].
      pose proof (pass2_statement_frame l v g lv) as F. cbv zeta in F.
      destruct F as (_ & _ & _ & _ & -> & -> & _). auto.
    - auto. }
  destruct (pass2_list ss end_of_line gc1 lv1') as [gc2 lv2].
  cbn [fst snd] in Hword, Hframe. destruct Hframe as [Hin Hab].
  destruct (dispatch_cases gc2 lv2 []) as [[actions ->]|[-> _]];
    cbn [returned state_after fst snd]; [|discriminate].
  intros _ a.
  replace (position (set_position (target lv2) gc2)) with (target lv2)
    by (destruct gc2; reflexivity).
  rewrite Hword. unfold committed, to_millimeters.
  replace (inches_mode (set_position (target lv2) gc2)) with (inches_mode gc1)
    by (destruct gc2; cbn in *; congruence).
  replace (absolute_mode (set_position (target lv2) gc2))
    with (absolute_mode gc1) by (destruct gc2; cbn in *; congruence).
  replace (absolute_override lv1') with (existsb (is_G 53) ss)
    by (unfold lv1'; destruct lv1; cbn in *; congruence).
  replace (target lv1') with (position gc)
    by (unfold lv1'; destruct lv1; cbn in *; congruence).
  reflexivity.
Qed.

(** An instance: [G4P1X10] from the start state, a dwell. *)
Lemma committed_position_witness :
  vget (position (state_after
                    (gc_execute_line strtod_c "G4P1X10" gc_start))) X_AXIS =
  committed gc_start
    (state_after (gc_execute_line strtod_c "G4P1X10" gc_start))
    [("G"%char, Fin 4); ("P"%char, Fin 1); ("X"%char, Fin 10)] X_AXIS.
Proof.
  apply (committed_position strtod_c "G4P1X10" gc_start
           [("G"%char, Fin 4); ("P"%char, Fin 1); ("X"%char, Fin 10)]).
  - run. reflexivity.
  - intros a. destruct a; cbn; lia.
  - unfold gc_execute_line. run. reflexivity.
Defined.

(** On that line the parser moves its position to X10 and requests the
    dwell only. *)
Example dwell_moves_the_position :
  gc_execute_line strtod_c "G4P1X10" gc_start =
  (GCSTATUS_OK, set_position (mkvec (Fin 10) (Fin 0) (Fin 0)) gc_start,
   [spindle_stop; mc_dwell (Libm.trunc (Fin 1 * dint 1000)%D)]).
Proof. unfold gc_execute_line. run. reflexivity. Qed.

(* ================================================================== *)
(** ** Invariants of the modal state                                   *)
(* ================================================================== *)

Lemma pass1_statement_selected letter value gc lv :
  plane_selected gc /\ spindle_direction_set gc ->
  plane_selected (fst (pass1_statement letter value gc lv)) /\
  spindle_direction_set (fst (pass1_statement letter value gc lv)).
Proof.
  unfold plane_selected, spindle_direction_set, pass1_statement.
  generalize (double_to_int (Libm.trunc value)). intros n H.
  case_letter letter; try exact H; case_int; cbn; try exact H;
    destruct H as [Hp Hs]; split; auto.
Qed.

Lemma pass2_statement_selected letter value gc lv :
  plane_selected gc /\ spindle_direction_set gc ->
  plane_selected (fst (pass2_statement letter value gc lv)) /\
  spindle_direction_set (fst (pass2_statement letter value gc lv)).
Proof.
  unfold plane_selected, spindle_direction_set, pass2_statement. intros H.
  case_letter letter; try exact H.
  destruct (inverse_feed_rate_mode gc); exact H.
Qed.

Lemma pass1_statement_seek_rate letter value gc lv :
  seek_rate (fst (pass1_statement letter value gc lv)) = seek_rate gc.
Proof.
  pose proof (pass1_statement_frame letter value gc lv) as F.
  cbv zeta in F. apply F.
Qed.

Lemma pass2_statement_seek_rate letter value gc lv :
  seek_rate (fst (pass2_statement letter value gc lv)) = seek_rate gc.
Proof.
  pose proof (pass2_statement_frame letter value gc lv) as F.
  cbv zeta in F. apply F.
Qed.

(** One call keeps the three. *)
Lemma gc_execute_line_selected strtod textline gc k :
  plane_selected gc /\ spindle_direction_set gc /\ seek_rate gc = k ->
  let gc' := state_after (gc_execute_line strtod textline gc) in
  plane_selected gc' /\ spindle_direction_set gc' /\ seek_rate gc' = k.
Proof.
  intros H. cbv zeta.
  apply (gc_execute_line_keeps strtod textline
           (fun g => plane_selected g /\ spindle_direction_set g
                     /\ seek_rate g = k)).
  - intros s g Hg. exact Hg.
  - intros t g Hg. exact Hg.
  - intros l v g lv _ (Hp & Hs & Hk).
    destruct (pass1_statement_selected l v g lv (conj Hp Hs)) as [Hp' Hs'].
    rewrite pass1_statement_seek_rate. auto.
  - intros l v g lv _ (Hp & Hs & Hk).
    destruct (pass2_statement_selected l v g lv (conj Hp Hs)) as [Hp' Hs'].
    rewrite pass2_statement_seek_rate. auto.
  - exact H.
Qed.

(** X16.  After [gc_init] and any lines whatever, accepted or rejected,
    the plane of the modal state is one of XY, XZ and YZ with the third
    axis as depth, the spindle direction is 1, -1 or 0, and the seek
    rate is still the one [gc_init] has set: no line changes it. *)
Theorem modal_state_invariant (strtod : string -> double * nat)
    (default_feed_rate default_seek_rate : double) (lines : list string) :
  let gc :=
    run_lines strtod lines (gc_init default_feed_rate default_seek_rate) in
  plane_selected gc /\ spindle_direction_set gc /\
  seek_rate gc = (default_seek_rate / dint 60)%D.
Proof.
  cbv zeta.
  assert (Hinit : plane_selected (gc_init default_feed_rate default_seek_rate)
                  /\ spindle_direction_set
                       (gc_init default_feed_rate default_seek_rate)
                  /\ seek_rate (gc_init default_feed_rate default_seek_rate)
                     = (default_seek_rate / dint 60)%D).
  { unfold plane_selected, spindle_direction_set. cbn. auto. }
  revert Hinit.
  generalize (gc_init default_feed_rate default_seek_rate).
  induction lines as [|textline lines IH]; intros gc H; cbn [run_lines].
  - exact H.
  - apply IH. apply gc_execute_line_selected, H.
Qed.

(* ================================================================== *)
(** ** The fields no line reads                                        *)
(* ================================================================== *)

Lemma alike_status s g g' :
  same_read_fields g g' -> alike (set_status_code s g) (set_status_code s g').
Proof. intros H. split; [exact H|reflexivity]. Qed.

Lemma alike_unfold g g' :
  alike g g' ->
  exists flow seek tool',
    g' = mkParserState (status_code g) (motion_mode g)
           (inverse_feed_rate_mode g) (inches_mode g) (absolute_mode g)
           flow (spindle_direction g) (feed_rate g) seek (position g)
           tool' (spindle_speed g) (plane_axis_0 g) (plane_axis_1 g)
           (plane_axis_2 g).
Proof.
  intros [(H1 & H2 & H3 & H4 & H5 & H6 & H7 & H8 & H9 & H10 & H11) H0].
  exists (program_flow g'), (seek_rate g'), (tool g').
  destruct g'; cbn in *. congruence.
Qed.

Lemma alike_fold g flow seek tool' :
  alike g
    (mkParserState (status_code g) (motion_mode g)
       (inverse_feed_rate_mode g) (inches_mode g) (absolute_mode g)
       flow (spindle_direction g) (feed_rate g) seek (position g)
       tool' (spindle_speed g) (plane_axis_0 g) (plane_axis_1 g)
       (plane_axis_2 g)).
Proof. unfold alike, same_read_fields. cbn. repeat split. Qed.

Lemma pass1_statement_alike letter value g g' lv :
  alike g g' ->
  alike (fst (pass1_statement letter value g lv))
    (fst (pass1_statement letter value g' lv)) /\
  snd (pass1_statement letter value g lv) =
  snd (pass1_statement letter value g' lv).
Proof.
  intros H. apply alike_unfold in H as (flow & seek & tool' & ->).
  unfold pass1_statement.
  generalize (double_to_int (Libm.trunc value)). intros n.
  case_letter letter; try case_int;
    (split; [unfold alike, same_read_fields; cbn; repeat split
            |reflexivity]).
Qed.

Lemma pass2_statement_alike letter value g g' lv :
  alike g g' ->
  alike (fst (pass2_statement letter value g lv))
    (fst (pass2_statement letter value g' lv)) /\
  snd (pass2_statement letter value g lv) =
  snd (pass2_statement letter value g' lv).
Proof.
  intros H. apply alike_unfold in H as (flow & seek & tool' & ->).
  unfold pass2_statement, to_millimeters.
  cbn [inches_mode inverse_feed_rate_mode absolute_mode].
  case_letter letter; destruct (inverse_feed_rate_mode g) eqn:E;
    (split; [unfold alike, same_read_fields; cbn; repeat split; exact E
            |reflexivity]).
Qed.

Lemma stop_gc_alike e g g' : alike g g' -> alike (stop_gc e g) (stop_gc e g').
Proof.
  intros [H H0]. destruct e; [split; assumption|].
  apply alike_status, H.
Qed.

Lemma pass1_list_alike ss e :
  forall g g' lv,
    alike g g' ->
    alike (fst (pass1_list ss e g lv)) (fst (pass1_list ss e g' lv)) /\
    snd (pass1_list ss e g lv) = snd (pass1_list ss e g' lv).
Proof.
  induction ss as [|[letter value] ss IH]; intros g g' lv H;
    cbn [pass1_list].
  - split; [apply stop_gc_alike, H|reflexivity].
  - destruct (pass1_statement_alike letter value g g' lv H) as [H1 H2].
    destruct (pass1_statement letter value g lv) as [g1 lv1].
    destruct (pass1_statement letter value g' lv) as [g1' lv1'].
    cbn [fst snd] in H1, H2. subst lv1'.
    destruct H1 as [H1 H0]. rewrite <- H0.
    destruct (nonzero (status_code g1)).
    + split; [split; assumption|reflexivity].
    + apply IH. split; assumption.
Qed.

Lemma pass2_list_alike ss e :
  forall g g' lv,
    alike g g' ->
    alike (fst (pass2_list ss e g lv)) (fst (pass2_list ss e g' lv)) /\
    snd (pass2_list ss e g lv) = snd (pass2_list ss e g' lv).
Proof.
  induction ss as [|[letter value] ss IH]; intros g g' lv H;
    cbn [pass2_list].
  - split; [apply stop_gc_alike, H|reflexivity].
  - destruct (pass2_statement_alike letter value g g' lv H) as [H1 H2].
    destruct (pass2_statement letter value g lv) as [g1 lv1].
    destruct (pass2_statement letter value g' lv) as [g1' lv1'].
    cbn [fst snd] in H1, H2. subst lv1'.
    apply IH, H1.
Qed.

(** The physical actions read none of the three fields. *)
Lemma dispatch_alike g g' lv ev :
  alike g g' -> result_alike (dispatch g lv ev) (dispatch g' lv ev).
Proof.
  intros H. apply alike_unfold in H as (flow & seek & tool' & ->).
  unfold result_alike, dispatch, commit, trace_arc, radius_to_offset,
    spindle_event, rate_of, FAIL.
  cbn [status_code motion_mode inverse_feed_rate_mode spindle_direction
       feed_rate position spindle_speed plane_axis_0 plane_axis_1
       plane_axis_2 set_position set_status_code].
  destruct (next_action lv), (motion_mode g) eqn:Em;
    try match goal with
        | |- context [match ?o with Some _ => _ | None => _ end] =>
            destruct o
        end;
    cbn [returned calls state_after fst snd];
    repeat split; try reflexivity; cbn; exact Em.
Qed.

Section Unread.

Variable strtod : string -> double * nat.

Lemma read_double_alike textline counter g g' :
  alike g g' ->
  let '(ok, c, v, g1) := read_double strtod textline counter g in
  let '(ok', c', v', g1') := read_double strtod textline counter g' in
  ok = ok' /\ c = c' /\ v = v' /\ alike g1 g1'.
Proof.
  intros H. unfold read_double. destruct (strtod _) as [v len].
  destruct (Nat.eqb len 0); repeat split; try apply H.
Qed.

Lemma parse_line_alike textline g g' :
  same_read_fields g g' ->
  parsed_alike (parse_line strtod textline g) (parse_line strtod textline g').
Proof.
  intros H. unfold parse_line.
  pose proof (alike_status GCSTATUS_OK g g' H) as H0.
  destruct (is_char (char_at textline 0) "(").
  { split; [reflexivity|]. split; [reflexivity|exact H0]. }
  unfold settings_line.
  set (c0 := if is_char (char_at textline 0) "/" then 1%nat else 0%nat).
  assert (Hpasses : forall g1 g1' lv1 c1 ev, alike g1 g1' ->
    parsed_alike
      (let '(gc2, lv2) :=
         pass1 strtod (S (String.length textline)) textline c1 g1 lv1 in
       if nonzero (status_code gc2) then Return (status_code gc2, gc2, ev)
       else
         let '(gc3, lv3) :=
           pass2 strtod (S (String.length textline)) textline 0 gc2
             (set_target (position gc2) (set_offset clear_vector lv2)) in
         if nonzero (status_code gc3) then Return (status_code gc3, gc3, ev)
         else Continue gc3 lv3 ev)
      (let '(gc2, lv2) :=
         pass1 strtod (S (String.length textline)) textline c1 g1' lv1 in
       if nonzero (status_code gc2) then Return (status_code gc2, gc2, ev)
       else
         let '(gc3, lv3) :=
           pass2 strtod (S (String.length textline)) textline 0 gc2
             (set_target (position gc2) (set_offset clear_vector lv2)) in
         if nonzero (status_code gc3) then Return (status_code gc3, gc3, ev)
         else Continue gc3 lv3 ev)).
  { intros g1 g1' lv1 c1 ev H1.
    rewrite !pass1_statements.
    destruct (statements strtod _ textline c1) as [ss1 e1].
    destruct (pass1_list_alike ss1 e1 g1 g1' lv1 H1) as [H2 Hl2].
    destruct (pass1_list ss1 e1 g1 lv1) as [g2 lv2].
    destruct (pass1_list ss1 e1 g1' lv1) as [g2' lv2'].
    cbn [fst snd] in H2, Hl2. subst lv2'.
    pose proof H2 as [Hf2 Hs2]. rewrite <- Hs2.
    destruct (nonzero (status_code g2)).
    { split; [reflexivity|]. split; [reflexivity|exact H2]. }
    rewrite !pass2_statements.
    destruct (statements strtod _ textline 0) as [ss2 e2].
    assert (Hpos : position g2' = position g2)
      by (symmetry; apply Hf2).
    rewrite Hpos.
    destruct (pass2_list_alike ss2 e2 g2 g2'
                (set_target (position g2) (set_offset clear_vector lv2)) H2)
      as [H3 Hl3].
    destruct (pass2_list ss2 e2 g2 _) as [g3 lv3].
    destruct (pass2_list ss2 e2 g2' _) as [g3' lv3'].
    cbn [fst snd] in H3, Hl3. subst lv3'.
    pose proof H3 as [Hf3 Hs3]. rewrite <- Hs3.
    destruct (nonzero (status_code g3)).
    { split; [reflexivity|]. split; [reflexivity|exact H3]. }
    split; [exact H3|]. split; reflexivity. }
  destruct (is_char (char_at textline 0) "$"); [|apply Hpasses, H0].
  destruct (is_char (char_at textline 1) NUL).
  { split; [reflexivity|]. split; [reflexivity|exact H0]. }
  pose proof (read_double_alike textline 1 _ _ H0) as H1.
  destruct (read_double strtod textline 1 (set_status_code GCSTATUS_OK g))
    as [[[ok1 c1] p1] g1].
  destruct (read_double strtod textline 1 (set_status_code GCSTATUS_OK g'))
    as [[[ok1' c1'] p1'] g1'].
  destruct H1 as (<- & <- & <- & H1).
  destruct (negb _).
  { split; [reflexivity|]. split; [reflexivity|exact H1]. }
  pose proof (read_double_alike textline (S c1) _ _ H1) as H2.
  destruct (read_double strtod textline (S c1) g1) as [[[ok2 c2] v2] g2].
  destruct (read_double strtod textline (S c1) g1') as [[[ok2' c2'] v2'] g2'].
  destruct H2 as (<- & <- & <- & H2).
  destruct (negb _).
  { split; [reflexivity|]. split; [reflexivity|exact H2]. }
  apply Hpasses, H2.
Qed.

(** X17.  [gc_execute_line] reads neither the program flow, nor the tool,
    nor the seek rate, nor the status the line before has left.  From
    two states that differ in these fields only, a line returns the same
    value, makes the same calls and leaves states that again differ in
    the program flow, the tool and the seek rate only.  So the lines
    after M0, M1, M2, M30 or M60 are executed like any others, and no
    move is requested at the seek rate. *)
Theorem unread_fields (textline : string) (g g' : ParserState) :
  same_read_fields g g' ->
  result_alike (gc_execute_line strtod textline g)
    (gc_execute_line strtod textline g').
Proof.
  intros H. unfold gc_execute_line.
  pose proof (parse_line_alike textline g g' H) as Hp.
  destruct (parse_line strtod textline g) as [res|g2 lv2 ev2];
    destruct (parse_line strtod textline g') as [res'|g2' lv2' ev2'];
    cbn [parsed_alike] in Hp; try contradiction.
  - exact Hp.
  - destruct Hp as (Ha & <- & <-). apply dispatch_alike, Ha.
Qed.

End Unread.

(** An instance: [G1X1] from the start state and from the start state
    after M2. *)
Lemma unread_fields_witness :
  result_alike (gc_execute_line strtod_c "G1X1" gc_start)
    (gc_execute_line strtod_c "G1X1"
       (set_program_flow PROGRAM_FLOW_COMPLETED gc_start)).
Proof.
  apply (unread_fields strtod_c "G1X1" gc_start
           (set_program_flow PROGRAM_FLOW_COMPLETED gc_start)).
  unfold same_read_fields. cbn. repeat split.
Defined.
